(** * The training driver of mipnerf-pytorch ([train.py])

    [train_model] wires a dataloader, a model, an optimizer, a learning-rate
    schedule and a loss together, and around them it keeps checkpoints, a
    scalar log and periodic preview renders.  The numerical collaborators
    are opaque: they are the fields of the classes [FrameworkData] and
    [Framework].  What the driver itself does (the loop bounds, the two
    cadences, the order of the calls, the paths it writes, the exceptions
    that escape) is modelled as written: the code before the loop in a
    monad that passes the world (a file system, the standard output and the
    calls made so far) and may raise, the loop in a monad that collects the
    calls it makes and may raise. *)

From Stdlib Require Import ZArith String Ascii List Lia QArith.
From stdpp Require Import base tactics option list list_numbers gmap strings pretty fin_maps.

Local Open Scope string_scope.
Local Open Scope Z_scope.
Local Open Scope list_scope.

(** ** Paths and formatted names *)

Module Path.

(** [b.startswith('/')] *)
Definition startswith_sep (b : string) : bool :=
  match b with
  | String c _ => bool_decide (c = "/"%char)
  | EmptyString => false
  end.

(** [a.endswith('/')] *)
Fixpoint endswith_sep (a : string) : bool :=
  match a with
  | EmptyString => false
  | String c rest =>
      match rest with
      | EmptyString => bool_decide (c = "/"%char)
      | String _ _ => endswith_sep rest
      end
  end.

(** [posixpath.join(a, b)] with two arguments: an absolute [b] replaces
    [a]; otherwise [b] is appended, after a separator unless [a] is empty
    or already ends with one. *)
Definition join (a b : string) : string :=
  if startswith_sep b then b
  else if bool_decide (a = "") || endswith_sep a then a +:+ b
  else a +:+ "/" +:+ b.

(** What [join a] puts in front of a relative name. *)
Definition dir_prefix (a : string) : string :=
  if bool_decide (a = "") || endswith_sep a then a else a +:+ "/".

(** [p] lies strictly below directory [dir]. *)
Definition under (dir p : string) : bool := String.prefix (dir +:+ "/") p.

End Path.

(** [str(n)] for a Python int is its decimal numeral, which is what
  [pretty] prints for [Z]. *)
Definition fmt_int (n : Z) : string := pretty n.

(** [f"model_{step}.pt"] *)
Definition stamped_name (step : Z) : string := "model_" +:+ fmt_int step +:+ ".pt".
(** [f"step_{step}/image_{img_cnt}.png"] *)
Definition image_name (step img_cnt : Z) : string :=
"step_" +:+ fmt_int step +:+ "/image_" +:+ fmt_int img_cnt +:+ ".png".
(** [f"step_{step}/video.mp4"] *)
Definition video_name (step : Z) : string := "step_" +:+ fmt_int step +:+ "/video.mp4".

(** ** Python exceptions that can escape the driver *)

Inductive Exn :=
| FileNotFoundError (p : string)    (* torch.load on a path that does not exist *)
| UnpicklingError (p : string)      (* torch.load on a file that is no checkpoint *)
| ZeroDivisionError                 (* [step % 0] *)
| IndexError.                       (* [xs[-1]] on an empty sequence *)

Inductive Result (A : Type) :=
| Ok (a : A)
| Raise (e : Exn).
Arguments Ok {A} a.
Arguments Raise {A} e.

(** [a % b] on Python ints: floor remainder (sign of the divisor), and
  [ZeroDivisionError] for [b = 0]. *)
Definition py_mod (a b : Z) : Result Z :=
if b =? 0 then Raise ZeroDivisionError else Ok (a mod b).

(** [range(a, b)] *)
Definition py_range (a b : Z) : list Z := seqZ a (b - a).

(** [xs[-1]] *)
Definition py_last {A} (xs : list A) : Result A :=
match last xs with
| Some x => Ok x
| None => Raise IndexError
end.

(** [xs[:-1]] *)
Definition py_init {A} (xs : list A) : list A := removelast xs.

(** ** The framework the driver is written against *)

(** Opaque data: tensors, optimizer and schedule state, batches, rendered
    images, and the hyper-parameters that the driver only forwards. *)
Class FrameworkData := {
  Params : Type;
  OptState : Type;
  SchedState : Type;
  DataState : Type;
  Rays : Type;
  Pixels : Type;
  Level : Type;
  Image : Type;
  Scalar : Type;
  Hyper : Type;
}.

(** The configuration object.  The driver reads the fields below; the
    remaining hyper-parameters (model, optimizer, schedule and loss
    settings, device) are kept together in [hyper]. *)
Record Config {FD : FrameworkData} := {
  log_dir : string;
  dataset_name : string;
  base_dir : string;
  factor : Z;
  batch_size : Z;
  n_poses : Z;
  do_eval : bool;
  continue_training : bool;
  max_steps : Z;
  save_every : Z;
  render_every : Z;
  chunks : Z;
  hyper : Hyper;
}.

(** What [get_dataloader(..., split="render", ...)] returns: an iterable
    of ray batches, one per pose, with the attributes [.h] and [.w] that
    line 101 reads. *)
Record RenderLoader {FD : FrameworkData} := {
  rl_h : Z;
  rl_w : Z;
  rl_batches : list Rays;
}.

(** The collaborators, as deterministic functions of their arguments. *)
Class Framework {FD : FrameworkData} := {
  (** [iter(cycle(get_dataloader(..., split="train"|"test", ...)))] *)
  get_dataloader : Config -> string -> DataState;
  (** [next(data)] on a cyclic iterator *)
  next_batch : DataState -> (Rays * Pixels) * DataState;
  (** [get_dataloader(dataset_name, base_dir, split="render", factor=...,
      shuffle=False, n_poses=..., h=..., w=...)] *)
  get_dataloader_render : string -> string -> Z -> Z -> Z -> Z -> RenderLoader;
  (** [MipNeRF(...)]: the freshly initialised parameters *)
  MipNeRF : Config -> Params;
  (** [optim.AdamW(model.parameters(), ...)] *)
  AdamW : Config -> Params -> OptState;
  (** [MipLRDecay(optimizer, ...)]; the constructor may touch the optimizer *)
  MipLRDecay : Config -> OptState -> SchedState * OptState;
  (** [model(rays)]: per-level colours, in the mode the model is in *)
  forward : Params -> bool -> Rays -> list Level;
  (** [NeRFLoss(coarse_weight_decay)(comp_rgb, pixels, lossmult)] *)
  NeRFLoss : Config -> list Level -> Pixels -> Rays -> Scalar * list Scalar;
  (** [optimizer.zero_grad(); loss_val.backward(); optimizer.step()] *)
  backward_step : Params -> bool -> Rays -> Pixels -> OptState -> Params * OptState;
  (** [scheduler.step()] *)
  scheduler_step : SchedState -> OptState -> SchedState * OptState;
  (** [scheduler.get_last_lr()] *)
  get_last_lr : SchedState -> list Scalar;
  (** [np.mean] *)
  np_mean : list Scalar -> Scalar;
  (** [mse_to_psnr(torch.mean((rgb - pixels[..., :3])**2))] *)
  level_psnr : Level -> Pixels -> Scalar;
  (** [model.render_image(rays, h, w, chunks=...)[0]], in the mode the
      model is in *)
  render_image : Params -> bool -> Rays -> Z -> Z -> Z -> Image;
  (** [img.shape[:2]]: the rows and the columns of an image *)
  img_shape : Image -> Z * Z;
  (** the part of the event-file name that [SummaryWriter] picks (time, host) *)
  writer_suffix : string;
}.

Section Driver.

Context {FD : FrameworkData} {FW : Framework}.

(** *** Data of the driver *)

(** [nn.Module]: parameters and the train/eval flag. *)
Record Model := { params : Params; training : bool }.

(** [model.train()] and [model.eval()] *)
Definition model_train (m : Model) : Model := {| params := params m; training := true |}.
Definition model_eval (m : Model) : Model := {| params := params m; training := false |}.
(** [model.state_dict()] and [model.load_state_dict(sd)]: a snapshot of
    the parameters, and its restoration. *)
Definition model_state_dict (m : Model) : Params := params m.
Definition model_load_state_dict (m : Model) (sd : Params) : Model :=
  {| params := sd; training := training m |}.

(** The checkpoint dictionary [{'state_dict', 'optimizer', 'step'}]. *)
Record Ckpt := { ck_state_dict : Params; ck_optimizer : OptState; ck_step : Z }.

(** One [add_scalar] record. *)
Record ScalarEvent := { tag : string; value : Scalar; global_step : Z }.

(** Files, by what was written into them.  An event file is there or not:
    the records handed to its writer reach it from the writer's own thread,
    which the driver neither flushes nor closes, so that what the file
    holds at a given moment is not part of this model; the records are
    spoken about as the [add_scalar] calls that were made.  A video is the
    frames it was encoded from, its picture size, frame rate and
    quality. *)
Inductive File :=
| FCkpt (c : Ckpt)                                (* torch.save *)
| FEvents                                         (* a SummaryWriter event file *)
| FImage (img : Image)                            (* imageio.imwrite *)
| FVideo (frames : list Image) (size : Z * Z) (fps quality : Z)  (* imageio.mimwrite *).

(** The calls the loop makes on its collaborators and on the outside. *)
Inductive Event :=
| EvSetMode (train : bool)                        (* model.train() / model.eval() *)
| EvForward (train : bool) (grad : bool)          (* model(rays), with the mode it ran in *)
| EvUpdate                                        (* optimizer and scheduler step *)
| EvAddScalar (lg : string) (e : ScalarEvent)     (* logger.add_scalar *)
| EvTorchSave (p : string) (c : Ckpt)             (* torch.save *)
| EvPrint (s : string)                            (* print *)
| EvRenderImage (train : bool) (h w chk : Z)      (* model.render_image *)
| EvImwrite (p : string) (img : Image)            (* imageio.imwrite *)
| EvMimwrite (p : string) (frames : list Image) (fps quality : Z). (* imageio.mimwrite *)

(** The world outside the driver's local variables: the file system (paths
    to files; directories are implicit, so that [os.makedirs] changes
    nothing), the standard output, and the calls of the loop so far, each
    with the value of the loop variable of the iteration that made it. *)
Record World := {
  fs : gmap string File;
  stdout : list string;
  trace : list (Z * Event);
}.

(** *** Two monads

    The loop never reads the world, it only acts on it: its code lives in
    [Act], which collects the calls made before returning or raising.  The
    code before the loop reads a checkpoint: it lives in [M], which passes
    the world. *)

Definition Act (A : Type) : Type := list (Z * Event) * Result A.
Definition M (A : Type) : Type := World -> Result A * World.

Class Monad (T : Type -> Type) := {
  lift : forall {A}, Result A -> T A;
  bind : forall {A B}, T A -> (A -> T B) -> T B;
}.

#[export] Instance Act_monad : Monad Act := {|
  lift := fun A r => ([], r);
  bind := fun A B m k =>
    match m.2 with
    | Ok a => (m.1 ++ (k a).1, (k a).2)
    | Raise e => (m.1, Raise e)
    end;
|}.

#[export] Instance M_monad : Monad M := {|
  lift := fun A r w => (r, w);
  bind := fun A B m k w =>
    match m w with
    | (Ok a, w') => k a w'
    | (Raise e, w') => (Raise e, w')
    end;
|}.

Definition ret {T} `{Monad T} {A} (a : A) : T A := lift (Ok a).

Notation "x <- m ;; k" := (bind m (fun x => k))
  (at level 100, m at next level, k at level 200, right associativity).
Notation "m ;; k" := (bind m (fun _ => k))
  (at level 100, k at level 200, right associativity).

(** One call, made in iteration [step]. *)
Definition call (step : Z) (ev : Event) : Act unit := ([(step, ev)], Ok tt).

(** *** What the calls do to the world *)

(** [imageio.mimwrite] to an [.mp4] path encodes with ffmpeg.  Line 108
    passes no [macro_block_size], which is then 16: a side of the picture
    that is not a multiple of it is scaled up to the next multiple. *)
Definition macro_block_size : Z := 16.
Definition block_align (n : Z) : Z :=
  if n mod macro_block_size =? 0 then n
  else n + (macro_block_size - n mod macro_block_size).

(** The video that [imageio.mimwrite(p, frames, fps=.., quality=..)]
    writes: the encoder is started by the first frame, whose shape gives
    the picture size, so that without frames there is no file.  What the
    encoder does with a later frame of another shape is not modelled. *)
Definition video_of (frames : list Image) (fps quality : Z) : option File :=
  match frames with
  | [] => None
  | img :: _ =>
      Some (FVideo frames (block_align (img_shape img).1, block_align (img_shape img).2)
              fps quality)
  end.

(** the files after a call; [add_scalar] hands its record to the writer
    and touches no file itself *)
Definition effect_fs (ev : Event) (m : gmap string File) : gmap string File :=
  match ev with
  | EvTorchSave p c => <[p := FCkpt c]> m
  | EvImwrite p img => <[p := FImage img]> m
  | EvMimwrite p frames fps quality =>
      match video_of frames fps quality with
      | Some f => <[p := f]> m
      | None => m
      end
  | _ => m
  end.

(** the standard output after a call *)
Definition effect_stdout (ev : Event) (out : list string) : list string :=
  match ev with
  | EvPrint s => out ++ [s]
  | _ => out
  end.

(** the world after a call, which is recorded *)
Definition perform (w : World) (sev : Z * Event) : World :=
  {| fs := effect_fs sev.2 (fs w);
     stdout := effect_stdout sev.2 (stdout w);
     trace := trace w ++ [sev] |}.

(** Running loop code in a world: its calls are performed in order. *)
Definition run {A} (m : Act A) : M A :=
  fun w => (m.2, foldl perform w m.1).

(** *** Library calls of the code before the loop *)

(** a change of the file system *)
Definition set_fs (f : gmap string File -> gmap string File) : M unit :=
  fun w => (Ok tt, {| fs := f (fs w); stdout := stdout w; trace := trace w |}).

(** [print(s)] *)
Definition print (s : string) : M unit :=
  fun w => (Ok tt, {| fs := fs w; stdout := stdout w ++ [s]; trace := trace w |}).

(** [torch.load(p)] *)
Definition torch_load (p : string) : M Ckpt :=
  fun w => match fs w !! p with
           | None => (Raise (FileNotFoundError p), w)
           | Some (FCkpt c) => (Ok c, w)
           | Some _ => (Raise (UnpicklingError p), w)
           end.

(** [shutil.rmtree(dir, ignore_errors=True)]: everything below [dir] goes;
    nothing is raised. *)
Definition rmtree (dir : string) : M unit :=
  set_fs (fun m => filter (fun kv => Path.under dir kv.1 = false) m).

(** [tb.SummaryWriter(dir, flush_secs=1)]: a new event file in [dir]; the
    writer is identified with the path of its file. *)
Definition event_file (dir : string) : string :=
  Path.join dir ("events.out.tfevents." +:+ writer_suffix).
Definition SummaryWriter (dir : string) : M string :=
  set_fs (fun m => <[event_file dir := FEvents]> m) ;;
  ret (event_file dir).

(** *** The driver *)

(** The local variables of [train_model] that live across iterations. *)
Record Locals := {
  model : Model;
  optimizer : OptState;
  scheduler : SchedState;
  data : DataState;
  eval_data : option DataState;
  render_data : RenderLoader;
  logger : string;
  model_save_path : string;
  start_step : Z;
}.

(** [logger.add_scalar(t, float(v), global_step=step)] *)
Definition add_scalar (lg : string) (t : string) (v : Scalar) (step : Z) : Act unit :=
  call step (EvAddScalar lg {| tag := t; value := v; global_step := step |}).

(** [save_model(model, optimizer, step, model_save_path)], lines 114-116. *)
Definition save_model (m : Model) (o : OptState) (step : Z) (p : string) : Act unit :=
  let model_info :=
    {| ck_state_dict := model_state_dict m; ck_optimizer := o; ck_step := step |} in
  call step (EvTorchSave p model_info).

(** [eval_model(config, model, data)], lines 118-125, called in iteration
    [step]: the PSNR of every level on one held-out batch, the model back
    in training mode, and the advanced iterator. *)
Definition eval_model (step : Z) (m : Model) (d : DataState)
  : Act (list Scalar * Model * DataState) :=
  let m := model_eval m in
  call step (EvSetMode false) ;;
  let '((rays, pixels), d) := next_batch d in
  let comp_rgb := forward (params m) (training m) rays in
  call step (EvForward (training m) false) ;;
  let m := model_train m in
  call step (EvSetMode true) ;;
  ret (map (fun rgb => level_psnr rgb pixels) comp_rgb, m, d).

(** Lines 47-53: where the run starts from. *)
Definition restore (cfg : Config) (path : string) (m : Model) (o : OptState)
  : M (Model * OptState * Z) :=
  if continue_training cfg then
    model_info <- torch_load path ;;
    let m := model_load_state_dict m (ck_state_dict model_info) in
    let o := ck_optimizer model_info in
    print "Loaded model and optimizer from disk." ;;
    ret (m, o, ck_step model_info)
  else ret (m, o, 0).

(** Lines 17-61: everything before the loop. *)
Definition startup (cfg : Config) : M Locals :=
  let path := Path.join (log_dir cfg) "model.pt" in
  let d := get_dataloader cfg "train" in
  let ed := if do_eval cfg then Some (get_dataloader cfg "test") else None in
  let rd := get_dataloader_render (dataset_name cfg) (base_dir cfg) (factor cfg)
              (n_poses cfg) 200 200 in
  let m := {| params := MipNeRF cfg; training := true |} in
  let o := AdamW cfg (params m) in
  r <- restore cfg path m o ;;
  let '(m, o, start) := r in
  let '(s, o) := MipLRDecay cfg o in
  let m := model_train m in
  rmtree (Path.join (log_dir cfg) "train") ;;
  lg <- SummaryWriter (Path.join (log_dir cfg) "train") ;;
  ret {| model := m; optimizer := o; scheduler := s; data := d; eval_data := ed;
         render_data := rd; logger := lg; model_save_path := path; start_step := start |}.

(** Lines 64-81: one optimisation step and its five scalars. *)
Definition stepping (cfg : Config) (step : Z) (l : Locals) : Act Locals :=
  let m := model_train (model l) in
  call step (EvSetMode true) ;;
  let '((rays, pixels), d) := next_batch (data l) in
  let comp_rgb := forward (params m) (training m) rays in
  call step (EvForward (training m) true) ;;
  let '(loss_val, psnr) := NeRFLoss cfg comp_rgb pixels rays in
  let '(p, o) := backward_step (params m) (training m) rays pixels (optimizer l) in
  let '(s, o) := scheduler_step (scheduler l) o in
  call step EvUpdate ;;
  add_scalar (logger l) "train/loss" loss_val step ;;
  add_scalar (logger l) "train/coarse_psnr" (np_mean (py_init psnr)) step ;;
  fine <- lift (py_last psnr) ;;
  add_scalar (logger l) "train/fine_psnr" fine step ;;
  add_scalar (logger l) "train/avg_psnr" (np_mean psnr) step ;;
  lr <- lift (py_last (get_last_lr s)) ;;
  add_scalar (logger l) "train/lr" lr step ;;
  ret {| model := {| params := p; training := training m |}; optimizer := o;
         scheduler := s; data := d; eval_data := eval_data l;
         render_data := render_data l; logger := logger l;
         model_save_path := model_save_path l; start_step := start_step l |}.

(** Lines 83-93: the saving branch, with the evaluation it may carry. *)
Definition saving (cfg : Config) (step : Z) (l : Locals) : Act Locals :=
  save_model (model l) (optimizer l) step
    (Path.join (log_dir cfg) (stamped_name step)) ;;
  save_model (model l) (optimizer l) step (model_save_path l) ;;
  match eval_data l with
  | Some ed =>
      r <- eval_model step (model l) ed ;;
      let '(psnr, m, ed) := r in
      add_scalar (logger l) "eval/coarse_psnr" (np_mean (py_init psnr)) step ;;
      fine <- lift (py_last psnr) ;;
      add_scalar (logger l) "eval/fine_psnr" fine step ;;
      add_scalar (logger l) "eval/avg_psnr" (np_mean psnr) step ;;
      ret {| model := m; optimizer := optimizer l; scheduler := scheduler l;
             data := data l; eval_data := Some ed; render_data := render_data l;
             logger := logger l; model_save_path := model_save_path l;
             start_step := start_step l |}
  | None => ret l
  end.

(** Lines 100-102: one [render_image] call per render batch, in order. *)
Fixpoint render_frames (step : Z) (m : Model) (rd : RenderLoader) (chk : Z)
    (batches : list Rays) : Act (list Image) :=
  match batches with
  | [] => ret []
  | rays :: rest =>
      call step (EvRenderImage (training m) (rl_h rd) (rl_w rd) chk) ;;
      let img := render_image (params m) (training m) rays (rl_h rd) (rl_w rd) chk in
      imgs <- render_frames step m rd chk rest ;;
      ret (img :: imgs)
  end.

(** Lines 104-107: the frames as numbered image files. *)
Fixpoint write_images (cfg : Config) (step img_cnt : Z) (frames : list Image) : Act unit :=
  match frames with
  | [] => ret tt
  | img :: rest =>
      call step (EvImwrite (Path.join (log_dir cfg) (image_name step img_cnt)) img) ;;
      write_images cfg step (img_cnt + 1) rest
  end.

(** Lines 96-108: the rendering branch. *)
Definition rendering (cfg : Config) (step : Z) (l : Locals) : Act Locals :=
  let m := model_eval (model l) in
  call step (EvSetMode false) ;;
  call step (EvPrint ("Generating Video using "
                        +:+ pretty (length (rl_batches (render_data l)))
                        +:+ " different view points")) ;;
  rgb_frames <- render_frames step m (render_data l) (chunks cfg)
                  (rl_batches (render_data l)) ;;
  write_images cfg step 0 rgb_frames ;;
  call step (EvMimwrite (Path.join (log_dir cfg) (video_name step)) rgb_frames 30 10) ;;
  ret {| model := m; optimizer := optimizer l; scheduler := scheduler l;
         data := data l; eval_data := eval_data l; render_data := render_data l;
         logger := logger l; model_save_path := model_save_path l;
         start_step := start_step l |}.

(** Lines 64-108: the body of the loop. *)
Definition iteration (cfg : Config) (step : Z) (l : Locals) : Act Locals :=
  l <- stepping cfg step l ;;
  r <- lift (py_mod step (save_every cfg)) ;;
  l <- (if r =? 0 then saving cfg step l else ret l) ;;
  r <- lift (py_mod step (render_every cfg)) ;;
  if r =? 0 then rendering cfg step l else ret l.

(** [for step in steps: body] *)
Fixpoint for_each (steps : list Z) (body : Z -> Locals -> Act Locals) (l : Locals)
  : Act Locals :=
  match steps with
  | [] => ret l
  | step :: rest => l <- body step l ;; for_each rest body l
  end.

(** Line 63: the loop. *)
Definition training_loop (cfg : Config) (l : Locals) : Act Locals :=
  for_each (py_range (start_step l) (max_steps cfg)) (iteration cfg) l.

(** [train_model(config)]; the local variables at the end are returned so
    that they can be spoken about. *)
Definition train_model (cfg : Config) : M Locals :=
  l <- startup cfg ;;
  run (training_loop cfg l).

End Driver.

(** ** Vocabulary for statements about the driver *)

Section Vocabulary.

Context {FD : FrameworkData} {FW : Framework}.

(** *** Results, paths and messages *)

Definition is_ok {A} (r : Result A) : bool :=
  match r with Ok _ => true | Raise _ => false end.

(** [<log_dir>/model.pt], the canonical latest checkpoint *)
Definition latest_path (cfg : Config) : string := Path.join (log_dir cfg) "model.pt".
(** [<log_dir>/model_<s>.pt], the checkpoint stamped with step [s] *)
Definition stamped_path (cfg : Config) (s : Z) : string :=
  Path.join (log_dir cfg) (stamped_name s).
(** [<log_dir>/train], the directory of the scalar log *)
Definition train_dir (cfg : Config) : string := Path.join (log_dir cfg) "train".
(** what line 53 prints *)
Definition loaded_message : string := "Loaded model and optimizer from disk.".

(** [p] is one of the checkpoint paths of the run. *)
Definition checkpoint_path (cfg : Config) (p : string) : Prop :=
  p = latest_path cfg \/ exists s, p = stamped_path cfg s.

(** Lines 47-53 get through in world [w]: resuming is not asked for, or
    [<log_dir>/model.pt] holds a checkpoint. *)
Definition can_start (cfg : Config) (w : World) : bool :=
  negb (continue_training cfg)
  || match fs w !! latest_path cfg with
     | Some (FCkpt _) => true
     | _ => false
     end.

(** *** The calls of one iteration, written out

    What [stepping], [saving] and [rendering] emit, as plain lists of
    calls; [iteration_shape] below relates the driver to these lists. *)

(** calls [evs], all made in iteration [s] *)
Definition at_step (s : Z) (evs : list Event) : list (Z * Event) := map (pair s) evs.

Definition scalar_call (lg t : string) (v : Scalar) (s : Z) : Event :=
  EvAddScalar lg {| tag := t; value := v; global_step := s |}.

(** The five [add_scalar] calls of lines 77-81, for a loss, per-level PSNRs
    [coarse ++ [fine]] and a learning rate. *)
Definition train_scalars (lg : string) (s : Z) (loss : Scalar) (coarse : list Scalar)
    (fine lr : Scalar) : list Event :=
  [scalar_call lg "train/loss" loss s;
   scalar_call lg "train/coarse_psnr" (np_mean coarse) s;
   scalar_call lg "train/fine_psnr" fine s;
   scalar_call lg "train/avg_psnr" (np_mean (coarse ++ [fine])) s;
   scalar_call lg "train/lr" lr s].

(** The three [add_scalar] calls of lines 91-93. *)
Definition eval_scalars (lg : string) (s : Z) (coarse : list Scalar) (fine : Scalar)
  : list Event :=
  [scalar_call lg "eval/coarse_psnr" (np_mean coarse) s;
   scalar_call lg "eval/fine_psnr" fine s;
   scalar_call lg "eval/avg_psnr" (np_mean (coarse ++ [fine])) s].

(** The calls of [stepping]; an [IndexError] cuts the scalars short after
    the first [n]. *)
Definition step_calls (lg : string) (s : Z) (loss : Scalar) (coarse : list Scalar)
    (fine lr : Scalar) (n : nat) : list Event :=
  [EvSetMode true; EvForward true true; EvUpdate]
  ++ take n (train_scalars lg s loss coarse fine lr).

(** The two [torch.save] calls of lines 84-85. *)
Definition save_calls (cfg : Config) (latest : string) (s : Z) (ck : Ckpt) : list Event :=
  [EvTorchSave (Path.join (log_dir cfg) (stamped_name s)) ck; EvTorchSave latest ck].

(** The calls of the evaluation of lines 86-93. *)
Definition eval_calls (lg : string) (s : Z) (coarse : list Scalar) (fine : Scalar) (n : nat)
  : list Event :=
  [EvSetMode false; EvForward false false; EvSetMode true]
  ++ take n (eval_scalars lg s coarse fine).

(** The [imwrite] calls of lines 104-107. *)
Fixpoint image_calls (cfg : Config) (s cnt : Z) (frames : list Image) : list Event :=
  match frames with
  | [] => []
  | img :: rest =>
      EvImwrite (Path.join (log_dir cfg) (image_name s cnt)) img
      :: image_calls cfg s (cnt + 1) rest
  end.

(** The frames rendered by model [m] over the render loader. *)
Definition frames_of (m : Model) (rd : RenderLoader) (chk : Z) : list Image :=
  map (fun rays => render_image (params m) (training m) rays (rl_h rd) (rl_w rd) chk)
      (rl_batches rd).

(** The calls of [rendering]. *)
Definition render_calls (cfg : Config) (s : Z) (m : Model) (rd : RenderLoader) : list Event :=
  [EvSetMode false;
   EvPrint ("Generating Video using " +:+ pretty (length (rl_batches rd))
              +:+ " different view points")]
  ++ map (fun _ => EvRenderImage (training m) (rl_h rd) (rl_w rd) (chunks cfg)) (rl_batches rd)
  ++ image_calls cfg s 0 (frames_of m rd (chunks cfg))
  ++ [EvMimwrite (Path.join (log_dir cfg) (video_name s)) (frames_of m rd (chunks cfg)) 30 10].

(** *** Iterations of one run *)

(** What an iteration leaves alone in the local variables. *)
Definition same_env (l l' : Locals) : Prop :=
  logger l' = logger l /\ model_save_path l' = model_save_path l /\
  start_step l' = start_step l /\ render_data l' = render_data l /\
  (eval_data l' = None <-> eval_data l = None).

(** [c] are the calls of iteration [s] of a loop started with [l0]; the
    iteration completed if the loop did ([ok]). *)
Definition iteration_of (cfg : Config) (l0 : Locals) (ok : bool) (s : Z)
    (c : list (Z * Event)) : Prop :=
  exists l r, same_env l0 l /\ iteration cfg s l = (c, r) /\ (ok = true -> is_ok r = true).

(** *** Kinds of calls *)

(** a call of the saving branch alone *)
Definition in_saving (ev : Event) : bool :=
  match ev with EvTorchSave _ _ => true | _ => false end.

(** a call of the rendering branch alone *)
Definition in_rendering (ev : Event) : bool :=
  match ev with
  | EvPrint _ | EvRenderImage _ _ _ _ | EvImwrite _ _ | EvMimwrite _ _ _ _ => true
  | _ => false
  end.

(** The saving branch ran in iteration [s]: a [torch.save] was made there. *)
Definition saving_ran (s : Z) (tr : list (Z * Event)) : Prop :=
  exists ev, In (s, ev) tr /\ in_saving ev = true.

(** The rendering branch ran in iteration [s]. *)
Definition rendering_ran (s : Z) (tr : list (Z * Event)) : Prop :=
  exists ev, In (s, ev) tr /\ in_rendering ev = true.

(** A forward pass with gradients runs in training mode, one without and
    every [render_image] in inference mode. *)
Definition mode_ok (ev : Event) : Prop :=
  match ev with
  | EvForward tr grad => tr = grad
  | EvRenderImage tr _ _ _ => tr = false
  | _ => True
  end.

(** *** Files *)

(** The path that a call writes to, if it writes; for [add_scalar], the
    file of the writer that takes the record. *)
Definition target (ev : Event) : option string :=
  match ev with
  | EvAddScalar p _ | EvTorchSave p _ | EvImwrite p _ | EvMimwrite p _ _ _ => Some p
  | _ => None
  end.

(** The file at one path, after one call. *)
Definition effect_at (p : string) (ev : Event) (f : option File) : option File :=
  match ev with
  | EvTorchSave q c => if bool_decide (q = p) then Some (FCkpt c) else f
  | EvImwrite q img => if bool_decide (q = p) then Some (FImage img) else f
  | EvMimwrite q frames fps quality =>
      if bool_decide (q = p)
      then match video_of frames fps quality with Some v => Some v | None => f end
      else f
  | _ => f
  end.

(** The scalar log takes the records; every other write stays out of
    [<log_dir>/train]. *)
Definition writes_safely (cfg : Config) (ev : Event) : Prop :=
  match ev with
  | EvAddScalar p _ => p = event_file (train_dir cfg)
  | EvTorchSave p _ | EvImwrite p _ | EvMimwrite p _ _ _ =>
      Path.under (train_dir cfg) p = false
  | _ => True
  end.

(** Only [torch.save] writes to checkpoint paths. *)
Definition off_checkpoints (cfg : Config) (ev : Event) : Prop :=
  in_saving ev = false -> forall p, target ev = Some p -> ~ checkpoint_path cfg p.

(** *** The scalar log *)

(** the record of an [add_scalar] call *)
Definition scalar_of (ev : Event) : option ScalarEvent :=
  match ev with EvAddScalar _ e => Some e | _ => None end.

(** the records of the [add_scalar] calls among [c], in order *)
Definition scalars_of (c : list (Z * Event)) : list ScalarEvent :=
  omap (fun sev => scalar_of sev.2) c.

(** The five records of lines 77-81, for a loss, the per-level PSNRs
    [coarse ++ [fine]] and a learning rate. *)
Definition train_records (s : Z) (loss : Scalar) (coarse : list Scalar) (fine lr : Scalar)
  : list ScalarEvent :=
  [{| tag := "train/loss"; value := loss; global_step := s |};
   {| tag := "train/coarse_psnr"; value := np_mean coarse; global_step := s |};
   {| tag := "train/fine_psnr"; value := fine; global_step := s |};
   {| tag := "train/avg_psnr"; value := np_mean (coarse ++ [fine]); global_step := s |};
   {| tag := "train/lr"; value := lr; global_step := s |}].

(** The three records of lines 91-93. *)
Definition eval_records (s : Z) (coarse : list Scalar) (fine : Scalar) : list ScalarEvent :=
  [{| tag := "eval/coarse_psnr"; value := np_mean coarse; global_step := s |};
   {| tag := "eval/fine_psnr"; value := fine; global_step := s |};
   {| tag := "eval/avg_psnr"; value := np_mean (coarse ++ [fine]); global_step := s |}].

(** The records logged for step [s]. *)
Definition events_at (s : Z) (evs : list ScalarEvent) : list ScalarEvent :=
  filter (fun e => global_step e = s) evs.

(** *** Preview size *)

Definition is_200x200 (img : Image) : Prop := img_shape img = (200, 200).

(** [render_image] is asked for 200 by 200 and what is written is 200 by 200. *)
Definition preview_ok (ev : Event) : Prop :=
  match ev with
  | EvRenderImage _ h w _ => h = 200 /\ w = 200
  | EvImwrite _ img => is_200x200 img
  | EvMimwrite _ frames _ _ => Forall is_200x200 frames
  | _ => True
  end.

(** Modelled from the spec: [get_dataloader] is in module [datasets],
    absent from the sources; the spec gives its render variant as taking
    [n_poses/h/w] and returning "an iterable of batches, with .h/.w/len()",
    read here as: the loader exposes as [.h] and [.w] the [h] and [w] it
    was constructed with.  The driver is not modelled with this built in:
    it is a hypothesis where a statement needs it. *)
Definition loader_keeps_size : Prop :=
  forall name base fac poses h w,
    rl_h (get_dataloader_render name base fac poses h w) = h /\
    rl_w (get_dataloader_render name base fac poses h w) = w.

(** Modelled from the spec: [Model.render_image(rays, h, w, chunks)] is
    in module [model], absent from the sources; the spec has it return the
    "full image", read here as: an image of the [h] rows and [w] columns
    it is asked for.  A hypothesis too, where a statement needs it. *)
Definition renders_full_image : Prop :=
  forall p tr rays h w chk, img_shape (render_image p tr rays h w chk) = (h, w).

(** *** Further vocabulary: paths, training state, output *)

(** no separator in a string *)
Fixpoint no_sep (s : string) : Prop :=
  match s with
  | EmptyString => True
  | String c rest => c <> "/"%char /\ no_sep rest
  end.

(** Every path the loop writes to starts with the directory prefix of
    [log_dir]. *)
Definition inside_log_dir (cfg : Config) (ev : Event) : Prop :=
  forall q, target ev = Some q -> String.prefix (Path.dir_prefix (log_dir cfg)) q = true.

(** *** What training advances *)

(** The state that the optimisation advances: the parameters, the
    optimizer, the schedule and the iterator over the training batches. *)
Definition train_state (l : Locals) : Params * OptState * SchedState * DataState :=
  (params (model l), optimizer l, scheduler l, data l).

(** Lines 65-74 on that state: one batch is drawn, the parameters and the
    optimizer are updated on it in training mode, the schedule steps. *)
Definition optimisation_step (st : Params * OptState * SchedState * DataState)
  : Params * OptState * SchedState * DataState :=
  let '(p, o, s, d) := st in
  let '((rays, pixels), d) := next_batch d in
  let '(p, o) := backward_step p true rays pixels o in
  let '(s, o) := scheduler_step s o in
  (p, o, s, d).

(** [next(data)], for the iterator alone *)
Definition advance (d : DataState) : DataState := (next_batch d).2.

(** the steps of [steps] on which the saving branch is due *)
Definition saving_steps (cfg : Config) (steps : list Z) : list Z :=
  filter (fun s => s mod save_every cfg = 0) steps.

(** Lines 65-70 on a training state: what the loss returns for the batch
    that the next step draws, the loss value and the per-level PSNRs. *)
Definition loss_of (cfg : Config) (st : Params * OptState * SchedState * DataState)
  : Scalar * list Scalar :=
  let '(p, _, _, d) := st in
  let '((rays, pixels), _) := next_batch d in
  NeRFLoss cfg (forward p true rays) pixels rays.

(** The calls of a step whose PSNR array is empty: the update is made and
    two scalars are logged before [psnr[-1]] fails. *)
Definition short_step_calls (cfg : Config) (s : Z) (l : Locals) : list Event :=
  [EvSetMode true; EvForward true true; EvUpdate;
   scalar_call (logger l) "train/loss" (loss_of cfg (train_state l)).1 s;
   scalar_call (logger l) "train/coarse_psnr" (np_mean []) s].

(** The calls of the first iteration are all there is, and none of them
    belongs to a branch whose cadence is zero. *)
Definition stopped_early (cfg : Config) (s : Z) (sev : Z * Event) : Prop :=
  sev.1 = s /\ in_rendering sev.2 = false /\ (save_every cfg = 0 -> in_saving sev.2 = false).

(** [<log_dir>/step_<s>/image_<i>.png] and [<log_dir>/step_<s>/video.mp4] *)
Definition image_path (cfg : Config) (s i : Z) : string :=
  Path.join (log_dir cfg) (image_name s i).
Definition video_path (cfg : Config) (s : Z) : string :=
  Path.join (log_dir cfg) (video_name s).

(** Where a call of iteration [s] may write: the event file, a checkpoint
    path, an image file of step [s] or the video of step [s]. *)
Definition writes_for_step (cfg : Config) (s : Z) (ev : Event) : Prop :=
  forall q, target ev = Some q ->
    q = event_file (train_dir cfg) \/ checkpoint_path cfg q \/
    (exists i, q = image_path cfg s i) \/ q = video_path cfg s.

(** what [print] calls put on the standard output *)
Definition printed (c : list (Z * Event)) : list string :=
  omap (fun sev : Z * Event => match sev.2 with EvPrint s => Some s | _ => None end) c.

(** what line 98 prints *)
Definition render_message (l : Locals) : string :=
  "Generating Video using " +:+ pretty (length (rl_batches (render_data l)))
    +:+ " different view points".

(** the steps of [steps] on which the rendering branch is due *)
Definition rendering_steps (cfg : Config) (steps : list Z) : list Z :=
  filter (fun s => s mod render_every cfg = 0) steps.

(** Lines 119-125 for parameters [p] and a held-out iterator [d]: the
    PSNR of every level on the batch that [d] gives next, from a forward
    pass in inference mode. *)
Definition eval_psnr (p : Params) (d : DataState) : list Scalar :=
  let '((rays, pixels), _) := next_batch d in
  map (fun rgb => level_psnr rgb pixels) (forward p false rays).

(** the schedule of a training state *)
Definition schedule_of (st : Params * OptState * SchedState * DataState) : SchedState :=
  st.1.2.

(** The training state in which step [s] starts, in a loop that started
    at step [start] in state [st0]: one optimisation step per loop step
    so far. *)
Definition state_at (st0 : Params * OptState * SchedState * DataState) (start s : Z)
  : Params * OptState * SchedState * DataState :=
  Nat.iter (Z.to_nat (s - start)) optimisation_step st0.

(** The values passed to [add_scalar] under tag [t] for step [s] by the
    calls [c], in the order of the calls. *)
Definition logged (t : string) (s : Z) (c : list (Z * Event)) : list Scalar :=
  map value (filter (fun e => tag e = t) (events_at s (scalars_of c))).

End Vocabulary.

(** ** A small concrete framework

    Integers for the states, rationals for the scalars, three output
    levels, a render loader that keeps the size it is given and images
    that are their shape and a number; used to run the driver on concrete
    configurations. *)

Module Toy.

#[export] Instance toy_data : FrameworkData := {|
  Params := Z; OptState := Z; SchedState := Z; DataState := Z;
  Rays := Z; Pixels := Z; Level := Q; Image := Z * Z * Z; Scalar := Q; Hyper := unit;
|}.

(** the arithmetic mean *)
Definition mean (xs : list Q) : Q :=
  (fold_right Qplus 0%Q xs / inject_Z (Z.of_nat (length xs)))%Q.

#[export] Instance toy_framework : Framework := {|
  get_dataloader := fun _ _ => 0;
  next_batch := fun d => ((d, d), d + 1);
  get_dataloader_render := fun _ _ _ poses h w =>
    {| rl_h := h; rl_w := w; rl_batches := seqZ 0 poses |};
  MipNeRF := fun _ => 0;
  AdamW := fun _ _ => 0;
  MipLRDecay := fun _ o => (0, o);
  forward := fun p _ _ => [inject_Z p; inject_Z (p + 1); inject_Z (p + 5)];
  NeRFLoss := fun _ levels _ _ => (hd 0%Q levels, levels);
  backward_step := fun p _ _ _ o => (p + 1, o + 1);
  scheduler_step := fun s o => (s + 1, o);
  get_last_lr := fun s => [inject_Z s];
  np_mean := mean;
  level_psnr := fun lv _ => lv;
  render_image := fun p _ rays h w _ => (h, w, 10 * p + rays);
  img_shape := fun img => img.1;
  writer_suffix := "0";
|}.

(** [max_steps], the two cadences, and whether to evaluate and to resume. *)
Definition config (steps save render : Z) (eval resume : bool) : Config := {|
  log_dir := "log"; dataset_name := "blender"; base_dir := "data"; factor := 2;
  batch_size := 1; n_poses := 1; do_eval := eval; continue_training := resume;
  max_steps := steps; save_every := save; render_every := render; chunks := 8192;
  hyper := tt;
|}.

(** nothing on disk, nothing printed, nothing called yet *)
Definition world0 : World := {| fs := ∅; stdout := []; trace := [] |}.


(** four steps, saving every second and rendering every third *)
Definition cfg_plain : Config := config 4 2 3 false false.
(** two steps with evaluation, saving every step *)
Definition cfg_eval : Config := config 2 1 2 true false.
(** one step that saves and renders *)
Definition cfg_one : Config := config 1 1 1 false false.
(** resuming, up to step 3 *)
Definition cfg_resume : Config := config 3 1 2 false true.

(** a checkpoint of step 1 to resume from, alone or next to an event file
    left by an earlier run *)
Definition old_checkpoint : Ckpt := {| ck_state_dict := 7; ck_optimizer := 7; ck_step := 1 |}.
Definition world_with_checkpoint : World := {|
  fs := {[ "log/model.pt" := FCkpt old_checkpoint ]};
  stdout := [];
  trace := [];
|}.
Definition world_with_history : World := {|
  fs := {[ "log/model.pt" := FCkpt old_checkpoint;
           "log/train/events.out.tfevents.old" := FEvents ]};
  stdout := [];
  trace := [];
|}.
(** a model and an optimizer state to save *)
Definition trained_model : @Model toy_data := @Build_Model toy_data 5 true.
Definition trained_optimizer : @OptState toy_data := 6.

(** the same framework with a model that has no output level: the loss
    returns an empty array of PSNRs *)
Definition toy_no_levels : Framework := {|
  get_dataloader := fun _ _ => 0;
  next_batch := fun d => ((d, d), d + 1);
  get_dataloader_render := fun _ _ _ poses h w =>
    {| rl_h := h; rl_w := w; rl_batches := seqZ 0 poses |};
  MipNeRF := fun _ => 0;
  AdamW := fun _ _ => 0;
  MipLRDecay := fun _ o => (0, o);
  forward := fun _ _ _ => [];
  NeRFLoss := fun _ levels _ _ => (hd 0%Q levels, levels);
  backward_step := fun p _ _ _ o => (p + 1, o + 1);
  scheduler_step := fun s o => (s + 1, o);
  get_last_lr := fun s => [inject_Z s];
  np_mean := mean;
  level_psnr := fun lv _ => lv;
  render_image := fun p _ rays h w _ => (h, w, 10 * p + rays);
  img_shape := fun img => img.1;
  writer_suffix := "0";
|}.

(** three steps with a saving cadence of zero *)
Definition cfg_zero : Config := config 3 0 2 false false.
(** resuming although the checkpoint is already at [max_steps] *)
Definition cfg_finished : Config := config 1 1 1 false true.
(** three steps with two render poses, rendering every second step *)
Definition cfg_two_poses : Config := {|
  log_dir := "log"; dataset_name := "blender"; base_dir := "data"; factor := 2;
  batch_size := 1; n_poses := 2; do_eval := false; continue_training := false;
  max_steps := 3; save_every := 2; render_every := 2; chunks := 8192;
  hyper := tt;
|}.
(** a checkpoint of another experiment, in a directory whose name starts
    like [log] *)
Definition world_with_neighbour : World := {|
  fs := {[ "logs_old/model.pt" := FCkpt old_checkpoint ]};
  stdout := [];
  trace := [];
|}.
(** an event file left by an earlier run, and no checkpoint *)
Definition world_with_old_log : World := {|
  fs := {[ "log/train/events.out.tfevents.old" := FEvents ]};
  stdout := [];
  trace := [];
|}.

End Toy.

(** * Facts *)

(** ** Paths *)

Module PathFacts.
Import Path.

Lemma append_cons c a b : String c a +:+ b = String c (a +:+ b).
Proof. reflexivity. Qed.

Lemma append_empty b : "" +:+ b = b.
Proof. reflexivity. Qed.

Lemma append_assoc a b c : (a +:+ b) +:+ c = a +:+ b +:+ c.
Proof. induction a as [|x a IH]; [done|]. by rewrite !append_cons, IH. Qed.

Lemma join_relative a b : startswith_sep b = false -> join a b = dir_prefix a +:+ b.
Proof.
  intros Hb. unfold join, dir_prefix. rewrite Hb.
  destruct (bool_decide (a = "") || endswith_sep a); [done|].
  by rewrite append_assoc.
Qed.

Lemma append_not_empty a b : b <> "" -> a +:+ b <> "".
Proof. destruct a; [done|]. by rewrite append_cons. Qed.

Lemma endswith_sep_app a b : b <> "" -> endswith_sep (a +:+ b) = endswith_sep b.
Proof.
  intros Hb. induction a as [|c a IH]; [done|].
  rewrite append_cons. cbn [endswith_sep]. rewrite IH.
  destruct (a +:+ b) eqn:E; [|done].
  by apply append_not_empty in E.
Qed.

Lemma prefix_app a b c : String.prefix (a +:+ b) (a +:+ c) = String.prefix b c.
Proof.
  induction a as [|x a IH]; [done|]. rewrite !append_cons. cbn [String.prefix].
  destruct (ascii_dec x x); [apply IH|done].
Qed.

(** The event file of the writer on [<log_dir>/train], below [log_dir]. *)
Lemma join_train_file d name :
  startswith_sep name = false ->
  join (join d "train") name = dir_prefix d +:+ "train/" +:+ name.
Proof.
  intros Hn. rewrite (join_relative d "train") by done.
  unfold join. rewrite Hn.
  rewrite endswith_sep_app by done.
  rewrite bool_decide_eq_false_2 by (by apply append_not_empty). cbn [orb endswith_sep].
  rewrite (bool_decide_eq_false_2 ("n"%char = "/"%char)) by done.
  by rewrite !append_assoc.
Qed.

Lemma under_train d name :
  startswith_sep name = false ->
  under (join d "train") (join d name) = String.prefix "train/" name.
Proof.
  intros Hn. unfold under. rewrite !join_relative by done.
  rewrite append_assoc. apply prefix_app.
Qed.

Lemma join_inj d a b :
  startswith_sep a = false -> startswith_sep b = false -> join d a = join d b -> a = b.
Proof.
  intros Ha Hb. rewrite !join_relative by done. apply String.app_inj.
Qed.

End PathFacts.

(** ** The driver *)

Section DriverFacts.

Import PathFacts.

Context {FD : FrameworkData} {FW : Framework}.

(** *** The calls of each branch *)

Lemma py_last_Ok {A} (xs : list A) x : py_last xs = Ok x -> xs = py_init xs ++ [x].
Proof.
  unfold py_last, py_init. destruct (last xs) as [y|] eqn:E; [|done].
  intros [= ->]. apply last_Some in E as [l' ->].
  by rewrite removelast_last.
Qed.

Lemma stepping_shape cfg s l c r :
  stepping cfg s l = (c, r) ->
  exists loss coarse fine lr n,
    c = at_step s ([EvSetMode true; EvForward true true; EvUpdate]
                   ++ take n (train_scalars (logger l) s loss coarse fine lr)) /\
    match r with
    | Ok l' => n = 5%nat /\ training (model l') = true /\ same_env l l'
    | Raise e => e = IndexError /\ (n = 2%nat \/ n = 4%nat)
    end.
Proof.
  unfold stepping.
  destruct (next_batch (data l)) as [[rays pixels] d].
  destruct (NeRFLoss _ _ _ _) as [loss psnr].
  destruct (backward_step _ _ _ _ _) as [p o].
  destruct (scheduler_step _ _) as [sch o'].
  destruct (py_last psnr) as [fine|e] eqn:Hp.
  - apply py_last_Ok in Hp.
    destruct (py_last (get_last_lr sch)) as [lr|e] eqn:Hl.
    + cbn. intros [= <- <-].
      exists loss, (py_init psnr), fine, lr, 5%nat. cbn. rewrite <- Hp.
      clear. by repeat split.
    + cbn. intros [= <- <-].
      exists loss, (py_init psnr), fine, loss, 4%nat. cbn. rewrite <- Hp.
      unfold py_last in Hl. case_match; simplify_eq. auto.
  - cbn. intros [= <- <-].
    unfold py_last in Hp. case_match; simplify_eq.
    apply last_None in H as ->.
    exists loss, [], loss, loss, 2%nat. cbn. auto.
Qed.

Lemma at_step_app s a b : at_step s (a ++ b) = at_step s a ++ at_step s b.
Proof. apply map_app. Qed.

Lemma saving_shape cfg s l c r :
  saving cfg s l = (c, r) ->
  let ck := {| ck_state_dict := params (model l); ck_optimizer := optimizer l;
               ck_step := s |} in
  exists coarse fine n,
    c = at_step s (save_calls cfg (model_save_path l) s ck
                   ++ match eval_data l with
                      | Some _ => eval_calls (logger l) s coarse fine n
                      | None => []
                      end) /\
    match r with
    | Ok l' => n = 3%nat /\ same_env l l' /\
               training (model l') = match eval_data l with
                                     | Some _ => true
                                     | None => training (model l)
                                     end
    | Raise e => e = IndexError /\ n = 1%nat /\ eval_data l <> None
    end.
Proof.
  unfold saving, save_model, eval_model. destruct (eval_data l) as [ed|] eqn:Hed.
  - destruct (next_batch ed) as [[rays pixels] d]. cbn.
    set (psnr := map _ _). clearbody psnr.
    destruct (py_last psnr) as [fine|e] eqn:Hp.
    + cbn. intros [= <- <-]. apply py_last_Ok in Hp.
      exists (py_init psnr), fine, 3%nat. cbn. rewrite <- Hp. clear Hp.
      unfold same_env. cbn. rewrite Hed. repeat split; done.
    + unfold py_last in Hp. case_match; simplify_eq. apply last_None in H as ->.
      cbn. intros [= <- <-]. exists [], (np_mean []), 1%nat. cbn. by repeat split.
  - cbn. intros [= <- <-]. exists [], (np_mean []), 3%nat. cbn.
    unfold same_env. by rewrite Hed.
Qed.

Lemma render_frames_shape s m rd chk bs :
  render_frames s m rd chk bs =
    (at_step s (map (fun _ => EvRenderImage (training m) (rl_h rd) (rl_w rd) chk) bs),
     Ok (map (fun rays => render_image (params m) (training m) rays (rl_h rd) (rl_w rd) chk)
           bs)).
Proof.
  induction bs as [|b bs IH]; [done|].
  cbn [render_frames]. rewrite IH. cbn. by rewrite app_nil_r.
Qed.

Lemma write_images_shape cfg s cnt frames :
  write_images cfg s cnt frames = (at_step s (image_calls cfg s cnt frames), Ok tt).
Proof.
  revert cnt. induction frames as [|img frames IH]; intros cnt; [done|].
  cbn [write_images]. rewrite IH. reflexivity.
Qed.

Lemma rendering_shape cfg s l :
  rendering cfg s l =
    (at_step s (render_calls cfg s (model_eval (model l)) (render_data l)),
     Ok {| model := model_eval (model l); optimizer := optimizer l;
           scheduler := scheduler l; data := data l; eval_data := eval_data l;
           render_data := render_data l; logger := logger l;
           model_save_path := model_save_path l; start_step := start_step l |}).
Proof.
  unfold rendering. rewrite render_frames_shape. cbn.
  rewrite write_images_shape. cbn. unfold render_calls, frames_of, at_step.
  by rewrite !map_app.
Qed.

Lemma same_env_refl l : same_env l l.
Proof. by unfold same_env. Qed.

Lemma same_env_trans l1 l2 l3 : same_env l1 l2 -> same_env l2 l3 -> same_env l1 l3.
Proof. unfold same_env. intros (-> & -> & -> & -> & <-) (-> & -> & -> & -> & <-). done. Qed.

(** *** The calls of one iteration *)

Lemma bind_eq {A B} (m : Act A) (k : A -> Act B) :
  bind m k = match m.2 with
             | Ok a => (m.1 ++ (k a).1, (k a).2)
             | Raise e => (m.1, Raise e)
             end.
Proof. reflexivity. Qed.

Lemma bind_lift {A B} (r : Result A) (k : A -> Act B) :
  bind (lift r) k = match r with
                    | Ok a => k a
                    | Raise e => ([], Raise e)
                    end.
Proof. destruct r as [a|e]; [|done]. cbn. by destruct (k a). Qed.

Local Ltac pair_inv :=
  let E := fresh "E" in
  intros E; pose proof (f_equal fst E) as ?Hc; pose proof (f_equal snd E) as ?Hr;
  cbn [fst snd] in *; clear E; subst.

Local Ltac sv_transfer H :=
  let ck := fresh "ck" in let ec := fresh "ec" in let E := fresh "E" in
  intros ck ec E; destruct (H ck ec E) as [? Hev]; split; [done|];
  destruct (eval_data _); [|done];
  destruct Hev as (a & b & k & -> & Hk); exists a, b, k; split; [done|];
  first [done | intros _; by apply Hk].

(** The calls of an iteration are those of [stepping], then those of
    [saving] if it ran ([sv]), then those of [rendering] if it ran ([rn]);
    an iteration that completes took each branch exactly when its cadence
    says so. *)
Lemma iteration_shape cfg s l c r :
  iteration cfg s l = (c, r) ->
  exists loss coarse fine lr n (sv : option (Ckpt * list Event)) (rn : option Model),
    c = at_step s
          (step_calls (logger l) s loss coarse fine lr n
           ++ match sv with
              | Some (ck, ec) => save_calls cfg (model_save_path l) s ck ++ ec
              | None => []
              end
           ++ match rn with
              | Some m => render_calls cfg s m (render_data l)
              | None => []
              end) /\
    (forall ck ec, sv = Some (ck, ec) ->
       ck_step ck = s /\
       match eval_data l with
       | Some _ => exists ecoarse efine k,
           ec = eval_calls (logger l) s ecoarse efine k /\ (is_ok r = true -> k = 3%nat)
       | None => ec = []
       end) /\
    (forall m, rn = Some m -> training m = false) /\
    match r with
    | Ok l' =>
        n = 5%nat /\ save_every cfg <> 0 /\ render_every cfg <> 0 /\
        (is_Some sv <-> s mod save_every cfg = 0) /\
        (is_Some rn <-> s mod render_every cfg = 0) /\
        same_env l l' /\
        training (model l') = match rn with Some _ => false | None => true end
    | Raise e => e = IndexError \/ e = ZeroDivisionError
    end.
Proof.
  unfold iteration. rewrite bind_eq.
  destruct (stepping cfg s l) as [c1 r1] eqn:H1. cbn [fst snd].
  apply stepping_shape in H1 as (loss & coarse & fine & lr & n & -> & H1).
  fold (step_calls (logger l) s loss coarse fine lr n).
  destruct r1 as [l1|e1]; cycle 1.
  { pair_inv. destruct H1 as [-> _].
    exists loss, coarse, fine, lr, n, None, None. rewrite !app_nil_r. naive_solver. }
  destruct H1 as (-> & Htr1 & Henv1).
  rewrite bind_lift. unfold py_mod. destruct (Z.eqb_spec (save_every cfg) 0) as [Hs0|Hs0].
  { cbn. pair_inv.
    exists loss, coarse, fine, lr, 5%nat, None, None. rewrite !app_nil_r. naive_solver. }
  rewrite bind_eq.
  destruct (if s `mod` save_every cfg =? 0 then saving cfg s l1 else ret l1)
    as [c2 r2] eqn:H2. cbn [fst snd].
  assert (exists sv : option (Ckpt * list Event),
    c2 = at_step s match sv with
                   | Some (ck, ec) => save_calls cfg (model_save_path l) s ck ++ ec
                   | None => []
                   end /\
    (forall ck ec, sv = Some (ck, ec) ->
       ck_step ck = s /\
       match eval_data l with
       | Some _ => exists ecoarse efine k,
           ec = eval_calls (logger l) s ecoarse efine k /\ (is_ok r2 = true -> k = 3%nat)
       | None => ec = []
       end) /\
    match r2 with
    | Ok l2 => (is_Some sv <-> s mod save_every cfg = 0) /\ same_env l l2 /\
               training (model l2) = true
    | Raise e => e = IndexError
    end) as (sv & -> & Hsv & Hr2).
  { destruct (Z.eqb_spec (s mod save_every cfg) 0) as [Hm|Hm].
    - apply saving_shape in H2 as (ec & ef & k & -> & H2).
      pose proof Henv1 as (Hlg & Hp & _ & _ & Hed). rewrite Hlg, Hp in *.
      eexists (Some (_, _)). split; [done|]. split.
      + intros ck ec' [= <- <-]. split; [done|].
        destruct (eval_data l) as [ed|] eqn:Hedl.
        * destruct (eval_data l1) as [ed1|]; [|destruct Hed as [Hc _]; discriminate (Hc eq_refl)].
          exists ec, ef, k. split; [done|]. by destruct r2 as [?|?]; [destruct H2|].
        * destruct (eval_data l1) as [ed1|]; [|done].
          destruct Hed as [_ Hc]; discriminate (Hc eq_refl).
      + destruct r2 as [l2|e2]; [|by destruct H2].
        destruct H2 as (_ & Henv2 & Htr2). split; [by split; [|eauto]|].
        split; [by eapply same_env_trans|].
        rewrite Htr2. by destruct (eval_data l1).
    - injection H2 as <- <-. exists None. split; [done|]. split; [done|].
      split; [|done]. split; [by intros [? [=]]|done]. }
  destruct r2 as [l2|e2]; cycle 1.
  { pair_inv.
    exists loss, coarse, fine, lr, 5%nat, sv, None.
    rewrite !app_nil_r, at_step_app. split_and!; try done; auto; sv_transfer Hsv. }
  destruct Hr2 as (Hsv2 & Henv2 & Htr2).
  rewrite bind_lift. destruct (Z.eqb_spec (render_every cfg) 0) as [Hr0|Hr0].
  { cbn [fst snd app]. rewrite app_nil_r. pair_inv.
    exists loss, coarse, fine, lr, 5%nat, sv, None.
    rewrite !app_nil_r, at_step_app. split_and!; try done; auto; sv_transfer Hsv. }
  destruct (Z.eqb_spec (s mod render_every cfg) 0) as [Hm|Hm].
  - rewrite rendering_shape. cbn [fst snd]. pair_inv.
    exists loss, coarse, fine, lr, 5%nat, sv, (Some (model_eval (model l2))).
    destruct Henv2 as (Hlg & Hp & Hst & Hrd & Hed). rewrite Hrd.
    rewrite !at_step_app. split; [done|]. split; [sv_transfer Hsv|].
    split; [by intros ? [= <-]|]. unfold same_env; cbn.
    split_and!; try done; by eauto.
  - cbn [fst snd ret lift Act_monad app]. rewrite app_nil_r. pair_inv.
    exists loss, coarse, fine, lr, 5%nat, sv, None.
    rewrite !app_nil_r, at_step_app. split; [done|]. split; [sv_transfer Hsv|].
    split; [done|]. split_and!; try done.
Qed.

(** *** The loop, iteration by iteration *)

Lemma for_each_chunks cfg steps l c r :
  for_each steps (iteration cfg) l = (c, r) ->
  exists n cs,
    c = concat cs /\
    Forall2 (iteration_of cfg l (is_ok r)) (take n steps) cs /\
    (forall l', r = Ok l' -> take n steps = steps /\ same_env l l').
Proof.
  revert l c r. induction steps as [|s steps IH]; intros l c r.
  - intros [= <- <-]. exists 0%nat, []. split_and!; [done|constructor|].
    intros l' [= <-]. split; [done|apply same_env_refl].
  - cbn [for_each]. rewrite bind_eq.
    destruct (iteration cfg s l) as [c1 [l1|e1]] eqn:H1; cbn [fst snd].
    + destruct (for_each steps (iteration cfg) l1) as [c2 r2] eqn:H2. cbn [fst snd].
      intros E. injection E as <- <-.
      apply IH in H2 as (n & cs & Hc2 & HF & Hok).
      assert (Henv : same_env l l1).
      { apply iteration_shape in H1. destruct H1 as (?&?&?&?&?&?&?&_&_&_&H1).
        apply H1. }
      exists (S n), (c1 :: cs). split_and!.
      * cbn. by rewrite Hc2.
      * cbn. constructor.
        -- exists l, (Ok l1). split_and!; [apply same_env_refl|done|done].
        -- eapply Forall2_impl; [exact HF|]. intros s' c' (l' & r' & ? & ? & ?).
           exists l', r'. split_and!; [by eapply same_env_trans|done|done].
      * intros l' ->. destruct (Hok l' eq_refl) as [Ht ?]. cbn. rewrite Ht.
        split; [done|by eapply same_env_trans].
    + intros E. injection E as <- <-. exists 1%nat, [c1]. split_and!.
      * cbn. by rewrite app_nil_r.
      * cbn. rewrite take_0. constructor; [|constructor].
        exists l, (Raise e1). split_and!; [apply same_env_refl|done|done].
      * intros l' [=].
Qed.

Lemma for_each_final cfg steps l c l' :
  for_each steps (iteration cfg) l = (c, Ok l') ->
  training (model l') =
    match last steps with
    | Some s => negb (s mod render_every cfg =? 0)
    | None => training (model l)
    end.
Proof.
  revert l c. induction steps as [|s steps IH]; intros l c.
  - by intros [= <- <-].
  - cbn [for_each]. rewrite bind_eq.
    destruct (iteration cfg s l) as [c1 [l1|e1]] eqn:H1; cbn [fst snd]; [|done].
    destruct (for_each steps (iteration cfg) l1) as [c2 r2] eqn:H2. cbn [fst snd].
    pair_inv. apply IH in H2. rewrite H2.
    destruct steps as [|s' steps]; cycle 1.
    { rewrite last_cons_cons. destruct (last (s' :: steps)) eqn:E; [done|].
      by apply last_None in E. }
    cbn. apply iteration_shape in H1 as (?&?&?&?&?&?&rn&_&_&_&H1).
    destruct H1 as (_ & _ & _ & _ & Hrn & _ & ->).
    destruct (Z.eqb_spec (s mod render_every cfg) 0) as [Hm|Hm].
    + apply Hrn in Hm as [? ->]. done.
    + destruct rn; [|done]. destruct Hm. apply Hrn. eauto.
Qed.

(** *** Performing calls *)

Lemma trace_perform w c : trace (foldl perform w c) = trace w ++ c.
Proof.
  revert w. induction c as [|e c IH]; intros w; cbn; [by rewrite app_nil_r|].
  rewrite IH. cbn. by rewrite <- app_assoc.
Qed.

Lemma effect_fs_lookup ev m p : effect_fs ev m !! p = effect_at p ev (m !! p).
Proof.
  destruct ev; cbn; try done; try destruct (video_of _ _ _);
    case_bool_decide; simplify_eq;
    rewrite ?lookup_insert_eq, ?lookup_insert_ne by done; done.
Qed.

Lemma fs_perform w c p :
  fs (foldl perform w c) !! p = foldl (fun f sev => effect_at p sev.2 f) (fs w !! p) c.
Proof.
  revert w. induction c as [|e c IH]; intros w; cbn; [done|].
  rewrite IH. cbn. by rewrite effect_fs_lookup.
Qed.

(** *** Before the loop *)

Lemma restore_spec cfg path m o w :
  restore cfg path m o w =
    if continue_training cfg then
      match fs w !! path with
      | Some (FCkpt ck) =>
          (Ok (model_load_state_dict m (ck_state_dict ck), ck_optimizer ck, ck_step ck),
           {| fs := fs w; stdout := stdout w ++ [loaded_message]; trace := trace w |})
      | Some _ => (Raise (UnpicklingError path), w)
      | None => (Raise (FileNotFoundError path), w)
      end
    else (Ok (m, o, 0), w).
Proof.
  unfold restore. destruct (continue_training cfg); [|done].
  cbn. unfold torch_load. by destruct (fs w !! path) as [[]|].
Qed.

Lemma startup_raise cfg w e w' :
  startup cfg w = (Raise e, w') ->
  continue_training cfg = true /\ w' = w /\
  match fs w !! latest_path cfg with
  | Some (FCkpt _) => False
  | Some _ => e = UnpicklingError (latest_path cfg)
  | None => e = FileNotFoundError (latest_path cfg)
  end.
Proof.
  unfold startup. cbn. fold (latest_path cfg). rewrite restore_spec.
  destruct (continue_training cfg).
  - destruct (fs w !! latest_path cfg) as [[]|]; cbn;
      try destruct (MipLRDecay _ _); cbn; intros [= <- <-] || intros [=]; done.
  - cbn. destruct (MipLRDecay _ _). cbn. intros [=].
Qed.

Lemma startup_ok cfg w l w' :
  startup cfg w = (Ok l, w') ->
  logger l = event_file (train_dir cfg) /\
  model_save_path l = latest_path cfg /\
  render_data l = get_dataloader_render (dataset_name cfg) (base_dir cfg) (factor cfg)
                    (n_poses cfg) 200 200 /\
  (eval_data l = None <-> do_eval cfg = false) /\
  training (model l) = true /\
  trace w' = trace w /\
  fs w' = <[event_file (train_dir cfg) := FEvents]>
            (filter (fun kv => Path.under (train_dir cfg) kv.1 = false) (fs w)) /\
  if continue_training cfg then
    exists ck, fs w !! latest_path cfg = Some (FCkpt ck) /\
      start_step l = ck_step ck /\
      model_state_dict (model l) = ck_state_dict ck /\
      (scheduler l, optimizer l) = MipLRDecay cfg (ck_optimizer ck)
  else
    start_step l = 0 /\ model_state_dict (model l) = MipNeRF cfg /\
    (scheduler l, optimizer l) = MipLRDecay cfg (AdamW cfg (MipNeRF cfg)).
Proof.
  unfold startup. cbn. fold (latest_path cfg) (train_dir cfg). rewrite restore_spec.
  destruct (continue_training cfg).
  - destruct (fs w !! latest_path cfg) as [[ck| | |]|]; cbn; try done.
    destruct (MipLRDecay cfg (ck_optimizer ck)) as [s o] eqn:Hs. cbn.
    intros [= <- <-]. cbn. split_and!; try done.
    + by destruct (do_eval cfg).
    + by exists ck.
  - cbn. destruct (MipLRDecay cfg _) as [s o] eqn:Hs. cbn.
    intros [= <- <-]. cbn. split_and!; try done; by destruct (do_eval cfg).
Qed.

Lemma M_bind_eq {A B} (m : M A) (k : A -> M B) w :
  bind m k w = match m w with
               | (Ok a, w') => k a w'
               | (Raise e, w') => (Raise e, w')
               end.
Proof. reflexivity. Qed.

Lemma train_model_inv cfg w r w' :
  train_model cfg w = (r, w') ->
  (exists e, startup cfg w = (Raise e, w') /\ r = Raise e) \/
  (exists l w1 c, startup cfg w = (Ok l, w1) /\ training_loop cfg l = (c, r) /\
                  w' = foldl perform w1 c).
Proof.
  unfold train_model. rewrite M_bind_eq. destruct (startup cfg w) as [[l|e] w1].
  - unfold run. intros [= <- <-]. right. exists l, w1, (training_loop cfg l).1.
    by destruct (training_loop cfg l).
  - intros [= <- <-]. left. by exists e.
Qed.

(** *** Properties of all the calls of a loop *)

Lemma in_at_step s s' ev evs : In (s', ev) (at_step s evs) <-> s' = s /\ In ev evs.
Proof.
  unfold at_step. rewrite in_map_iff. split.
  - intros (x & [= <- <-] & ?). done.
  - intros [-> ?]. by exists ev.
Qed.

(** A property of calls that holds of the calls of each branch holds of
    all the calls of the loop. *)
Lemma iteration_Forall (P : Z -> Event -> Prop) cfg s l c r :
  iteration cfg s l = (c, r) ->
  (forall loss co fi lr n, Forall (P s) (step_calls (logger l) s loss co fi lr n)) ->
  (forall ck, ck_step ck = s -> Forall (P s) (save_calls cfg (model_save_path l) s ck)) ->
  (forall co fi k, eval_data l <> None -> Forall (P s) (eval_calls (logger l) s co fi k)) ->
  (forall m, training m = false -> Forall (P s) (render_calls cfg s m (render_data l))) ->
  Forall (fun sev => P sev.1 sev.2) c.
Proof.
  intros Hit Hst Hsv Hev Hrn.
  apply iteration_shape in Hit
    as (loss & co & fi & lr & n & sv & rn & -> & Hsv' & Hrn' & _).
  unfold at_step. rewrite Forall_map. cbn [fst snd]. rewrite !Forall_app. split_and!.
  - apply Hst.
  - destruct sv as [[ck ec]|]; [|constructor].
    destruct (Hsv' ck ec eq_refl) as [Hck Hec]. rewrite Forall_app. split; [by apply Hsv|].
    destruct (eval_data l) eqn:E; [|subst ec; constructor].
    destruct Hec as (a & b & k & -> & _). apply Hev. congruence.
  - destruct rn as [m|]; [|constructor]. apply Hrn. by apply Hrn'.
Qed.

Lemma loop_Forall (P : Z -> Event -> Prop) cfg l c r :
  training_loop cfg l = (c, r) ->
  (forall s loss co fi lr n, Forall (P s) (step_calls (logger l) s loss co fi lr n)) ->
  (forall s ck, ck_step ck = s -> Forall (P s) (save_calls cfg (model_save_path l) s ck)) ->
  (forall s co fi k, eval_data l <> None -> Forall (P s) (eval_calls (logger l) s co fi k)) ->
  (forall s m, training m = false -> Forall (P s) (render_calls cfg s m (render_data l))) ->
  Forall (fun sev => P sev.1 sev.2) c.
Proof.
  intros Hl Hst Hsv Hev Hrn. unfold training_loop in Hl.
  apply for_each_chunks in Hl as (n & cs & -> & HF & _).
  apply Forall_concat. eapply Forall2_Forall_r; [exact HF|].
  apply Forall_forall. intros s _ ch (l_s & r_s & Henv & Hit & _).
  destruct Henv as (Hlg & Hp & _ & Hrd & Hed).
  eapply iteration_Forall; [exact Hit|..]; rewrite ?Hlg, ?Hp, ?Hrd; auto.
  intros co fi k Hne. apply Hev. intros E. apply Hne. by apply Hed.
Qed.

(** Every call of the loop was made by an iteration of a step in range. *)
Lemma loop_call_inv cfg l c r s ev :
  training_loop cfg l = (c, r) -> In (s, ev) c ->
  exists l_s c_s r_s,
    same_env l l_s /\ iteration cfg s l_s = (c_s, r_s) /\ In (s, ev) c_s /\
    (start_step l <= s < max_steps cfg) /\ (is_ok r = true -> is_ok r_s = true).
Proof.
  intros Hl Hin. unfold training_loop in Hl.
  apply for_each_chunks in Hl as (n & cs & -> & HF & _).
  apply in_concat in Hin as (ch & Hch & Hin).
  apply list_elem_of_In, list_elem_of_lookup in Hch as [i Hi].
  destruct (Forall2_lookup_r _ _ _ _ _ HF Hi) as (s_i & Hsi & l_s & r_s & Henv & Hit & Hok).
  assert (s = s_i) as ->.
  { apply iteration_shape in Hit as (?&?&?&?&?&?&?& Heq & _).
    rewrite Heq in Hin. by apply in_at_step in Hin as [-> _]. }
  apply lookup_take_Some in Hsi as [Hsi _].
  apply list_elem_of_lookup_2, elem_of_seqZ in Hsi.
  exists l_s, ch, r_s. split_and!; try done; lia.
Qed.

(** In a run that completes, every step in range has had its iteration,
    and that one completed. *)
Lemma loop_step_ran cfg l c l' s :
  training_loop cfg l = (c, Ok l') -> start_step l <= s < max_steps cfg ->
  exists l_s c_s l_s',
    same_env l l_s /\ iteration cfg s l_s = (c_s, Ok l_s') /\
    (forall sev, In sev c_s -> In sev c).
Proof.
  intros Hl Hs. unfold training_loop in Hl.
  apply for_each_chunks in Hl as (n & cs & -> & HF & Hok).
  destruct (Hok l' eq_refl) as [Htake _]. rewrite Htake in HF.
  assert (Hel : s ∈ py_range (start_step l) (max_steps cfg)).
  { apply elem_of_seqZ. lia. }
  apply list_elem_of_lookup in Hel as [i Hi].
  destruct (Forall2_lookup_l _ _ _ _ _ HF Hi) as (ch & Hch & l_s & r_s & Henv & Hit & Hr).
  destruct r_s as [l_s'|e]; [|by specialize (Hr eq_refl)].
  exists l_s, ch, l_s'. split_and!; try done.
  intros sev Hin. apply in_concat. exists ch. split; [|done].
  apply list_elem_of_In. by eapply list_elem_of_lookup_2.
Qed.

(** *** Where the loop writes *)

Lemma prefix_empty s : String.prefix "" s = true.
Proof. by destruct s. Qed.

Lemma event_file_under cfg : Path.under (train_dir cfg) (event_file (train_dir cfg)) = true.
Proof.
  unfold Path.under, event_file, train_dir.
  rewrite join_train_file by done. rewrite join_relative by done.
  rewrite !append_assoc. rewrite prefix_app.
  change ("train" +:+ "/") with ("train/" +:+ ""). rewrite prefix_app. apply prefix_empty.
Qed.

Lemma not_under_train cfg name :
  Path.startswith_sep name = false -> String.prefix "train/" name = false ->
  Path.under (train_dir cfg) (Path.join (log_dir cfg) name) = false.
Proof. intros Hn Hp. unfold train_dir. by rewrite under_train. Qed.

Lemma Forall_image_calls (P : Event -> Prop) cfg s cnt frames :
  (forall k img, In img frames ->
     P (EvImwrite (Path.join (log_dir cfg) (image_name s k)) img)) ->
  Forall P (image_calls cfg s cnt frames).
Proof.
  revert cnt. induction frames as [|img frames IH]; intros cnt HP; cbn; constructor.
  - apply HP. by left.
  - apply IH. intros p i Hi. apply HP. by right.
Qed.

Lemma loop_writes_safely cfg l c r :
  training_loop cfg l = (c, r) ->
  logger l = event_file (train_dir cfg) ->
  model_save_path l = latest_path cfg ->
  Forall (fun sev => writes_safely cfg sev.2) c.
Proof.
  intros Hl Hlg Hp.
  apply (loop_Forall (fun _ => writes_safely cfg) _ _ _ _ Hl).
  - intros. unfold step_calls. apply Forall_app. split; [by repeat constructor|].
    apply Forall_take. by repeat constructor.
  - intros s ck _. rewrite Hp. unfold save_calls, latest_path.
    repeat constructor; by apply not_under_train.
  - intros. unfold eval_calls. apply Forall_app. split; [by repeat constructor|].
    apply Forall_take. by repeat constructor.
  - intros s m _. unfold render_calls. rewrite !Forall_app. split_and!.
    + by repeat constructor.
    + apply Forall_map, Forall_forall. done.
    + apply Forall_image_calls. intros. by apply not_under_train.
    + repeat constructor. by apply not_under_train.
Qed.

Lemma fs_after_safe cfg c : forall w,
  Forall (fun sev => writes_safely cfg sev.2) c ->
  forall p, Path.under (train_dir cfg) p = true ->
    fs (foldl perform w c) !! p = fs w !! p.
Proof.
  induction c as [|[s ev] c IH]; intros w Hc p Hu; [done|].
  apply Forall_cons in Hc as [Hev Hc]. cbn in Hev.
  cbn [foldl]. rewrite IH by done. cbn.
  rewrite effect_fs_lookup.
  destruct ev; cbn in *; try done; try destruct (video_of _ _ _);
    try done; case_bool_decide; congruence.
Qed.

(** *** Starting a run *)

(** C7. When resuming is requested and there is no file at
    [<log_dir>/model.pt], [train_model] raises the [FileNotFoundError] of
    [torch.load] and leaves the world as it found it: no file is touched
    and no iteration runs. *)
Theorem missing_checkpoint_is_fatal cfg w :
  continue_training cfg = true ->
  fs w !! latest_path cfg = None ->
  train_model cfg w = (Raise (FileNotFoundError (latest_path cfg)), w).
Proof.
  intros Hc Hf. destruct (train_model cfg w) as [r w'] eqn:Hrun.
  apply train_model_inv in Hrun as [(e & Hst & ->)|(l & w1 & c & Hst & _)].
  - apply startup_raise in Hst as (_ & -> & He). rewrite Hf in He. by subst e.
  - apply startup_ok in Hst as (_ & _ & _ & _ & _ & _ & _ & Hst).
    rewrite Hc in Hst. destruct Hst as (ck & Hck & _). congruence.
Qed.

(** C3. A checkpoint written by [save_model model optimizer S path] is
    read back whole: [restore] on that path returns step [S], the saved
    optimizer state and a model carrying the saved parameters, and the
    file holds the saved triple; written to [<log_dir>/model.pt], a
    resumed [train_model] starts from step [S] with those parameters and
    hands the saved optimizer state to the schedule. *)
Theorem checkpoint_roundtrip cfg m o S w :
  continue_training cfg = true ->
  (forall p m0 o0,
     let w1 := (run (save_model m o S p) w).2 in
     fs w1 !! p = Some (FCkpt {| ck_state_dict := model_state_dict m;
                                 ck_optimizer := o; ck_step := S |}) /\
     exists m' w2,
       restore cfg p m0 o0 w1 = (Ok (m', o, S), w2) /\
       model_state_dict m' = model_state_dict m /\ fs w2 = fs w1) /\
  (let w1 := (run (save_model m o S (latest_path cfg)) w).2 in
   exists l w2,
     startup cfg w1 = (Ok l, w2) /\ start_step l = S /\
     model_state_dict (model l) = model_state_dict m /\
     (scheduler l, optimizer l) = MipLRDecay cfg o).
Proof.
  intros Hc. split.
  - intros p m0 o0 w1.
    assert (Hf : fs w1 !! p = Some (FCkpt {| ck_state_dict := model_state_dict m;
                                             ck_optimizer := o; ck_step := S |})).
    { subst w1. cbn. apply lookup_insert_eq. }
    split; [done|]. rewrite restore_spec, Hc, Hf. eauto.
  - intros w1.
    assert (Hf : fs w1 !! latest_path cfg
                 = Some (FCkpt {| ck_state_dict := model_state_dict m;
                                  ck_optimizer := o; ck_step := S |})).
    { subst w1. cbn. apply lookup_insert_eq. }
    destruct (startup cfg w1) as [[l|e] w2] eqn:Hst.
    + exists l, w2. split; [done|].
      apply startup_ok in Hst as (_ & _ & _ & _ & _ & _ & _ & Hst).
      rewrite Hc in Hst. destruct Hst as (ck & Hck & -> & -> & ->).
      rewrite Hf in Hck. by injection Hck as <-.
    + apply startup_raise in Hst as (_ & _ & He). by rewrite Hf in He.
Qed.

(** C9, as the code has it.  The scalar log is reset exactly on the
    startups that get past line 49, that is always when resuming is not
    asked for, and on a resumed run when [<log_dir>/model.pt] holds a
    checkpoint: then, however the run ends, nothing that was below
    [<log_dir>/train] before is left, the one file there is the event
    file of the writer created by this run, and every [add_scalar] call
    of the run is made on that writer.  On the other startups
    [torch.load] raises before line 60 is reached, and the world, the old
    log included, stays as it was. *)
Theorem train_log_is_reset cfg w r w' :
  train_model cfg w = (r, w') ->
  if can_start cfg w then
    fs w' !! event_file (train_dir cfg) = Some FEvents /\
    (forall p, Path.under (train_dir cfg) p = true -> p <> event_file (train_dir cfg) ->
               fs w' !! p = None) /\
    (forall s lg e, In (s, EvAddScalar lg e) (trace w') -> In (s, EvAddScalar lg e) (trace w) \/
                                                           lg = event_file (train_dir cfg))
  else
    (exists e, r = Raise e) /\ w' = w.
Proof.
  intros Hrun. unfold can_start.
  apply train_model_inv in Hrun as [(e & Hst & ->)|(l & w1 & c & Hst & Hl & ->)].
  - apply startup_raise in Hst as (-> & -> & Hf). cbn [negb orb].
    destruct (fs w !! latest_path cfg) as [[]|]; [done|..]; eauto.
  - apply startup_ok in Hst as (Hlg & Hp & _ & _ & _ & Htr & Hfs & Hres).
    assert (negb (continue_training cfg)
            || match fs w !! latest_path cfg with
               | Some (FCkpt _) => true
               | _ => false
               end = true) as ->.
    { destruct (continue_training cfg); [|done]. by destruct Hres as (ck & -> & _). }
    pose proof (loop_writes_safely _ _ _ _ Hl Hlg Hp) as Hsafe.
    split_and!.
    + rewrite (fs_after_safe cfg c w1 Hsafe) by apply event_file_under.
      rewrite Hfs. apply lookup_insert_eq.
    + intros p Hu Hne. rewrite (fs_after_safe cfg c w1 Hsafe) by done. rewrite Hfs.
      rewrite lookup_insert_ne by done. apply map_lookup_filter_None. right.
      intros f _ Hn. cbn [fst] in Hn. congruence.
    + intros s lg e Hin. rewrite trace_perform, Htr in Hin.
      apply in_app_iff in Hin as [Hin|Hin]; [by left|right].
      rewrite List.Forall_forall in Hsafe. by apply Hsafe in Hin.
Qed.

(** *** Cadence *)

Lemma step_calls_kind lg s loss co fi lr n :
  Forall (fun ev => in_saving ev = false /\ in_rendering ev = false)
         (step_calls lg s loss co fi lr n).
Proof.
  unfold step_calls. apply Forall_app. split; [by repeat constructor|].
  apply Forall_take. by repeat constructor.
Qed.

Lemma eval_calls_kind lg s co fi k :
  Forall (fun ev => in_saving ev = false /\ in_rendering ev = false)
         (eval_calls lg s co fi k).
Proof.
  unfold eval_calls. apply Forall_app. split; [by repeat constructor|].
  apply Forall_take. by repeat constructor.
Qed.

Lemma render_calls_kind cfg s m rd :
  Forall (fun ev => in_saving ev = false) (render_calls cfg s m rd).
Proof.
  unfold render_calls. rewrite !Forall_app. split_and!.
  - by repeat constructor.
  - by apply Forall_map, Forall_forall.
  - by apply Forall_image_calls.
  - by repeat constructor.
Qed.

Lemma iteration_cadence cfg s l c l' :
  iteration cfg s l = (c, Ok l') ->
  (saving_ran s c <-> s mod save_every cfg = 0) /\
  (rendering_ran s c <-> s mod render_every cfg = 0).
Proof.
  intros Hit.
  apply iteration_shape in Hit
    as (loss & co & fi & lr & n & sv & rn & -> & Hsv & _ & _ & _ & _ & Hs & Hr & _).
  pose proof (step_calls_kind (logger l) s loss co fi lr n) as Hk1.
  rewrite List.Forall_forall in Hk1.
  assert (Hk2 : forall ck ec ev, sv = Some (ck, ec) -> In ev ec ->
                  in_saving ev = false /\ in_rendering ev = false).
  { intros ck ec ev E Hin. destruct (Hsv ck ec E) as [_ Hec].
    destruct (eval_data l); [|subst ec; destruct Hin].
    destruct Hec as (a & b & k & -> & _).
    pose proof (eval_calls_kind (logger l) s a b k) as Hk. rewrite List.Forall_forall in Hk.
    by apply Hk. }
  split.
  - rewrite <- Hs. split.
    + intros (ev & Hin & Hk). apply in_at_step in Hin as [_ Hin].
      rewrite !in_app_iff in Hin. destruct Hin as [Hin|[Hin|Hin]].
      * apply Hk1 in Hin as [? _]. congruence.
      * by destruct sv.
      * destruct rn as [m|]; [|done].
        pose proof (render_calls_kind cfg s m (render_data l)) as Hk3.
        rewrite List.Forall_forall in Hk3. apply Hk3 in Hin. congruence.
    + intros [[ck ec] ->].
      exists (EvTorchSave (Path.join (log_dir cfg) (stamped_name s)) ck). split; [|done].
      apply in_at_step. split; [done|].
      rewrite !in_app_iff. right. left. left. by left.
  - rewrite <- Hr. split.
    + intros (ev & Hin & Hk). apply in_at_step in Hin as [_ Hin].
      rewrite !in_app_iff in Hin. destruct Hin as [Hin|[Hin|Hin]].
      * apply Hk1 in Hin as [_ ?]. congruence.
      * destruct sv as [[ck ec]|]; [|done]. apply in_app_iff in Hin as [Hin|Hin].
        -- unfold save_calls in Hin. cbn in Hin.
           destruct Hin as [<-|[<-|[]]]; discriminate.
        -- destruct (Hk2 ck ec ev eq_refl Hin). congruence.
      * by destruct rn.
    + intros [m ->]. eexists (EvPrint _). split; [|done].
      apply in_at_step. split; [done|]. rewrite !in_app_iff. right. right.
      unfold render_calls. cbn. right. by left.
Qed.

Lemma loop_env cfg l c l' : training_loop cfg l = (c, Ok l') -> same_env l l'.
Proof.
  intros Hl. apply for_each_chunks in Hl as (n & cs & _ & _ & Hok).
  by destruct (Hok l' eq_refl).
Qed.

(** A run that completes: it started, its loop completed, and its trace is
    the trace before it followed by the calls of the loop. *)
Lemma completed_run cfg w l' w' :
  train_model cfg w = (Ok l', w') ->
  exists l w1 c,
    startup cfg w = (Ok l, w1) /\ training_loop cfg l = (c, Ok l') /\
    same_env l l' /\ trace w' = trace w ++ c /\ w' = foldl perform w1 c.
Proof.
  intros Hrun. apply train_model_inv in Hrun as [(e & _ & [=])|(l & w1 & c & Hst & Hl & ->)].
  exists l, w1, c. split_and!; try done.
  - by eapply loop_env.
  - rewrite trace_perform. by apply startup_ok in Hst as (_&_&_&_&_& -> &_).
Qed.

(** C1. In a run that completes, the saving branch runs in iteration [s]
    exactly when [s] is in [start_step, max_steps) and
    [s mod save_every = 0], and the rendering branch exactly when [s] is in
    range and [s mod render_every = 0]; each is decided by its own modulus,
    so that a step that is a multiple of both gets both branches. *)
Theorem cadence cfg w l w' :
  train_model cfg w = (Ok l, w') -> trace w = [] ->
  forall s,
    (saving_ran s (trace w') <->
       start_step l <= s < max_steps cfg /\ s mod save_every cfg = 0) /\
    (rendering_ran s (trace w') <->
       start_step l <= s < max_steps cfg /\ s mod render_every cfg = 0) /\
    (start_step l <= s < max_steps cfg ->
     s mod save_every cfg = 0 -> s mod render_every cfg = 0 ->
     saving_ran s (trace w') /\ rendering_ran s (trace w')).
Proof.
  intros Hrun Htr s.
  apply completed_run in Hrun as (l0 & w1 & c & _ & Hl & Henv & -> & _).
  rewrite Htr. cbn [app].
  destruct Henv as (_ & _ & -> & _).
  assert (Hfwd : forall (K : Event -> bool) (m : Z),
            (forall s' l_s c_s l_s', iteration cfg s' l_s = (c_s, Ok l_s') ->
               ((exists ev, In (s', ev) c_s /\ K ev = true) <-> s' mod m = 0)) ->
            ((exists ev, In (s, ev) c /\ K ev = true) <->
               start_step l0 <= s < max_steps cfg /\ s mod m = 0)).
  { intros K m HK. split.
    - intros (ev & Hin & Hk).
      destruct (loop_call_inv _ _ _ _ _ _ Hl Hin)
        as (l_s & c_s & r_s & _ & Hit & Hin' & Hrange & Hok).
      destruct r_s as [l_s'|e]; [|by specialize (Hok eq_refl)].
      split; [done|]. apply (HK _ _ _ _ Hit). eauto.
    - intros [Hrange Hm].
      destruct (loop_step_ran _ _ _ _ _ Hl Hrange) as (l_s & c_s & l_s' & _ & Hit & Hsub).
      apply (HK _ _ _ _ Hit) in Hm as (ev & Hin & Hk). eauto. }
  assert (Hsave := Hfwd in_saving (save_every cfg)
            (fun s' l_s c_s l_s' H => proj1 (iteration_cadence _ _ _ _ _ H))).
  assert (Hrender := Hfwd in_rendering (render_every cfg)
            (fun s' l_s c_s l_s' H => proj2 (iteration_cadence _ _ _ _ _ H))).
  split_and!; [exact Hsave|exact Hrender|].
  intros Hrange Hm1 Hm2. split; [by apply Hsave|by apply Hrender].
Qed.

(** *** Modes *)

Lemma loop_modes cfg l c r :
  training_loop cfg l = (c, r) -> Forall (fun sev => mode_ok sev.2) c.
Proof.
  intros Hl. apply (loop_Forall (fun _ => mode_ok) _ _ _ _ Hl).
  - intros. unfold step_calls. apply Forall_app. split; [by repeat constructor|].
    apply Forall_take. by repeat constructor.
  - intros. by repeat constructor.
  - intros. unfold eval_calls. apply Forall_app. split; [by repeat constructor|].
    apply Forall_take. by repeat constructor.
  - intros s m Hm. unfold render_calls. rewrite !Forall_app. split_and!.
    + by repeat constructor.
    + apply Forall_map, Forall_forall. done.
    + by apply Forall_image_calls.
    + by repeat constructor.
Qed.

Lemma last_py_range a b :
  last (py_range a b) = if bool_decide (a < b) then Some (b - 1) else None.
Proof.
  unfold py_range. case_bool_decide as H.
  - replace (b - a) with (Z.of_nat (S (Z.to_nat (b - a - 1)))) by lia.
    rewrite seqZ_S, last_snoc. f_equal. lia.
  - by rewrite seqZ_nil by lia.
Qed.

(** C5, as the code has it.  In a run that completes, every training
    forward pass runs with the model in training mode and every
    [render_image] call with the model in inference mode; the rendering
    branch does not switch back itself, the [model.train()] that opens
    each iteration does, so that when the loop exits the model is in
    inference mode exactly if the last iteration rendered. *)
Theorem modes cfg w l w' :
  train_model cfg w = (Ok l, w') -> trace w = [] ->
  (forall s tr, In (s, EvForward tr true) (trace w') -> tr = true) /\
  (forall s tr h wd chk, In (s, EvRenderImage tr h wd chk) (trace w') -> tr = false) /\
  training (model l) =
    negb (bool_decide (start_step l < max_steps cfg)
          && ((max_steps cfg - 1) mod render_every cfg =? 0)).
Proof.
  intros Hrun Htr.
  apply completed_run in Hrun as (l0 & w1 & c & Hst & Hl & Henv & -> & _).
  rewrite Htr. cbn [app].
  pose proof (loop_modes _ _ _ _ Hl) as Hm. rewrite List.Forall_forall in Hm.
  split_and!.
  - intros s tr Hin. by apply Hm in Hin.
  - intros s tr h wd chk Hin. by apply Hm in Hin.
  - unfold training_loop in Hl. apply for_each_final in Hl. rewrite Hl, last_py_range.
    destruct Henv as (_ & _ & -> & _).
    case_bool_decide; [done|].
    by apply startup_ok in Hst as (_&_&_&_& -> &_).
Qed.

(** *** The scalar log *)

Lemma scalars_of_at_step s evs : scalars_of (at_step s evs) = omap scalar_of evs.
Proof.
  unfold scalars_of, at_step. induction evs as [|ev evs IH]; [done|].
  cbn. rewrite IH. done.
Qed.

Lemma scalars_of_concat cs : scalars_of (concat cs) = concat (map scalars_of cs).
Proof.
  unfold scalars_of. induction cs as [|c cs IH]; [done|].
  cbn. by rewrite omap_app, IH.
Qed.

Lemma omap_none {A B} (f : A -> option B) l : Forall (fun x => f x = None) l -> omap f l = [].
Proof. induction 1 as [|x l Hx _ IH]; [done|]. cbn. by rewrite Hx. Qed.

Lemma render_calls_silent cfg s m rd : omap scalar_of (render_calls cfg s m rd) = [].
Proof.
  apply omap_none. unfold render_calls. rewrite !Forall_app. split_and!.
  - by repeat constructor.
  - by apply Forall_map, Forall_forall.
  - by apply Forall_image_calls.
  - by repeat constructor.
Qed.

Lemma iteration_records cfg s l c l' :
  iteration cfg s l = (c, Ok l') ->
  exists loss co fi lr evl,
    scalars_of c = train_records s loss co fi lr ++ evl /\
    (evl = [] \/ (eval_data l <> None /\ exists eco efi, evl = eval_records s eco efi)).
Proof.
  intros Hit.
  apply iteration_shape in Hit
    as (loss & co & fi & lr & n & sv & rn & -> & Hsv & _ & -> & _).
  exists loss, co, fi, lr.
  rewrite scalars_of_at_step, !omap_app.
  assert (omap scalar_of match rn with
                         | Some m => render_calls cfg s m (render_data l)
                         | None => []
                         end = []) as ->.
  { destruct rn; [apply render_calls_silent|done]. }
  rewrite app_nil_r. eexists. split; [reflexivity|].
  destruct sv as [[ck ec]|]; [|by left].
  destruct (Hsv ck ec eq_refl) as [_ Hec].
  destruct (eval_data l); [|subst ec; by left].
  destruct Hec as (eco & efi & k & -> & Hk). rewrite (Hk eq_refl).
  right. split; [done|]. by exists eco, efi.
Qed.

Lemma events_at_same s recs :
  Forall (fun e => global_step e = s) recs -> events_at s recs = recs.
Proof.
  unfold events_at. induction 1 as [|e recs He _ IH]; [done|].
  rewrite filter_cons, IH. by rewrite decide_True.
Qed.

Lemma events_at_other s s' recs :
  Forall (fun e => global_step e = s') recs -> s <> s' -> events_at s recs = [].
Proof.
  unfold events_at. intros H Hne. induction H as [|e recs He _ IH]; [done|].
  rewrite filter_cons, IH. by rewrite decide_False by congruence.
Qed.

Lemma events_at_app s a b : events_at s (a ++ b) = events_at s a ++ events_at s b.
Proof. apply filter_app. Qed.

Lemma events_at_chunks (steps : list Z) (rs : list (list ScalarEvent)) :
  Forall2 (fun s recs => Forall (fun e => global_step e = s) recs) steps rs ->
  NoDup steps ->
  forall s,
    (s ∉ steps -> events_at s (concat rs) = []) /\
    (forall i recs, steps !! i = Some s -> rs !! i = Some recs ->
                    events_at s (concat rs) = recs).
Proof.
  induction 1 as [|s0 r0 ss rr H0 _ IH]; intros Hnd s.
  - split; [done|]. intros i recs Hi. by rewrite lookup_nil in Hi.
  - apply NoDup_cons in Hnd as [Hs0 Hnd]. destruct (IH Hnd s) as [IH1 IH2].
    cbn [concat]. rewrite events_at_app. split.
    + intros Hs. apply not_elem_of_cons in Hs as [Hne Hs].
      rewrite (events_at_other s s0) by done. by apply IH1.
    + intros [|i] recs Hi Hr; cbn in Hi, Hr.
      * injection Hi as ->. injection Hr as <-.
        rewrite events_at_same by done. rewrite IH1 by done. by rewrite app_nil_r.
      * assert (s <> s0).
        { intros ->. apply Hs0. by eapply list_elem_of_lookup_2. }
        rewrite (events_at_other s s0) by done. by apply (IH2 i).
Qed.

Lemma train_records_step s loss co fi lr :
  Forall (fun e => global_step e = s) (train_records s loss co fi lr).
Proof. by repeat constructor. Qed.

Lemma eval_records_step s co fi :
  Forall (fun e => global_step e = s) (eval_records s co fi).
Proof. by repeat constructor. Qed.

(** The records of a completed loop, step by step. *)
Lemma run_records cfg l c l' :
  training_loop cfg l = (c, Ok l') ->
  forall s,
    (start_step l <= s < max_steps cfg ->
     exists loss co fi lr evl,
       events_at s (scalars_of c) = train_records s loss co fi lr ++ evl /\
       (evl = [] \/ (eval_data l <> None /\ exists eco efi, evl = eval_records s eco efi))) /\
    (~ (start_step l <= s < max_steps cfg) -> events_at s (scalars_of c) = []).
Proof.
  intros Hl s. unfold training_loop in Hl.
  apply for_each_chunks in Hl as (n & cs & -> & HF & Hok).
  destruct (Hok l' eq_refl) as [Htake _]. rewrite Htake in HF. clear Hok Htake.
  rewrite scalars_of_concat.
  assert (HF' : Forall2 (fun s recs =>
                  exists loss co fi lr evl,
                    recs = train_records s loss co fi lr ++ evl /\
                    (evl = [] \/ (eval_data l <> None /\
                                  exists eco efi, evl = eval_records s eco efi)))
                  (py_range (start_step l) (max_steps cfg)) (map scalars_of cs)).
  { apply Forall2_fmap_r. eapply Forall2_impl; [exact HF|].
    intros s' ch (l_s & r_s & Henv & Hit & Hr). cbn in Hr.
    destruct r_s as [l_s'|e]; [|by specialize (Hr eq_refl)].
    apply iteration_records in Hit as (loss & co & fi & lr & evl & Hrec & Hevl).
    exists loss, co, fi, lr, evl. split; [done|].
    destruct Hevl as [?|[Hne ?]]; [by left|right]. split; [|done].
    destruct Henv as (_ & _ & _ & _ & Hed). intros E. apply Hne. by apply Hed. }
  assert (HS : Forall2 (fun s recs => Forall (fun e => global_step e = s) recs)
                 (py_range (start_step l) (max_steps cfg)) (map scalars_of cs)).
  { eapply Forall2_impl; [exact HF'|].
    intros s' recs (loss & co & fi & lr & evl & -> & Hevl).
    apply Forall_app. split; [apply train_records_step|].
    destruct Hevl as [->|[_ (eco & efi & ->)]]; [constructor|apply eval_records_step]. }
  destruct (events_at_chunks _ _ HS (NoDup_seqZ _ _) s) as [Hout Hin].
  split.
  - intros Hrange.
    assert (Hel : s ∈ py_range (start_step l) (max_steps cfg)).
    { apply elem_of_seqZ. lia. }
    apply list_elem_of_lookup in Hel as [i Hi].
    destruct (Forall2_lookup_l _ _ _ _ _ HF' Hi) as (recs & Hr & Hrecs).
    rewrite (Hin i recs Hi Hr). exact Hrecs.
  - intros Hrange. apply Hout. intros Hel. apply elem_of_seqZ in Hel. lia.
Qed.

(** *** Two runs *)

Lemma startup_result cfg w1 w2 :
  (continue_training cfg = true -> fs w1 !! latest_path cfg = fs w2 !! latest_path cfg) ->
  (startup cfg w1).1 = (startup cfg w2).1.
Proof.
  intros Hck. unfold startup. rewrite !M_bind_eq. fold (latest_path cfg).
  rewrite !restore_spec. destruct (continue_training cfg).
  - rewrite (Hck eq_refl). destruct (fs w2 !! latest_path cfg) as [[]|]; try done.
    by destruct (MipLRDecay _ _).
  - by destruct (MipLRDecay _ _).
Qed.

(** *** Checkpoint files *)

Lemma prefix_neq pre a b : String.prefix pre a = false -> String.prefix pre b = true -> a <> b.
Proof. congruence. Qed.

Lemma join_neq d a b :
  Path.startswith_sep a = false -> Path.startswith_sep b = false -> a <> b ->
  Path.join d a <> Path.join d b.
Proof. intros Ha Hb Hne H. by apply join_inj in H. Qed.

Lemma stamped_not_latest cfg s : stamped_path cfg s <> latest_path cfg.
Proof. apply join_neq; [done|done|]. by apply (prefix_neq "model."). Qed.

Lemma checkpoint_not_under cfg p :
  checkpoint_path cfg p -> Path.under (train_dir cfg) p = false.
Proof. intros [->|[s ->]]; by apply not_under_train. Qed.

Lemma step_name_off_checkpoints cfg name :
  Path.startswith_sep name = false -> String.prefix "m" name = false ->
  ~ checkpoint_path cfg (Path.join (log_dir cfg) name).
Proof.
  intros Hn Hp [H|[s H]]; revert H; apply join_neq; try done;
    by apply (prefix_neq "m").
Qed.

Lemma loop_off_checkpoints cfg l c r :
  training_loop cfg l = (c, r) ->
  logger l = event_file (train_dir cfg) ->
  Forall (fun sev => off_checkpoints cfg sev.2) c.
Proof.
  intros Hl Hlg.
  assert (Hscalar : forall e, off_checkpoints cfg (EvAddScalar (logger l) e)).
  { intros e _ p [= <-] Hp. apply checkpoint_not_under in Hp.
    rewrite Hlg, event_file_under in Hp. done. }
  apply (loop_Forall (fun _ => off_checkpoints cfg) _ _ _ _ Hl).
  - intros. unfold step_calls. apply Forall_app. split; [by repeat constructor|].
    apply Forall_take. repeat constructor; apply Hscalar.
  - intros. by repeat constructor.
  - intros. unfold eval_calls. apply Forall_app. split; [by repeat constructor|].
    apply Forall_take. repeat constructor; apply Hscalar.
  - intros s m _. unfold render_calls. rewrite !Forall_app. split_and!.
    + by repeat constructor.
    + apply Forall_map, Forall_forall. done.
    + apply Forall_image_calls. intros k img _ _ p [= <-].
      by apply step_name_off_checkpoints.
    + repeat constructor. intros _ p [= <-]. by apply step_name_off_checkpoints.
Qed.

Lemma effect_untouched p c init :
  Forall (fun sev : Z * Event => target sev.2 <> Some p) c ->
  foldl (fun f sev => effect_at p sev.2 f) init c = init.
Proof.
  revert init. induction c as [|[s ev] c IH]; intros init Hc; [done|].
  apply Forall_cons in Hc as [Hev Hc]. cbn [foldl]. rewrite IH by done.
  destruct ev; cbn in *; try done; case_bool_decide; congruence.
Qed.

Lemma fs_last_save w c1 s p ck c2 :
  Forall (fun sev : Z * Event => target sev.2 <> Some p) c2 ->
  fs (foldl perform w (c1 ++ (s, EvTorchSave p ck) :: c2)) !! p = Some (FCkpt ck).
Proof.
  intros Hc2. rewrite fs_perform, foldl_app. cbn [foldl].
  rewrite effect_untouched by done. cbn. by rewrite bool_decide_eq_true_2.
Qed.

(** The calls of a loop, around those of one of its iterations. *)
Lemma loop_split cfg l c r s ev :
  training_loop cfg l = (c, r) -> In (s, ev) c ->
  exists c1 c_s c2 l_s r_s,
    c = c1 ++ c_s ++ c2 /\ iteration cfg s l_s = (c_s, r_s) /\ same_env l l_s /\
    Forall (fun sev => sev.1 < s) c1 /\ Forall (fun sev => s < sev.1) c2 /\
    start_step l <= s < max_steps cfg /\ (is_ok r = true -> is_ok r_s = true).
Proof.
  intros Hl Hin. unfold training_loop in Hl.
  apply for_each_chunks in Hl as (n & cs & -> & HF & _).
  assert (Htag : forall j s_j ch, take n (py_range (start_step l) (max_steps cfg)) !! j = Some s_j ->
                   cs !! j = Some ch ->
                   s_j = start_step l + Z.of_nat j /\ s_j < max_steps cfg /\
                   Forall (fun sev => sev.1 = s_j) ch).
  { intros j s_j ch Hj Hch.
    apply lookup_take_Some in Hj as [Hj _]. apply lookup_seqZ in Hj as [-> Hj].
    split; [done|]. split; [lia|].
    destruct (Forall2_lookup_r _ _ _ _ _ HF Hch) as (s' & Hs' & l_s & r_s & _ & Hit & _).
    apply lookup_take_Some in Hs' as [Hs' _]. apply lookup_seqZ in Hs' as [-> _].
    apply iteration_shape in Hit as (?&?&?&?&?&?&?& -> & _).
    apply List.Forall_forall. intros [s'' ev'] Hin'. by apply in_at_step in Hin' as [-> _]. }
  apply in_concat in Hin as (ch & Hch & Hin).
  apply list_elem_of_In, list_elem_of_lookup in Hch as [i Hi].
  destruct (Forall2_lookup_r _ _ _ _ _ HF Hi) as (s_i & Hsi & l_s & r_s & Henv & Hit & Hok).
  destruct (Htag i s_i ch Hsi Hi) as (Hs_i & Hmax & Htags).
  assert (s = s_i) as ->.
  { rewrite List.Forall_forall in Htags. by apply Htags in Hin. }
  exists (concat (take i cs)), ch, (concat (drop (S i) cs)), l_s, r_s.
  split_and!; try done.
  - rewrite <- (take_drop_middle cs i ch Hi) at 1. by rewrite concat_app.
  - apply Forall_concat, Forall_lookup. intros j ch' Hj.
    apply lookup_take_Some in Hj as [Hj Hlt].
    destruct (Forall2_lookup_r _ _ _ _ _ HF Hj) as (s_j & Hsj & _).
    destruct (Htag j s_j ch' Hsj Hj) as (-> & _ & Htags').
    eapply Forall_impl; [exact Htags'|]. intros sev ->. lia.
  - apply Forall_concat, Forall_lookup. intros j ch' Hj.
    rewrite lookup_drop in Hj.
    destruct (Forall2_lookup_r _ _ _ _ _ HF Hj) as (s_j & Hsj & _).
    destruct (Htag _ s_j ch' Hsj Hj) as (-> & _ & Htags').
    eapply Forall_impl; [exact Htags'|]. intros sev ->. lia.
  - lia.
Qed.

Lemma iteration_saves cfg s l c r :
  iteration cfg s l = (c, r) ->
  Forall (fun sev => in_saving sev.2 = false) c \/
  exists ck pre post,
    ck_step ck = s /\
    c = at_step s pre ++ (s, EvTorchSave (stamped_path cfg s) ck)
          :: (s, EvTorchSave (model_save_path l) ck) :: at_step s post /\
    Forall (fun ev => in_saving ev = false) pre /\
    Forall (fun ev => in_saving ev = false) post.
Proof.
  intros Hit.
  apply iteration_shape in Hit
    as (loss & co & fi & lr & n & sv & rn & -> & Hsv & _).
  assert (H1 : Forall (fun ev => in_saving ev = false) (step_calls (logger l) s loss co fi lr n)).
  { eapply Forall_impl; [apply step_calls_kind|]. by intros ? [? _]. }
  assert (H3 : Forall (fun ev => in_saving ev = false)
                 match rn with
                 | Some m => render_calls cfg s m (render_data l)
                 | None => []
                 end).
  { destruct rn; [apply render_calls_kind|constructor]. }
  destruct sv as [[ck ec]|].
  - right. destruct (Hsv ck ec eq_refl) as [Hck Hec].
    exists ck, (step_calls (logger l) s loss co fi lr n),
      (ec ++ match rn with
             | Some m => render_calls cfg s m (render_data l)
             | None => []
             end).
    split_and!; try done.
    + unfold save_calls, stamped_path. by rewrite !at_step_app.
    + apply Forall_app. split; [|done].
      destruct (eval_data l); [|subst ec; constructor].
      destruct Hec as (a & b & k & -> & _).
      eapply Forall_impl; [apply eval_calls_kind|]. by intros ? [? _].
  - left. unfold at_step. apply Forall_map. cbn [snd].
    rewrite !Forall_app. split_and!; [done|constructor|done].
Qed.

Lemma untouched_of_off cfg p (c : list (Z * Event)) :
  checkpoint_path cfg p ->
  Forall (fun sev => off_checkpoints cfg sev.2) c ->
  Forall (fun sev => in_saving sev.2 = false) c ->
  Forall (fun sev => target sev.2 <> Some p) c.
Proof.
  intros Hp Hoff Hns. rewrite List.Forall_forall in *.
  intros sev Hin Ht. by apply (Hoff sev Hin (Hns sev Hin) p Ht).
Qed.

Lemma at_step_Forall (P : Event -> Prop) s evs :
  Forall P evs -> Forall (fun sev : Z * Event => P sev.2) (at_step s evs).
Proof. intros H. unfold at_step. by apply Forall_map. Qed.

(** The saves of a run: the iteration that saves does it twice, with one
    record; and the last save of the run is what its two files hold. *)
Lemma run_saves cfg l c r s :
  training_loop cfg l = (c, r) ->
  logger l = event_file (train_dir cfg) ->
  model_save_path l = latest_path cfg ->
  saving_ran s c ->
  exists ck,
    ck_step ck = s /\
    (forall p ck', In (s, EvTorchSave p ck') c <->
       ck' = ck /\ (p = stamped_path cfg s \/ p = latest_path cfg)) /\
    forall w, (forall s', saving_ran s' c -> s' <= s) ->
      fs (foldl perform w c) !! latest_path cfg = Some (FCkpt ck) /\
      fs (foldl perform w c) !! stamped_path cfg s = Some (FCkpt ck).
Proof.
  intros Hl Hlg Hp (ev & Hin & Hev).
  pose proof (loop_off_checkpoints _ _ _ _ Hl Hlg) as Hoff.
  destruct (loop_split _ _ _ _ _ _ Hl Hin)
    as (c1 & c_s & c2 & l_s & r_s & -> & Hit & Henv & Hc1 & Hc2 & _).
  assert (Hmid : forall ev', In (s, ev') (c1 ++ c_s ++ c2) <-> In (s, ev') c_s).
  { intros ev'. rewrite !in_app_iff. split; [|tauto].
    rewrite List.Forall_forall in Hc1, Hc2.
    intros [H|[H|H]]; [apply Hc1 in H; cbn in H; lia|done|apply Hc2 in H; cbn in H; lia]. }
  destruct Henv as (_ & Hp' & _). rewrite Hp in Hp'.
  apply iteration_saves in Hit as [Hnone|(ck & pre & post & Hck & -> & Hpre & Hpost)].
  { apply Hmid in Hin. rewrite List.Forall_forall in Hnone. apply Hnone in Hin.
    cbn in Hin. congruence. }
  rewrite Hp' in *. exists ck. split; [done|]. split.
  - intros p ck'. rewrite Hmid. rewrite in_app_iff. cbn [In]. split.
    + intros [H|[H|[H|H]]].
      * apply in_at_step in H as [_ H]. rewrite List.Forall_forall in Hpre.
        by apply Hpre in H.
      * injection H as <- <-. auto.
      * injection H as <- <-. auto.
      * apply in_at_step in H as [_ H]. rewrite List.Forall_forall in Hpost.
        by apply Hpost in H.
    + intros [-> [->| ->]]; auto.
  - intros w Hmax.
    assert (Hc2' : Forall (fun sev => in_saving sev.2 = false) c2).
    { rewrite List.Forall_forall in Hc2 |- *. intros [s' ev'] Hin'.
      destruct (in_saving ev') eqn:E; [|done]. cbn.
      assert (s' <= s); [|apply Hc2 in Hin'; cbn in Hin'; lia].
      apply Hmax. exists ev'. split; [|done]. rewrite !in_app_iff. auto. }
    rewrite !Forall_app in Hoff. destruct Hoff as (_ & (_ & Hoff_s) & Hoff2).
    apply Forall_cons in Hoff_s as [_ Hoff_s]. apply Forall_cons in Hoff_s as [_ Hoff_post].
    assert (Htail : forall p, checkpoint_path cfg p ->
              Forall (fun sev => target sev.2 <> Some p) (at_step s post ++ c2)).
    { intros p Hcp. apply Forall_app. split.
      - apply (untouched_of_off cfg); [done|done|].
        by apply (at_step_Forall (fun ev => in_saving ev = false)).
      - by apply (untouched_of_off cfg). }
    split.
    + replace (c1 ++ (at_step s pre ++ (s, EvTorchSave (stamped_path cfg s) ck)
                 :: (s, EvTorchSave (latest_path cfg) ck) :: at_step s post) ++ c2)
        with ((c1 ++ at_step s pre ++ [(s, EvTorchSave (stamped_path cfg s) ck)])
              ++ (s, EvTorchSave (latest_path cfg) ck) :: (at_step s post ++ c2)).
      2: { rewrite <- !app_assoc. cbn. done. }
      apply fs_last_save. apply Htail. by left.
    + replace (c1 ++ (at_step s pre ++ (s, EvTorchSave (stamped_path cfg s) ck)
                 :: (s, EvTorchSave (latest_path cfg) ck) :: at_step s post) ++ c2)
        with ((c1 ++ at_step s pre)
              ++ (s, EvTorchSave (stamped_path cfg s) ck)
              :: ((s, EvTorchSave (latest_path cfg) ck) :: at_step s post ++ c2)).
      2: { rewrite <- !app_assoc. cbn. done. }
      apply fs_last_save. constructor.
      * cbn. intros [= H]. by apply (stamped_not_latest cfg s).
      * apply Htail. right. by exists s.
Qed.


(** *** Checks that compute, for concrete runs *)


Lemma rendering_ran_check s tr :
  existsb (fun sev : Z * Event => (sev.1 =? s) && in_rendering sev.2) tr = true ->
  rendering_ran s tr.
Proof.
  intros H. apply existsb_exists in H as ([s' ev] & Hin & H).
  apply andb_true_iff in H as [Hs Hk]. apply Z.eqb_eq in Hs. cbn in Hs, Hk. subst s'.
  by exists ev.
Qed.
End DriverFacts.

(** ** Names of files *)

Module NameFacts.
Import Path PathFacts.

Lemma length_append a b :
  String.length (a +:+ b) = (String.length a + String.length b)%nat.
Proof. induction a as [|x a IH]; [done|]. rewrite append_cons. cbn. by rewrite IH. Qed.

Lemma append_inj_r a b c : a +:+ c = b +:+ c -> a = b.
Proof.
  revert b. induction a as [|x a IH]; intros [|y b] H.
  - done.
  - apply (f_equal String.length) in H. rewrite !length_append in H. cbn in H. lia.
  - apply (f_equal String.length) in H. rewrite !length_append in H. cbn in H. lia.
  - rewrite !append_cons in H. injection H as -> H. f_equal. by apply IH.
Qed.

Lemma stamped_name_inj s s' : stamped_name s = stamped_name s' -> s = s'.
Proof.
  unfold stamped_name, fmt_int. intros H.
  apply String.app_inj in H. apply append_inj_r in H. by apply (inj pretty).
Qed.

Lemma image_name_inj s i j : image_name s i = image_name s j -> i = j.
Proof.
  unfold image_name, fmt_int. intros H.
  do 3 apply String.app_inj in H. apply append_inj_r in H. by apply (inj pretty).
Qed.

Lemma prefix_append a b : String.prefix a (a +:+ b) = true.
Proof.
  induction a as [|x a IH]; [by destruct b|]. rewrite append_cons. cbn [String.prefix].
  by destruct (ascii_dec x x).
Qed.

Lemma prefix_weaken a b p : String.prefix (a +:+ b) p = true -> String.prefix a p = true.
Proof.
  revert p. induction a as [|x a IH]; intros p H; [by destruct p|].
  rewrite append_cons in H. destruct p as [|y p]; [done|]. cbn [String.prefix] in *.
  destruct (ascii_dec x y); [by apply IH|done].
Qed.

Lemma join_prefix d name :
  startswith_sep name = false -> String.prefix (dir_prefix d) (join d name) = true.
Proof. intros Hn. rewrite join_relative by done. apply prefix_append. Qed.

Lemma under_train_prefix d p :
  under (join d "train") p = true -> String.prefix (dir_prefix d) p = true.
Proof.
  unfold under. rewrite join_relative by done. rewrite append_assoc. apply prefix_weaken.
Qed.

Lemma pretty_N_char_no_sep x : pretty_N_char x <> "/"%char.
Proof. unfold pretty_N_char. repeat case_match; done. Qed.

Lemma pretty_N_go_no_sep x : forall s, no_sep s -> no_sep (pretty_N_go x s).
Proof.
  induction (N.lt_wf_0 x) as [x _ IH]. intros s Hs.
  destruct (decide (x = 0)%N) as [->|Hx]; [by rewrite pretty_N_go_0|].
  rewrite pretty_N_go_step by lia. apply IH.
  - apply N.div_lt; lia.
  - split; [apply pretty_N_char_no_sep|done].
Qed.

Lemma no_sep_app a b : no_sep a -> no_sep b -> no_sep (a +:+ b).
Proof.
  intros Ha Hb. induction a as [|x a IH]; [done|]. rewrite append_cons.
  destruct Ha. split; auto.
Qed.

Lemma fmt_int_no_sep n : no_sep (fmt_int n).
Proof.
  unfold fmt_int, pretty, pretty_Z.
  assert (Hpos : forall p : positive, no_sep (pretty p)).
  { intros p. unfold pretty, pretty_positive, pretty, pretty_N.
    rewrite decide_False by done. by apply pretty_N_go_no_sep. }
  destruct n as [|p|p]; [done|apply Hpos|]. by apply (no_sep_app "-").
Qed.

(** Two names that agree up to their first separator agree before it and
    after it. *)
Lemma no_sep_split a b x y :
  no_sep a -> no_sep b -> a +:+ String "/" x = b +:+ String "/" y -> a = b /\ x = y.
Proof.
  revert b. induction a as [|c a IH]; intros [|d b] Ha Hb H.
  - by injection H.
  - rewrite append_cons in H. injection H as <- _. by destruct Hb.
  - rewrite append_cons in H. injection H as -> _. by destruct Ha.
  - rewrite !append_cons in H. injection H as -> H.
    destruct Ha as [_ Ha], Hb as [_ Hb]. destruct (IH b Ha Hb H) as [-> ->]. done.
Qed.

Lemma image_name_inj2 s i s' j : image_name s i = image_name s' j -> s = s' /\ i = j.
Proof.
  intros H. assert (s = s') as <-; [|split; [done|by apply (image_name_inj s)]].
  unfold image_name in H. apply String.app_inj in H.
  change ("/image_" +:+ ?x) with (String "/" ("image_" +:+ x)) in H.
  apply no_sep_split in H as [H _]; [|apply fmt_int_no_sep..].
  by apply (inj pretty).
Qed.

Lemma video_name_inj s s' : video_name s = video_name s' -> s = s'.
Proof.
  unfold video_name. intros H. apply String.app_inj in H.
  change "/video.mp4" with (String "/" "video.mp4") in H.
  apply no_sep_split in H as [H _]; [|apply fmt_int_no_sep..].
  by apply (inj pretty).
Qed.

Lemma image_name_not_video s i s' : image_name s i <> video_name s'.
Proof.
  unfold image_name, video_name. intros H. apply String.app_inj in H.
  change ("/image_" +:+ ?x) with (String "/" ("image_" +:+ x)) in H.
  change "/video.mp4" with (String "/" "video.mp4") in H.
  apply no_sep_split in H as [_ H]; [|apply fmt_int_no_sep..]. done.
Qed.

End NameFacts.

(** ** Further properties of the driver *)

Section MoreFacts.

Import PathFacts NameFacts.

Context {FD : FrameworkData} {FW : Framework}.

Local Ltac pair_inv :=
  let E := fresh "E" in
  intros E; pose proof (f_equal fst E) as ?Hc; pose proof (f_equal snd E) as ?Hr;
  cbn [fst snd] in *; clear E; subst.

Lemma event_file_prefix cfg :
  String.prefix (Path.dir_prefix (log_dir cfg)) (event_file (train_dir cfg)) = true.
Proof. apply under_train_prefix, event_file_under. Qed.

Lemma loop_inside_log_dir cfg l c r :
  training_loop cfg l = (c, r) ->
  logger l = event_file (train_dir cfg) ->
  model_save_path l = latest_path cfg ->
  Forall (fun sev => inside_log_dir cfg sev.2) c.
Proof.
  intros Hl Hlg Hp.
  assert (Hscalar : forall e, inside_log_dir cfg (EvAddScalar (logger l) e)).
  { intros e q [= <-]. rewrite Hlg. apply event_file_prefix. }
  apply (loop_Forall (fun _ => inside_log_dir cfg) _ _ _ _ Hl).
  - intros. unfold step_calls. apply Forall_app. split; [by repeat constructor|].
    apply Forall_take. repeat constructor; apply Hscalar.
  - intros s ck _. rewrite Hp. unfold save_calls, latest_path.
    repeat constructor; intros q [= <-]; by apply join_prefix.
  - intros. unfold eval_calls. apply Forall_app. split; [by repeat constructor|].
    apply Forall_take. repeat constructor; apply Hscalar.
  - intros s m _. unfold render_calls. rewrite !Forall_app. split_and!.
    + by repeat constructor.
    + apply Forall_map, Forall_forall. done.
    + apply Forall_image_calls. intros k img _ q [= <-]. by apply join_prefix.
    + repeat constructor. intros q [= <-]. by apply join_prefix.
Qed.

(** X1. [train_model] creates, changes and deletes files below [log_dir]
    only: whatever the run does and however it ends, a path that does not
    start with [log_dir] (and its separator) holds after the run what it
    held before. *)
Theorem writes_stay_in_log_dir cfg w r w' p :
  train_model cfg w = (r, w') ->
  String.prefix (Path.dir_prefix (log_dir cfg)) p = false ->
  fs w' !! p = fs w !! p.
Proof.
  intros Hrun Hp.
  apply train_model_inv in Hrun as [(e & Hst & ->)|(l & w1 & c & Hst & Hl & ->)].
  { by apply startup_raise in Hst as (_ & -> & _). }
  apply startup_ok in Hst as (Hlg & Hsp & _ & _ & _ & _ & Hfs & _).
  rewrite fs_perform, effect_untouched.
  - rewrite Hfs. rewrite lookup_insert_ne.
    2: { intros <-. by rewrite event_file_prefix in Hp. }
    apply option_eq. intros x. rewrite map_lookup_filter_Some. cbn. split; [tauto|].
    intros Hx. split; [done|].
    destruct (Path.under (train_dir cfg) p) eqn:E; [|done].
    apply under_train_prefix in E. congruence.
  - eapply Forall_impl; [apply (loop_inside_log_dir _ _ _ _ Hl Hlg Hsp)|].
    intros [s ev] Hin Heq. cbn in *. apply Hin in Heq. congruence.
Qed.

Lemma stamped_path_inj cfg s s' : stamped_path cfg s = stamped_path cfg s' -> s = s'.
Proof. intros H. apply join_inj in H; [|done|done]. by apply stamped_name_inj. Qed.

(** A stamped snapshot written by the loop is still there when the loop
    ends. *)
Lemma loop_snapshot cfg l c r s ck :
  training_loop cfg l = (c, r) ->
  logger l = event_file (train_dir cfg) ->
  model_save_path l = latest_path cfg ->
  In (s, EvTorchSave (stamped_path cfg s) ck) c ->
  ck_step ck = s /\
  forall w, fs (foldl perform w c) !! stamped_path cfg s = Some (FCkpt ck).
Proof.
  intros Hl Hlg Hp Hin.
  pose proof (loop_off_checkpoints _ _ _ _ Hl Hlg) as Hoff.
  assert (Hsaves : forall s' p ck', In (s', EvTorchSave p ck') c ->
            ck_step ck' = s' /\ (p = stamped_path cfg s' \/ p = latest_path cfg)).
  { intros s' p ck' Hin'.
    assert (Hran : saving_ran s' c) by (by exists (EvTorchSave p ck')).
    destruct (run_saves _ _ _ _ s' Hl Hlg Hp Hran) as (ck0 & Hck0 & Hcalls & _).
    apply Hcalls in Hin' as [Heq Hpp]. by subst ck'. }
  split; [by destruct (Hsaves _ _ _ Hin)|]. intros w.
  destruct (loop_split _ _ _ _ _ _ Hl Hin)
    as (c1 & c_s & c2 & l_s & r_s & -> & Hit & Henv & Hc1 & Hc2 & _).
  assert (Hin_s : In (s, EvTorchSave (stamped_path cfg s) ck) c_s).
  { rewrite !in_app_iff in Hin. rewrite List.Forall_forall in Hc1, Hc2.
    destruct Hin as [H|[H|H]]; [apply Hc1 in H; cbn in H; lia|done|
                                 apply Hc2 in H; cbn in H; lia]. }
  destruct Henv as (_ & Hp' & _). rewrite Hp in Hp'.
  apply iteration_saves in Hit as [Hnone|(ck0 & pre & post & Hck & -> & Hpre & Hpost)].
  { rewrite List.Forall_forall in Hnone. apply Hnone in Hin_s. done. }
  rewrite Hp' in *.
  assert (ck0 = ck) as ->.
  { rewrite in_app_iff in Hin_s. cbn [In] in Hin_s.
    destruct Hin_s as [H|[H|[H|H]]].
    - apply in_at_step in H as [_ H]. rewrite List.Forall_forall in Hpre.
      by apply Hpre in H.
    - by injection H.
    - by injection H.
    - apply in_at_step in H as [_ H]. rewrite List.Forall_forall in Hpost.
      by apply Hpost in H. }
  replace (c1 ++ (at_step s pre ++ (s, EvTorchSave (stamped_path cfg s) ck)
             :: (s, EvTorchSave (latest_path cfg) ck) :: at_step s post) ++ c2)
    with ((c1 ++ at_step s pre)
          ++ (s, EvTorchSave (stamped_path cfg s) ck)
          :: ((s, EvTorchSave (latest_path cfg) ck) :: at_step s post ++ c2)).
  2: { rewrite <- !app_assoc. cbn. done. }
  apply fs_last_save. constructor.
  { cbn. intros [= H]. by apply (stamped_not_latest cfg s). }
  rewrite !Forall_app in Hoff. destruct Hoff as (_ & (_ & Hoff_s) & Hoff2).
  apply Forall_cons in Hoff_s as [_ Hoff_s]. apply Forall_cons in Hoff_s as [_ Hoff_post].
  apply Forall_app. split.
  - apply (untouched_of_off cfg); [right; by exists s|done|].
    by apply (at_step_Forall (fun ev => in_saving ev = false)).
  - rewrite List.Forall_forall in Hc2, Hoff2 |- *. intros [s' ev'] Hin'.
    pose proof (Hc2 _ Hin') as Hlt. pose proof (Hoff2 _ Hin') as Hoff'. cbn in *.
    destruct (in_saving ev') eqn:E.
    + destruct ev' as [| | | |q ck'| | | |]; try done. intros [= Hq]. subst q.
      destruct (Hsaves s' (stamped_path cfg s) ck') as [_ [H|H]].
      * rewrite !in_app_iff. auto.
      * apply stamped_path_inj in H. lia.
      * by apply (stamped_not_latest cfg s).
    + intros Hq. apply (Hoff' E _ Hq). right. by exists s.
Qed.

(** X2. The step-stamped snapshots are never overwritten: when the run
    ends, however it ends, the file [<log_dir>/model_<s>.pt] of every step
    [s] that saved still holds the record that was saved at step [s]. *)
Theorem snapshots_are_kept cfg w r w' s ck :
  train_model cfg w = (r, w') -> trace w = [] ->
  In (s, EvTorchSave (stamped_path cfg s) ck) (trace w') ->
  ck_step ck = s /\ fs w' !! stamped_path cfg s = Some (FCkpt ck).
Proof.
  intros Hrun Htr Hin.
  apply train_model_inv in Hrun as [(e & Hst & ->)|(l & w1 & c & Hst & Hl & ->)].
  { apply startup_raise in Hst as (_ & -> & _). rewrite Htr in Hin. done. }
  rewrite trace_perform in Hin.
  apply startup_ok in Hst as (Hlg & Hp & _ & _ & _ & Htr' & _).
  rewrite Htr', Htr in Hin. cbn [app] in Hin.
  destruct (loop_snapshot _ _ _ _ _ _ Hl Hlg Hp Hin) as [Hck Hfs]. by split.
Qed.

(** An iteration that completes, taken apart. *)
Lemma iteration_inv cfg s l c l' :
  iteration cfg s l = (c, Ok l') ->
  exists c1 l1 c2 l2 c3,
    stepping cfg s l = (c1, Ok l1) /\
    save_every cfg <> 0 /\
    (if s mod save_every cfg =? 0 then saving cfg s l1 else ret l1) = (c2, Ok l2) /\
    render_every cfg <> 0 /\
    (if s mod render_every cfg =? 0 then rendering cfg s l2 else ret l2) = (c3, Ok l') /\
    c = c1 ++ c2 ++ c3.
Proof.
  unfold iteration. rewrite bind_eq.
  destruct (stepping cfg s l) as [c1 [l1|e1]] eqn:H1; cbn [fst snd]; [|done].
  rewrite bind_lift. unfold py_mod. destruct (Z.eqb_spec (save_every cfg) 0) as [Hs0|Hs0].
  { by cbn. }
  rewrite bind_eq.
  destruct (if s `mod` save_every cfg =? 0 then saving cfg s l1 else ret l1)
    as [c2 [l2|e2]] eqn:H2; cbn [fst snd]; [|done].
  rewrite bind_lift. destruct (Z.eqb_spec (render_every cfg) 0) as [Hr0|Hr0].
  { by cbn. }
  destruct (if s `mod` render_every cfg =? 0 then rendering cfg s l2 else ret l2)
    as [c3 r3] eqn:H3; cbn [fst snd].
  pair_inv. exists c1, l1, c2, l2, c3. by split_and!.
Qed.

Lemma stepping_state cfg s l c l' :
  stepping cfg s l = (c, Ok l') ->
  train_state l' = optimisation_step (train_state l) /\ eval_data l' = eval_data l.
Proof.
  unfold stepping, train_state, optimisation_step. cbn [model_train params training].
  destruct (next_batch (data l)) as [[rays pixels] d].
  destruct (NeRFLoss _ _ _ _) as [loss psnr].
  destruct (backward_step _ _ _ _ _) as [p o].
  destruct (scheduler_step _ _) as [sch o'].
  destruct (py_last psnr) as [fine|e]; [|by cbn].
  destruct (py_last (get_last_lr sch)) as [lr|e]; [|by cbn].
  cbn. by intros [= _ <-].
Qed.

Lemma saving_state cfg s l c l' :
  saving cfg s l = (c, Ok l') ->
  train_state l' = train_state l /\ eval_data l' = advance <$> eval_data l.
Proof.
  unfold saving, save_model, eval_model, train_state, advance.
  destruct (eval_data l) as [ed|] eqn:Hed.
  - destruct (next_batch ed) as [[rays pixels] d] eqn:Hnb. cbn.
    set (psnr := map _ _). clearbody psnr.
    destruct (py_last psnr) as [fine|e]; [|by cbn].
    cbn. intros [= _ <-]. cbn. by rewrite Hnb.
  - cbn. intros [= _ <-]. by rewrite Hed.
Qed.

Lemma iteration_state cfg s l c l' :
  iteration cfg s l = (c, Ok l') ->
  train_state l' = optimisation_step (train_state l) /\
  eval_data l' = if s mod save_every cfg =? 0 then advance <$> eval_data l else eval_data l.
Proof.
  intros Hit.
  apply iteration_inv in Hit as (c1 & l1 & c2 & l2 & c3 & H1 & _ & H2 & _ & H3 & _).
  apply stepping_state in H1 as [Hs1 He1].
  assert (train_state l' = train_state l2 /\ eval_data l' = eval_data l2) as [-> ->].
  { destruct (s mod render_every cfg =? 0).
    - rewrite rendering_shape in H3. by injection H3 as _ <-.
    - by injection H3 as _ <-. }
  destruct (s mod save_every cfg =? 0).
  - apply saving_state in H2 as [-> ->]. by rewrite Hs1, He1.
  - injection H2 as _ <-. done.
Qed.

Lemma for_each_state cfg steps l c l' :
  for_each steps (iteration cfg) l = (c, Ok l') ->
  train_state l' = Nat.iter (length steps) optimisation_step (train_state l) /\
  eval_data l' = Nat.iter (length (saving_steps cfg steps)) (fmap advance) (eval_data l).
Proof.
  revert l c. induction steps as [|s steps IH]; intros l c.
  - by intros [= _ <-].
  - cbn [for_each]. rewrite bind_eq.
    destruct (iteration cfg s l) as [c1 [l1|e1]] eqn:H1; cbn [fst snd]; [|done].
    destruct (for_each steps (iteration cfg) l1) as [c2 r2] eqn:H2. cbn [fst snd].
    pair_inv. apply IH in H2 as [-> ->]. apply iteration_state in H1 as [-> ->].
    cbn [length]. rewrite Nat.iter_succ_r. split; [done|].
    unfold saving_steps. rewrite filter_cons.
    destruct (Z.eqb_spec (s mod save_every cfg) 0) as [Hm|Hm].
    + rewrite decide_True by done. cbn [length]. by rewrite Nat.iter_succ_r.
    + by rewrite decide_False by done.
Qed.

Lemma startup_data cfg w l w' :
  startup cfg w = (Ok l, w') ->
  data l = get_dataloader cfg "train" /\
  eval_data l = if do_eval cfg then Some (get_dataloader cfg "test") else None.
Proof.
  unfold startup. rewrite M_bind_eq, restore_spec.
  destruct (continue_training cfg).
  - destruct (fs w !! _) as [[ck| | |]|]; try done.
    destruct (MipLRDecay _ _) as [sch o]. cbn. by intros [= <- _].
  - destruct (MipLRDecay _ _) as [sch o]. cbn. by intros [= <- _].
Qed.

Lemma length_py_range a b : length (py_range a b) = Z.to_nat (b - a).
Proof. unfold py_range. apply length_seqZ. Qed.

(** X3. Saving, evaluating and rendering never touch what is being
    trained: after a completed run the parameters, the optimizer, the
    schedule and the training iterator are those that the run started
    with, advanced by one optimisation step per loop step, whatever the
    two cadences and [do_eval] are. *)
Theorem side_tasks_leave_training_alone cfg w l w' :
  train_model cfg w = (Ok l, w') ->
  exists l0 w1,
    startup cfg w = (Ok l0, w1) /\
    train_state l =
      Nat.iter (Z.to_nat (max_steps cfg - start_step l0)) optimisation_step (train_state l0).
Proof.
  intros Hrun.
  apply completed_run in Hrun as (l0 & w1 & c & Hst & Hl & _).
  exists l0, w1. split; [done|].
  apply for_each_state in Hl as [-> _]. by rewrite length_py_range.
Qed.

Lemma iter_advance n st :
  (Nat.iter n optimisation_step st).2 = Nat.iter n advance st.2.
Proof.
  induction n as [|n IH]; [done|]. rewrite !Nat.iter_succ, <- IH.
  destruct (Nat.iter n optimisation_step st) as [[[p o] s] d].
  unfold optimisation_step, advance. cbn [snd].
  destruct (next_batch d) as [[rays pixels] d'].
  destruct (backward_step _ _ _ _ _) as [p' o'].
  by destruct (scheduler_step _ _).
Qed.

Lemma iter_fmap {A} (f : A -> A) n (x : A) : Nat.iter n (fmap f) (Some x) = Some (Nat.iter n f x).
Proof. induction n as [|n IH]; [done|]. by rewrite !Nat.iter_succ, IH. Qed.

Lemma iter_fmap_None {A} (f : A -> A) n : Nat.iter n (fmap f) (@None A) = None.
Proof. induction n as [|n IH]; [done|]. by rewrite !Nat.iter_succ, IH. Qed.

(** X4. A completed run has drawn exactly one training batch per loop
    step, from a fresh iterator (also when it resumed from a checkpoint),
    and, with [do_eval], exactly one held-out batch per saving step. *)
Theorem batches_drawn cfg w l w' :
  train_model cfg w = (Ok l, w') ->
  data l = Nat.iter (Z.to_nat (max_steps cfg - start_step l)) advance
             (get_dataloader cfg "train") /\
  eval_data l =
    if do_eval cfg
    then Some (Nat.iter
                 (length (saving_steps cfg (py_range (start_step l) (max_steps cfg))))
                 advance (get_dataloader cfg "test"))
    else None.
Proof.
  intros Hrun.
  apply completed_run in Hrun as (l0 & w1 & c & Hst & Hl & Henv & _).
  destruct Henv as (_ & _ & -> & _).
  apply startup_data in Hst as [Hd He].
  apply for_each_state in Hl as [Hts ->]. rewrite length_py_range in Hts.
  split.
  - apply (f_equal snd) in Hts. rewrite iter_advance in Hts. cbn in Hts. by rewrite Hts, Hd.
  - rewrite He. destruct (do_eval cfg); [apply iter_fmap|apply iter_fmap_None].
Qed.

(** The record that the saving branch of an iteration writes holds the
    parameters and the optimizer state that the iteration ends with. *)
Lemma iteration_checkpoint cfg s l c l' :
  iteration cfg s l = (c, Ok l') -> s mod save_every cfg = 0 ->
  In (s, EvTorchSave (model_save_path l)
           {| ck_state_dict := params (model l'); ck_optimizer := optimizer l';
              ck_step := s |}) c.
Proof.
  intros Hit Hm.
  apply iteration_inv in Hit as (c1 & l1 & c2 & l2 & c3 & H1 & _ & H2 & _ & H3 & ->).
  assert (train_state l' = train_state l2) as Hs3.
  { destruct (s mod render_every cfg =? 0).
    - rewrite rendering_shape in H3. by injection H3 as _ <-.
    - by injection H3 as _ <-. }
  rewrite Hm in H2. cbn in H2.
  pose proof (saving_state _ _ _ _ _ H2) as [Hs2 _].
  apply saving_shape in H2 as (co & fi & n & -> & _).
  apply stepping_shape in H1 as (_ & _ & _ & _ & _ & _ & _ & _ & Henv).
  destruct Henv as (_ & Hp & _).
  rewrite Hs2 in Hs3. injection Hs3 as -> -> _ _.
  rewrite !in_app_iff. right. left. apply in_at_step. split; [done|].
  rewrite in_app_iff. left. unfold save_calls. rewrite Hp. right. by left.
Qed.

Lemma for_each_last cfg steps l c l' s :
  for_each steps (iteration cfg) l = (c, Ok l') -> last steps = Some s ->
  exists l_s c_s,
    same_env l l_s /\ iteration cfg s l_s = (c_s, Ok l') /\ (forall sev, In sev c_s -> In sev c).
Proof.
  revert l c. induction steps as [|s0 steps IH]; intros l c; [done|].
  cbn [for_each]. rewrite bind_eq.
  destruct (iteration cfg s0 l) as [c1 [l1|e1]] eqn:H1; cbn [fst snd]; [|done].
  destruct (for_each steps (iteration cfg) l1) as [c2 r2] eqn:H2. cbn [fst snd].
  pair_inv. destruct steps as [|s1 steps].
  - injection H2 as <- <-. intros [= <-]. exists l, c1.
    split_and!; [apply same_env_refl|done|]. intros sev. rewrite app_nil_r. done.
  - rewrite last_cons_cons. intros Hlast.
    destruct (IH _ _ H2 Hlast) as (l_s & c_s & Henv & Hit & Hin).
    exists l_s, c_s. split_and!; [|done|].
    + eapply same_env_trans; [|done].
      apply iteration_shape in H1. destruct H1 as (?&?&?&?&?&?&?&_&_&_&H1). apply H1.
    + intros sev Hsev. apply in_app_iff. right. by apply Hin.
Qed.

(** X5. If the last step of a completed run is a saving step, then
    [<log_dir>/model.pt] holds exactly the state the run ended with: the
    final parameters and optimizer state, under the number of the last
    step, [max_steps - 1]; a run that resumes from it therefore starts at
    step [max_steps - 1] again, not after it. *)
Theorem final_checkpoint_is_final_state cfg w l w' :
  train_model cfg w = (Ok l, w') ->
  start_step l < max_steps cfg ->
  (max_steps cfg - 1) mod save_every cfg = 0 ->
  fs w' !! latest_path cfg
    = Some (FCkpt {| ck_state_dict := model_state_dict (model l);
                     ck_optimizer := optimizer l;
                     ck_step := max_steps cfg - 1 |}) /\
  forall cfg2, log_dir cfg2 = log_dir cfg -> continue_training cfg2 = true ->
    exists l2 w2,
      startup cfg2 w' = (Ok l2, w2) /\
      start_step l2 = max_steps cfg - 1 /\
      model_state_dict (model l2) = model_state_dict (model l) /\
      (scheduler l2, optimizer l2) = MipLRDecay cfg2 (optimizer l).
Proof.
  intros Hrun Hrange Hm.
  apply completed_run in Hrun as (l0 & w1 & c & Hst & Hl & Henv & _ & ->).
  apply startup_ok in Hst as (Hlg & Hp & _).
  pose proof Henv as (_ & _ & Hss & _). rewrite Hss in Hrange.
  set (ck := {| ck_state_dict := model_state_dict (model l);
                ck_optimizer := optimizer l; ck_step := max_steps cfg - 1 |}).
  assert (Hin : In (max_steps cfg - 1, EvTorchSave (latest_path cfg) ck) c).
  { pose proof Hl as Hl'. unfold training_loop in Hl'.
    eapply for_each_last in Hl' as (l_s & c_s & Henv_s & Hit & Hsub).
    2: { rewrite last_py_range. by rewrite bool_decide_eq_true_2. }
    apply Hsub. destruct Henv_s as (_ & Hp_s & _). rewrite <- Hp, <- Hp_s.
    apply (iteration_checkpoint cfg _ _ _ _ Hit Hm). }
  assert (Hfs : fs (foldl perform w1 c) !! latest_path cfg = Some (FCkpt ck)).
  { assert (Hran : saving_ran (max_steps cfg - 1) c).
    { by exists (EvTorchSave (latest_path cfg) ck). }
    destruct (run_saves _ _ _ _ _ Hl Hlg Hp Hran) as (ck' & _ & Hcalls & Hfs).
    apply Hcalls in Hin as [-> _]. apply Hfs.
    intros s' (ev & Hin' & _).
    apply (loop_call_inv _ _ _ _ _ _ Hl) in Hin' as (l_s & c_s & r_s & _ & _ & _ & ? & _). lia. }
  split; [done|].
  intros cfg2 Hdir Hcont.
  destruct (startup cfg2 (foldl perform w1 c)) as [[l2|e] w2] eqn:Hst2.
  - exists l2, w2. split; [done|].
    apply startup_ok in Hst2 as (_ & _ & _ & _ & _ & _ & _ & Hres).
    rewrite Hcont in Hres. destruct Hres as (ck2 & Hck2 & H1 & H2 & H3).
    unfold latest_path in Hck2, Hfs. rewrite Hdir, Hfs in Hck2.
    injection Hck2 as <-. done.
  - apply startup_raise in Hst2 as (_ & _ & Hno).
    unfold latest_path in Hno, Hfs. rewrite Hdir, Hfs in Hno. done.
Qed.

Lemma py_range_cons a b : a < b -> py_range a b = a :: py_range (a + 1) b.
Proof.
  intros H. unfold py_range. rewrite seqZ_cons by lia. f_equal. f_equal; lia.
Qed.

Lemma py_range_nil a b : b <= a -> py_range a b = [].
Proof. intros H. unfold py_range. by rewrite seqZ_nil by lia. Qed.

(** A loop whose first iteration raises stops there. *)
Lemma loop_first_raise cfg l c e :
  start_step l < max_steps cfg ->
  iteration cfg (start_step l) l = (c, Raise e) ->
  training_loop cfg l = (c, Raise e).
Proof.
  intros Hrange Hit. unfold training_loop. rewrite py_range_cons by done.
  cbn [for_each]. rewrite bind_eq, Hit. done.
Qed.

Lemma train_model_run cfg w l w1 :
  startup cfg w = (Ok l, w1) ->
  train_model cfg w
  = ((training_loop cfg l).2, foldl perform w1 (training_loop cfg l).1).
Proof. intros Hst. unfold train_model. rewrite M_bind_eq, Hst. done. Qed.

Lemma iteration_zero_cadence cfg s l c r :
  iteration cfg s l = (c, r) ->
  save_every cfg = 0 \/ render_every cfg = 0 ->
  (exists e, r = Raise e /\ (e = ZeroDivisionError \/ e = IndexError)) /\
  Forall (stopped_early cfg s) c.
Proof.
  intros Hit Hz. split.
  { apply iteration_shape in Hit as (?&?&?&?&?&?&?&_&_&_&Hr).
    destruct r as [l'|e]; [|exists e; split; [done|tauto]].
    destruct Hr as (_ & ? & ? & _). tauto. }
  revert Hit. unfold iteration. rewrite bind_eq.
  destruct (stepping cfg s l) as [c1 r1] eqn:H1; cbn [fst snd].
  apply stepping_shape in H1 as (loss & coarse & fine & lr & n & -> & H1).
  fold (step_calls (logger l) s loss coarse fine lr n).
  assert (Hc1 : Forall (stopped_early cfg s)
                  (at_step s (step_calls (logger l) s loss coarse fine lr n))).
  { apply Forall_forall. intros [s' ev] Hin. apply list_elem_of_In, in_at_step in Hin as [-> Hin].
    pose proof (step_calls_kind (logger l) s loss coarse fine lr n) as Hk.
    rewrite List.Forall_forall in Hk. destruct (Hk _ Hin). by repeat split. }
  destruct r1 as [l1|e1]; [|by pair_inv].
  destruct H1 as (_ & _ & Henv1).
  rewrite bind_lift. unfold py_mod. destruct (Z.eqb_spec (save_every cfg) 0) as [Hs0|Hs0].
  { cbn [fst snd]. pair_inv. by rewrite app_nil_r. }
  destruct Hz as [?|Hr0]; [done|].
  rewrite bind_eq.
  destruct (if s `mod` save_every cfg =? 0 then saving cfg s l1 else ret l1)
    as [c2 r2] eqn:H2. cbn [fst snd].
  assert (Hc2 : Forall (stopped_early cfg s) c2).
  { destruct (s mod save_every cfg =? 0); [|injection H2 as <- <-; constructor].
    apply saving_shape in H2 as (co & fi & k & -> & _).
    apply Forall_forall. intros [s' ev] Hin. apply list_elem_of_In, in_at_step in Hin as [-> Hin].
    repeat split; [|done]. cbn. apply in_app_iff in Hin as [Hin|Hin].
    - unfold save_calls in Hin. cbn in Hin. by destruct Hin as [<-|[<-|[]]].
    - destruct (eval_data l1); [|done].
      pose proof (eval_calls_kind (logger l1) s co fi k) as Hk.
      rewrite List.Forall_forall in Hk. by destruct (Hk _ Hin). }
  destruct r2 as [l2|e2]; [|pair_inv; by apply Forall_app].
  rewrite bind_lift, Hr0. change (py_mod s 0) with (@Raise Z ZeroDivisionError).
  cbn [fst snd]. pair_inv. rewrite app_nil_r. by apply Forall_app.
Qed.

(** X6. A cadence of zero is fatal as soon as there is a step to run:
    with [save_every = 0] or [render_every = 0] and a non-empty range, the
    run raises in its first iteration, from [step % 0] unless an
    [IndexError] came first; the update of that step is the only one made,
    nothing is rendered, and with [save_every = 0] nothing is saved. *)
Theorem zero_cadence_is_fatal cfg w l w1 :
  startup cfg w = (Ok l, w1) ->
  start_step l < max_steps cfg ->
  save_every cfg = 0 \/ render_every cfg = 0 ->
  exists e c,
    train_model cfg w = (Raise e, foldl perform w1 c) /\
    (e = ZeroDivisionError \/ e = IndexError) /\
    In (start_step l, EvUpdate) c /\
    Forall (stopped_early cfg (start_step l)) c.
Proof.
  intros Hst Hrange Hz. rewrite (train_model_run _ _ _ _ Hst).
  destruct (iteration cfg (start_step l) l) as [c r] eqn:Hit.
  destruct (iteration_zero_cadence _ _ _ _ _ Hit Hz) as [(e & -> & He) Hc].
  rewrite (loop_first_raise _ _ _ _ Hrange Hit). cbn [fst snd].
  exists e, c. split_and!; try done.
  apply iteration_shape in Hit as (?&?&?&?&?&?&?& -> &_).
  apply in_at_step. split; [done|]. unfold step_calls. cbn. auto.
Qed.

Lemma stepping_empty_psnr cfg s l :
  (loss_of cfg (train_state l)).2 = [] ->
  stepping cfg s l = (at_step s (short_step_calls cfg s l), Raise IndexError).
Proof.
  unfold short_step_calls, loss_of, train_state, stepping. cbn [model_train params training].
  destruct (next_batch (data l)) as [[rays pixels] d].
  destruct (NeRFLoss _ _ _ _) as [loss psnr]. cbn [fst snd]. intros ->.
  destruct (backward_step _ _ _ _ _) as [p o].
  by destruct (scheduler_step _ _) as [sch o'].
Qed.

(** X7. If the loss returns no per-level PSNR for the first batch, the
    run dies in its first step with [IndexError], raised by [psnr[-1]]:
    by then the parameters have been updated and two scalars of that step
    have been logged, the loss and the mean of an empty array as coarse
    PSNR; nothing is saved or rendered. *)
Theorem empty_psnr_is_fatal cfg w l w1 :
  startup cfg w = (Ok l, w1) ->
  start_step l < max_steps cfg ->
  (loss_of cfg (train_state l)).2 = [] ->
  exists w',
    train_model cfg w = (Raise IndexError, w') /\
    trace w' = trace w ++ at_step (start_step l) (short_step_calls cfg (start_step l) l).
Proof.
  intros Hst Hrange Hempty. rewrite (train_model_run _ _ _ _ Hst).
  assert (Hit : iteration cfg (start_step l) l
                = (at_step (start_step l) (short_step_calls cfg (start_step l) l),
                   Raise IndexError)).
  { unfold iteration. rewrite bind_eq, stepping_empty_psnr by done. done. }
  pose proof (loop_first_raise _ _ _ _ Hrange Hit) as Hl. rewrite Hl. cbn [fst snd].
  eexists. split; [done|].
  rewrite trace_perform. by apply startup_ok in Hst as (_&_&_&_&_& -> &_).
Qed.

Lemma startup_stdout cfg w l w' :
  startup cfg w = (Ok l, w') ->
  stdout w' = stdout w ++ (if continue_training cfg then [loaded_message] else []).
Proof.
  unfold startup. rewrite M_bind_eq, restore_spec.
  destruct (continue_training cfg).
  - destruct (fs w !! _) as [[ck| | |]|]; try done.
    destruct (MipLRDecay _ _) as [sch o]. cbn. by intros [= _ <-].
  - destruct (MipLRDecay _ _) as [sch o]. cbn. intros [= _ <-]. cbn. by rewrite app_nil_r.
Qed.

(** X8. Resuming a run that has already reached [max_steps] trains
    nothing: no iteration runs, no call is made, the checkpoint stays as
    it is; but the scalar log of the earlier run is still erased and
    replaced by a new event file, and the message about the loaded
    checkpoint is still printed. *)
Theorem resuming_a_finished_run cfg w ck :
  continue_training cfg = true ->
  fs w !! latest_path cfg = Some (FCkpt ck) ->
  max_steps cfg <= ck_step ck ->
  exists l w',
    train_model cfg w = (Ok l, w') /\
    start_step l = ck_step ck /\
    model_state_dict (model l) = ck_state_dict ck /\
    trace w' = trace w /\
    stdout w' = stdout w ++ [loaded_message] /\
    fs w' !! latest_path cfg = Some (FCkpt ck) /\
    fs w' !! event_file (train_dir cfg) = Some FEvents /\
    forall p, Path.under (train_dir cfg) p = true -> p <> event_file (train_dir cfg) ->
              fs w' !! p = None.
Proof.
  intros Hcont Hck Hmax.
  destruct (startup cfg w) as [[l|e] w1] eqn:Hst; cycle 1.
  { apply startup_raise in Hst as (_ & _ & Hno). by rewrite Hck in Hno. }
  rewrite (train_model_run _ _ _ _ Hst).
  pose proof (startup_stdout _ _ _ _ Hst) as Hout. rewrite Hcont in Hout.
  apply startup_ok in Hst as (Hlg & Hp & _ & _ & _ & Htr & Hfs & Hres).
  rewrite Hcont in Hres. destruct Hres as (ck' & Hck' & Hstart & Hsd & _).
  rewrite Hck in Hck'. injection Hck' as <-.
  unfold training_loop. rewrite py_range_nil by lia. cbn.
  exists l, w1. split_and!; try done.
  - rewrite Hfs, lookup_insert_ne.
    2: { intros E. pose proof (event_file_under cfg) as Hu. rewrite E in Hu.
         rewrite checkpoint_not_under in Hu; [done|by left]. }
    apply map_lookup_filter_Some. split; [done|]. cbn.
    apply checkpoint_not_under. by left.
  - rewrite Hfs. apply lookup_insert_eq.
  - intros p Hu Hne. rewrite Hfs, lookup_insert_ne by done.
    apply map_lookup_filter_None. right. intros f _ Hn. cbn [fst] in Hn. congruence.
Qed.

Lemma image_path_inj cfg s i s' j : image_path cfg s i = image_path cfg s' j -> s = s' /\ i = j.
Proof. intros H. apply join_inj in H; [|done|done]. by apply image_name_inj2. Qed.

Lemma video_path_inj cfg s s' : video_path cfg s = video_path cfg s' -> s = s'.
Proof. intros H. apply join_inj in H; [|done|done]. by apply video_name_inj. Qed.

Lemma image_path_not_video cfg s i s' : image_path cfg s i <> video_path cfg s'.
Proof. apply join_neq; [done|done|]. apply image_name_not_video. Qed.

(** The image calls write the paths numbered from [cnt] on. *)
Lemma image_calls_from cfg s cnt frames :
  Forall (fun ev => exists k img, cnt <= k /\ ev = EvImwrite (image_path cfg s k) img)
         (image_calls cfg s cnt frames).
Proof.
  revert cnt. induction frames as [|img frames IH]; intros cnt; cbn; constructor.
  - exists cnt, img. split; [lia|done].
  - eapply Forall_impl; [apply IH|]. intros ev (k & img' & Hk & ->).
    exists k, img'. split; [lia|done].
Qed.

Lemma image_calls_lookup cfg s frames : forall cnt i img,
  frames !! i = Some img ->
  exists l1 l2,
    image_calls cfg s cnt frames
    = l1 ++ EvImwrite (image_path cfg s (cnt + Z.of_nat i)) img :: l2 /\
    Forall (fun ev => target ev <> Some (image_path cfg s (cnt + Z.of_nat i))) l2.
Proof.
  induction frames as [|img0 frames IH]; intros cnt i img Hi; [done|].
  destruct i as [|i]; cbn in Hi.
  - injection Hi as ->. exists [], (image_calls cfg s (cnt + 1) frames).
    replace (cnt + Z.of_nat 0) with cnt by lia. split; [done|].
    eapply Forall_impl; [apply image_calls_from|].
    intros ev (k & img' & Hk & ->) [= H]. apply image_path_inj in H. lia.
  - destruct (IH (cnt + 1) i img Hi) as (l1 & l2 & Heq & Hl2).
    replace (cnt + 1 + Z.of_nat i) with (cnt + Z.of_nat (S i)) in * by lia.
    exists (EvImwrite (Path.join (log_dir cfg) (image_name s cnt)) img0 :: l1), l2.
    split; [|done]. cbn [image_calls]. by rewrite Heq.
Qed.

Lemma image_calls_In cfg s cnt frames p img :
  In (EvImwrite p img) (image_calls cfg s cnt frames) ->
  exists l1 l2,
    image_calls cfg s cnt frames = l1 ++ EvImwrite p img :: l2 /\
    (exists k, p = image_path cfg s k) /\
    Forall (fun ev => target ev <> Some p) l2.
Proof.
  revert cnt. induction frames as [|img0 frames IH]; intros cnt; [done|].
  cbn [image_calls In]. intros [H|H].
  - injection H as <- <-. exists [], (image_calls cfg s (cnt + 1) frames).
    split; [done|]. split; [by exists cnt|].
    eapply Forall_impl; [apply image_calls_from|].
    intros ev (k & img' & Hk & ->) [= H]. apply image_path_inj in H. lia.
  - destruct (IH _ H) as (l1 & l2 & Heq & Hk & Hl2).
    exists (EvImwrite (Path.join (log_dir cfg) (image_name s cnt)) img0 :: l1), l2.
    split; [|done]. by rewrite Heq.
Qed.

(** The file at the target of a call, once the calls after it leave that
    path alone. *)
Lemma fs_last_write w c c1 sev p c2 :
  c = c1 ++ sev :: c2 ->
  Forall (fun sev : Z * Event => target sev.2 <> Some p) c2 ->
  fs (foldl perform w c) !! p
  = effect_at p sev.2 (fs (foldl perform w c1) !! p).
Proof.
  intros -> Hc2. rewrite !fs_perform, foldl_app. cbn [foldl].
  by rewrite effect_untouched.
Qed.

Local Ltac list_norm :=
  unfold at_step;
  repeat progress (rewrite ?map_app; cbn [map app]; rewrite <- ?app_assoc);
  reflexivity.

Lemma length_frames_of m rd chk : length (frames_of m rd chk) = length (rl_batches rd).
Proof. unfold frames_of. apply length_map. Qed.

(** X9. What the rendering branch leaves on disk, in any world: one
    frame per render batch; frame number [i] (from 0, in the order of the
    batches) in [<log_dir>/step_<s>/image_<i>.png]; and, if there is a
    frame at all, the video of all the frames, in that order, in
    [<log_dir>/step_<s>/video.mp4] at 30 frames per second and quality 10;
    without frames the video path is left as it was. *)
Theorem rendered_files cfg s l w :
  let frames := frames_of (model_eval (model l)) (render_data l) (chunks cfg) in
  let w' := (run (rendering cfg s l) w).2 in
  length frames = length (rl_batches (render_data l)) /\
  (forall i img, frames !! i = Some img ->
     fs w' !! image_path cfg s (Z.of_nat i) = Some (FImage img)) /\
  fs w' !! video_path cfg s
  = match video_of frames 30 10 with
    | Some v => Some v
    | None => fs w !! video_path cfg s
    end.
Proof.
  intros frames w'. split; [apply length_frames_of|].
  subst w'. unfold run. rewrite rendering_shape. cbn [fst snd].
  unfold render_calls. fold frames. split.
  - intros i img Hi.
    destruct (image_calls_lookup cfg s frames 0 i img Hi) as (l1 & l2 & -> & Hl2).
    replace (0 + Z.of_nat i) with (Z.of_nat i) in * by lia.
    rewrite (fs_last_write _ _
               (at_step s ([EvSetMode false; EvPrint (render_message l)]
                           ++ map (fun _ => EvRenderImage (training (model_eval (model l)))
                                              (rl_h (render_data l)) (rl_w (render_data l))
                                              (chunks cfg))
                                (rl_batches (render_data l))
                           ++ l1))
               (s, EvImwrite (image_path cfg s (Z.of_nat i)) img)
               _
               (at_step s (l2 ++ [EvMimwrite (video_path cfg s) frames 30 10]))).
    + cbn. by rewrite bool_decide_eq_true_2.
    + unfold render_message, video_path. list_norm.
    + apply (at_step_Forall (fun ev => target ev <> Some _)), Forall_app. split; [done|].
      repeat constructor. cbn. intros [= H]. symmetry in H.
      by apply image_path_not_video in H.
  - rewrite (fs_last_write _ _
               (at_step s ([EvSetMode false; EvPrint (render_message l)]
                           ++ map (fun _ => EvRenderImage (training (model_eval (model l)))
                                              (rl_h (render_data l)) (rl_w (render_data l))
                                              (chunks cfg))
                                (rl_batches (render_data l))
                           ++ image_calls cfg s 0 frames))
               (s, EvMimwrite (video_path cfg s) frames 30 10) _ []).
    + cbn. rewrite bool_decide_eq_true_2 by done.
      destruct (video_of frames 30 10); [done|].
      rewrite fs_perform, effect_untouched; [done|].
      apply (at_step_Forall (fun ev => target ev <> Some _)).
      apply Forall_app. split.
      * by apply Forall_map, Forall_forall.
      * apply Forall_image_calls. intros k img _ [= H]. by apply image_path_not_video in H.
    + unfold render_message, video_path. list_norm.
    + constructor.
Qed.

Lemma loop_writes_for_step cfg l c r :
  training_loop cfg l = (c, r) ->
  logger l = event_file (train_dir cfg) ->
  model_save_path l = latest_path cfg ->
  Forall (fun sev => writes_for_step cfg sev.1 sev.2) c.
Proof.
  intros Hl Hlg Hp.
  assert (Hscalar : forall s e, writes_for_step cfg s (EvAddScalar (logger l) e)).
  { intros s e q [= <-]. by left. }
  apply (loop_Forall (writes_for_step cfg) _ _ _ _ Hl).
  - intros. unfold step_calls. apply Forall_app. split.
    + repeat (apply List.Forall_cons; [done|]). apply List.Forall_nil.
    + apply Forall_take. repeat (apply List.Forall_cons; [apply Hscalar|]). apply List.Forall_nil.
  - intros s ck _. rewrite Hp. unfold save_calls.
    apply List.Forall_cons; [|apply List.Forall_cons; [|apply List.Forall_nil]]; intros q [= <-]; right; left.
    + right. by exists s.
    + by left.
  - intros. unfold eval_calls. apply Forall_app. split.
    + repeat (apply List.Forall_cons; [done|]). apply List.Forall_nil.
    + apply Forall_take. repeat (apply List.Forall_cons; [apply Hscalar|]). apply List.Forall_nil.
  - intros s m _. unfold render_calls. rewrite !Forall_app. split_and!.
    + repeat (apply List.Forall_cons; [done|]). apply List.Forall_nil.
    + apply Forall_map, Forall_forall. done.
    + apply Forall_image_calls. intros k img _ q [= <-]. right; right; left. by exists k.
    + apply List.Forall_cons; [|apply List.Forall_nil]. intros q [= <-]. by do 3 right.
Qed.

(** Calls of later iterations write neither the images nor the video of
    step [s]. *)
Lemma later_steps_leave_previews cfg s p (c : list (Z * Event)) :
  (exists i, p = image_path cfg s i) \/ p = video_path cfg s ->
  Forall (fun sev => writes_for_step cfg sev.1 sev.2) c ->
  Forall (fun sev => s < sev.1) c ->
  Forall (fun sev => target sev.2 <> Some p) c.
Proof.
  intros Hp Hw Hlt. rewrite List.Forall_forall in *. intros [s' ev] Hin Ht.
  specialize (Hw _ Hin _ Ht). specialize (Hlt _ Hin). cbn in *.
  assert (Hnu : Path.under (train_dir cfg) p = false).
  { destruct Hp as [[i ->]| ->]; by apply not_under_train. }
  assert (Hnc : ~ checkpoint_path cfg p).
  { destruct Hp as [[i ->]| ->]; by apply step_name_off_checkpoints. }
  destruct Hw as [->|[Hc|[[j ->]| ->]]].
  - by rewrite event_file_under in Hnu.
  - done.
  - destruct Hp as [[i H]|H].
    + apply image_path_inj in H. lia.
    + by apply image_path_not_video in H.
  - destruct Hp as [[i H]|H].
    + symmetry in H. by apply image_path_not_video in H.
    + apply video_path_inj in H. lia.
Qed.

(** The calls of an iteration, with its rendering part apart. *)
Lemma iteration_render_part cfg s l c r :
  iteration cfg s l = (c, r) ->
  exists pre rn,
    c = at_step s (pre ++ rn) /\
    Forall (fun ev => in_rendering ev = false) pre /\
    (rn = [] \/ exists m, rn = render_calls cfg s m (render_data l)).
Proof.
  intros Hit.
  apply iteration_shape in Hit
    as (loss & co & fi & lr & n & sv & rn & -> & Hsv & _).
  exists (step_calls (logger l) s loss co fi lr n
          ++ match sv with
             | Some (ck, ec) => save_calls cfg (model_save_path l) s ck ++ ec
             | None => []
             end),
         match rn with Some m => render_calls cfg s m (render_data l) | None => [] end.
  split; [by rewrite <- app_assoc|]. split.
  - apply Forall_app. split.
    + eapply Forall_impl; [apply step_calls_kind|]. by intros ev [_ ?].
    + destruct sv as [[ck ec]|]; [|constructor].
      apply Forall_app. split; [by repeat constructor|].
      destruct (Hsv ck ec eq_refl) as [_ Hec].
      destruct (eval_data l); [|subst ec; constructor].
      destruct Hec as (eco & efi & k & -> & _).
      eapply Forall_impl; [apply eval_calls_kind|]. by intros ev [_ ?].
  - destruct rn as [m|]; [right; by exists m|by left].
Qed.

Lemma stdout_perform w c : stdout (foldl perform w c) = stdout w ++ printed c.
Proof.
  revert w. induction c as [|[s ev] c IH]; intros w; cbn [foldl]; [by rewrite app_nil_r|].
  rewrite IH. unfold printed. cbn. destruct ev; cbn; try done. by rewrite <- app_assoc.
Qed.

Lemma printed_at_step_silent s evs :
  Forall (fun ev => in_rendering ev = false) evs -> printed (at_step s evs) = [].
Proof.
  intros H. unfold printed, at_step. apply omap_none, Forall_map.
  eapply Forall_impl; [exact H|]. by intros [].
Qed.

Lemma printed_app a b : printed (a ++ b) = printed a ++ printed b.
Proof. apply omap_app. Qed.

Lemma printed_render_calls cfg s m l :
  printed (at_step s (render_calls cfg s m (render_data l))) = [render_message l].
Proof.
  unfold render_calls, printed. rewrite !at_step_app, !omap_app. cbn.
  rewrite (omap_none _ (at_step s (map _ _))), (omap_none _ (at_step s (image_calls _ _ _ _))).
  - done.
  - unfold at_step. apply Forall_map.
    eapply Forall_impl; [apply image_calls_from|]. by intros ev (? & ? & _ & ->).
  - unfold at_step. apply Forall_map, Forall_map, Forall_forall. done.
Qed.

Lemma iteration_printed cfg s l c l' :
  iteration cfg s l = (c, Ok l') ->
  printed c = if s mod render_every cfg =? 0 then [render_message l] else [].
Proof.
  intros Hit. pose proof Hit as Hit'.
  apply iteration_shape in Hit
    as (loss & co & fi & lr & n & sv & rn & -> & Hsv & _ & _ & _ & _ & _ & Hrn & _).
  apply iteration_render_part in Hit' as (pre & rn' & Hc & Hpre & _).
  rewrite !at_step_app, !printed_app.
  rewrite printed_at_step_silent.
  2: { eapply Forall_impl; [apply step_calls_kind|]. by intros ev [_ ?]. }
  rewrite printed_at_step_silent.
  2: { destruct sv as [[ck ec]|]; [|constructor].
       apply Forall_app. split; [by repeat constructor|].
       destruct (Hsv ck ec eq_refl) as [_ Hec].
       destruct (eval_data l); [|subst ec; constructor].
       destruct Hec as (eco & efi & k & -> & _).
       eapply Forall_impl; [apply eval_calls_kind|]. by intros ev [_ ?]. }
  cbn [app]. destruct (Z.eqb_spec (s mod render_every cfg) 0) as [Hm|Hm].
  - apply Hrn in Hm as [m ->]. apply printed_render_calls.
  - destruct rn as [m|]; [|done]. destruct Hm. apply Hrn. eauto.
Qed.

Lemma for_each_printed cfg steps l c l' :
  for_each steps (iteration cfg) l = (c, Ok l') ->
  printed c = map (fun _ => render_message l) (rendering_steps cfg steps).
Proof.
  revert l c. induction steps as [|s steps IH]; intros l c.
  - by intros [= <- _].
  - cbn [for_each]. rewrite bind_eq.
    destruct (iteration cfg s l) as [c1 [l1|e1]] eqn:H1; cbn [fst snd]; [|done].
    destruct (for_each steps (iteration cfg) l1) as [c2 r2] eqn:H2. cbn [fst snd].
    pair_inv. rewrite printed_app. rewrite (IH _ _ H2).
    rewrite (iteration_printed _ _ _ _ _ H1).
    assert (render_message l1 = render_message l) as ->.
    { apply iteration_shape in H1. destruct H1 as (?&?&?&?&?&?&?&_&_&_&H1).
      destruct H1 as (_&_&_&_&_&(_&_&_&Hrd&_)&_). unfold render_message. by rewrite Hrd. }
    unfold rendering_steps. rewrite filter_cons.
    destruct (Z.eqb_spec (s mod render_every cfg) 0) as [Hm|Hm].
    + by rewrite decide_True by done.
    + by rewrite decide_False by done.
Qed.

(** X10. What a completed run prints: the message about the loaded
    checkpoint if it resumed, then one message per rendering step, each
    with the number of render batches. *)
Theorem messages_printed cfg w l w' :
  train_model cfg w = (Ok l, w') ->
  stdout w'
  = stdout w
    ++ (if continue_training cfg then [loaded_message] else [])
    ++ map (fun _ => render_message l)
         (rendering_steps cfg (py_range (start_step l) (max_steps cfg))).
Proof.
  intros Hrun.
  apply completed_run in Hrun as (l0 & w1 & c & Hst & Hl & Henv & _ & ->).
  rewrite stdout_perform, (startup_stdout _ _ _ _ Hst), <- app_assoc.
  do 2 f_equal. rewrite (for_each_printed _ _ _ _ _ Hl).
  destruct Henv as (_ & _ & -> & Hrd & _). unfold render_message. by rewrite Hrd.
Qed.

Lemma for_each_app cfg a b l :
  for_each (a ++ b) (iteration cfg) l
  = bind (for_each a (iteration cfg) l) (for_each b (iteration cfg)).
Proof.
  revert l. induction a as [|s a IH]; intros l.
  - cbn [app for_each]. unfold ret. by rewrite bind_lift.
  - cbn [app for_each]. rewrite !bind_eq.
    destruct (iteration cfg s l) as [c1 [l1|e1]]; cbn [fst snd]; [|done].
    rewrite IH, !bind_eq.
    destruct (for_each a (iteration cfg) l1) as [c2 [l2|e2]]; cbn [fst snd]; [|done].
    by rewrite app_assoc.
Qed.

Lemma py_range_split a s b :
  a <= s < b -> py_range a b = py_range a s ++ s :: py_range (s + 1) b.
Proof.
  intros H. unfold py_range.
  replace (b - a) with ((s - a) + (b - s)) by lia.
  rewrite seqZ_app by lia. f_equal.
  replace (a + (s - a)) with s by lia.
  rewrite seqZ_cons by lia. f_equal. f_equal; lia.
Qed.

Lemma scalars_of_Forall (Q : ScalarEvent -> Prop) (c : list (Z * Event)) :
  Forall (fun sev => forall e, scalar_of sev.2 = Some e -> Q e) c -> Forall Q (scalars_of c).
Proof.
  induction 1 as [|sev c Hsev _ IH]; [constructor|].
  unfold scalars_of. cbn [omap list_omap]. destruct (scalar_of sev.2) as [e|] eqn:E; [|done].
  constructor; [by apply Hsev|done].
Qed.

(** The records of an iteration carry its step. *)
Lemma iteration_records_step cfg s l c r :
  iteration cfg s l = (c, r) -> Forall (fun e => global_step e = s) (scalars_of c).
Proof.
  intros Hit. apply scalars_of_Forall.
  pose proof (iteration_shape _ _ _ _ _ Hit) as (?&?&?&?&?&?&?& Hc &_).
  assert (HF : Forall (fun sev : Z * Event =>
                 forall e, scalar_of sev.2 = Some e -> global_step e = sev.1) c).
  { apply (iteration_Forall (fun s ev => forall e, scalar_of ev = Some e -> global_step e = s)
             _ _ _ _ _ Hit).
    - intros. unfold step_calls. apply Forall_app. split.
      + repeat (apply List.Forall_cons; [done|]). apply List.Forall_nil.
      + apply Forall_take.
        repeat (apply List.Forall_cons; [by intros e [= <-]|]). apply List.Forall_nil.
    - intros. unfold save_calls.
      repeat (apply List.Forall_cons; [done|]). apply List.Forall_nil.
    - intros. unfold eval_calls. apply Forall_app. split.
      + repeat (apply List.Forall_cons; [done|]). apply List.Forall_nil.
      + apply Forall_take.
        repeat (apply List.Forall_cons; [by intros e [= <-]|]). apply List.Forall_nil.
    - intros m _. unfold render_calls. rewrite !Forall_app. split_and!.
      + repeat (apply List.Forall_cons; [done|]). apply List.Forall_nil.
      + apply Forall_map, Forall_forall. done.
      + apply Forall_image_calls. done.
      + apply List.Forall_cons; [done|apply List.Forall_nil]. }
  rewrite List.Forall_forall in HF |- *. intros [s' ev] Hsev e He.
  rewrite (HF _ Hsev _ He). rewrite Hc in Hsev. by apply in_at_step in Hsev as [-> _].
Qed.

Lemma for_each_records_step cfg steps l c r :
  for_each steps (iteration cfg) l = (c, r) ->
  Forall (fun e => global_step e ∈ steps) (scalars_of c).
Proof.
  revert l c r. induction steps as [|s steps IH]; intros l c r.
  - intros [= <- _]. constructor.
  - cbn [for_each]. rewrite bind_eq.
    destruct (iteration cfg s l) as [c1 r1] eqn:H1. cbn [fst snd].
    apply iteration_records_step in H1.
    assert (H1' : Forall (fun e => global_step e ∈ s :: steps) (scalars_of c1)).
    { eapply Forall_impl; [exact H1|]. intros e ->. by left. }
    destruct r1 as [l1|e1]; [|by pair_inv].
    destruct (for_each steps (iteration cfg) l1) as [c2 r2] eqn:H2. cbn [fst snd].
    pair_inv. unfold scalars_of. rewrite omap_app. apply Forall_app. split; [done|].
    eapply Forall_impl; [apply (IH _ _ _ H2)|]. intros e He. by right.
Qed.

Lemma events_at_none s recs :
  Forall (fun e => global_step e <> s) recs -> events_at s recs = [].
Proof.
  induction 1 as [|e recs He _ IH]; [done|].
  unfold events_at in *. rewrite filter_cons, decide_False by done. exact IH.
Qed.

(** A completed loop, taken apart at one of its steps: the iterations
    before it, its own, and the records that the log holds for it. *)
Lemma loop_at_step cfg l c l' s :
  training_loop cfg l = (c, Ok l') -> start_step l <= s < max_steps cfg ->
  exists c1 l_s c_s l_s' c2,
    for_each (py_range (start_step l) s) (iteration cfg) l = (c1, Ok l_s) /\
    iteration cfg s l_s = (c_s, Ok l_s') /\
    c = c1 ++ c_s ++ c2 /\
    events_at s (scalars_of c) = scalars_of c_s.
Proof.
  unfold training_loop. intros Hl Hrange.
  rewrite (py_range_split _ s) in Hl by done.
  rewrite for_each_app, bind_eq in Hl.
  destruct (for_each (py_range (start_step l) s) (iteration cfg) l)
    as [c1 [l_s|e]] eqn:H1; cbn [fst snd] in Hl; [|done].
  cbn [for_each] in Hl. rewrite bind_eq in Hl.
  destruct (iteration cfg s l_s) as [c_s [l_s'|e]] eqn:H2; cbn [fst snd] in Hl; [|done].
  destruct (for_each (py_range (s + 1) (max_steps cfg)) (iteration cfg) l_s')
    as [c2 r2] eqn:H3; cbn [fst snd] in Hl.
  injection Hl as <- ->.
  exists c1, l_s, c_s, l_s', c2. split_and!; try done.
  unfold scalars_of. rewrite !omap_app, !events_at_app.
  fold (scalars_of c1) (scalars_of c_s) (scalars_of c2).
  rewrite (events_at_same s (scalars_of c_s)) by (by eapply iteration_records_step).
  assert (events_at s (scalars_of c1) = []) as ->.
  { apply for_each_records_step in H1. apply events_at_none.
    eapply Forall_impl; [exact H1|].
    intros e He Heq. cbn beta in He. rewrite Heq in He. apply elem_of_seqZ in He. lia. }
  assert (events_at s (scalars_of c2) = []) as ->.
  { apply for_each_records_step in H3. apply events_at_none.
    eapply Forall_impl; [exact H3|].
    intros e He Heq. cbn beta in He. rewrite Heq in He. apply elem_of_seqZ in He. lia. }
  by rewrite app_nil_r.
Qed.

(** The five records of a step that completes, by value. *)
Lemma stepping_values cfg s l c l' :
  stepping cfg s l = (c, Ok l') ->
  exists fine lr,
    py_last (loss_of cfg (train_state l)).2 = Ok fine /\
    py_last (get_last_lr (schedule_of (optimisation_step (train_state l)))) = Ok lr /\
    scalars_of c
    = train_records s (loss_of cfg (train_state l)).1
        (py_init (loss_of cfg (train_state l)).2) fine lr.
Proof.
  unfold stepping, loss_of, schedule_of, optimisation_step, train_state.
  cbn [model_train params training].
  destruct (next_batch (data l)) as [[rays pixels] d].
  destruct (NeRFLoss _ _ _ _) as [loss psnr].
  destruct (backward_step _ _ _ _ _) as [p o].
  destruct (scheduler_step _ _) as [sch o']. cbn [fst snd].
  destruct (py_last psnr) as [fine|e] eqn:Hp; [|by cbn].
  destruct (py_last (get_last_lr sch)) as [lr|e] eqn:Hl; [|by cbn].
  cbn. intros [= <- _]. exists fine, lr. split_and!; [done|done|].
  apply py_last_Ok in Hp. unfold train_records. by rewrite <- Hp.
Qed.

(** The three records of an evaluation that completes, by value. *)
Lemma saving_values cfg s l c l' ed :
  saving cfg s l = (c, Ok l') -> eval_data l = Some ed ->
  exists fine,
    py_last (eval_psnr (params (model l)) ed) = Ok fine /\
    scalars_of c = eval_records s (py_init (eval_psnr (params (model l)) ed)) fine.
Proof.
  unfold saving, save_model, eval_model, eval_psnr. intros Hs Hed. rewrite Hed in Hs.
  revert Hs. cbn [model_eval model_train params training].
  destruct (next_batch ed) as [[rays pixels] d]. cbn.
  set (psnr := map _ _). clearbody psnr.
  destruct (py_last psnr) as [fine|e] eqn:Hp; [|by cbn].
  cbn. intros [= <- _]. exists fine. split; [done|].
  apply py_last_Ok in Hp. unfold eval_records. by rewrite <- Hp.
Qed.

Lemma saving_silent_without_eval cfg s l c l' :
  saving cfg s l = (c, Ok l') -> eval_data l = None -> scalars_of c = [].
Proof.
  unfold saving, save_model. intros Hs Hed. rewrite Hed in Hs. by injection Hs as <- _.
Qed.

Lemma rendering_silent cfg s l : scalars_of (rendering cfg s l).1 = [].
Proof.
  rewrite rendering_shape. cbn [fst]. rewrite scalars_of_at_step.
  apply render_calls_silent.
Qed.

(** The records of an iteration that completes, by value: the five of the
    step, computed from the state before the update (and the learning
    rate after it), then those of the evaluation if any, computed with
    the parameters that the iteration ends with. *)
Lemma iteration_values cfg s l c l' :
  iteration cfg s l = (c, Ok l') ->
  exists fine lr evl,
    py_last (loss_of cfg (train_state l)).2 = Ok fine /\
    py_last (get_last_lr (schedule_of (optimisation_step (train_state l)))) = Ok lr /\
    scalars_of c
    = train_records s (loss_of cfg (train_state l)).1
        (py_init (loss_of cfg (train_state l)).2) fine lr ++ evl /\
    match eval_data l with
    | Some ed =>
        if s mod save_every cfg =? 0
        then exists efine,
               py_last (eval_psnr (params (model l')) ed) = Ok efine /\
               evl = eval_records s (py_init (eval_psnr (params (model l')) ed)) efine
        else evl = []
    | None => evl = []
    end.
Proof.
  intros Hit.
  apply iteration_inv in Hit as (c1 & l1 & c2 & l2 & c3 & H1 & _ & H2 & _ & H3 & ->).
  pose proof (stepping_state _ _ _ _ _ H1) as [Hst1 Hed1].
  apply stepping_values in H1 as (fine & lr & Hf & Hlr & Hc1).
  exists fine, lr, (scalars_of c2). split_and!; [done|done| |].
  - unfold scalars_of. rewrite !omap_app.
    fold (scalars_of c1) (scalars_of c2) (scalars_of c3). rewrite Hc1. f_equal.
    assert (scalars_of c3 = []) as ->; [|by rewrite app_nil_r].
    destruct (s mod render_every cfg =? 0).
    + pose proof (rendering_silent cfg s l2) as Hs. by rewrite H3 in Hs.
    + by injection H3 as <- _.
  - assert (params (model l') = params (model l2)) as ->.
    { destruct (s mod render_every cfg =? 0).
      - rewrite rendering_shape in H3. by injection H3 as _ <-.
      - by injection H3 as _ <-. }
    rewrite <- Hed1. destruct (s mod save_every cfg =? 0).
    + pose proof (saving_state _ _ _ _ _ H2) as [Hst2 _].
      assert (params (model l2) = params (model l1)) as -> by (by injection Hst2).
      destruct (eval_data l1) as [ed|] eqn:Hed.
      * destruct (saving_values _ _ _ _ _ _ H2 Hed) as (efine & ? & ?). by exists efine.
      * by apply (saving_silent_without_eval _ _ _ _ _ H2).
    + injection H2 as <- _. by destruct (eval_data l1).
Qed.

Lemma take_app_length' {A} (a b : list A) n : length a = n -> take n (a ++ b) = a.
Proof. intros <-. by rewrite take_app_length. Qed.

Lemma drop_app_length' {A} (a b : list A) n : length a = n -> drop n (a ++ b) = b.
Proof. intros <-. by rewrite drop_app_length. Qed.

(** *** The scalars of a run, by value *)

(** The [add_scalar] calls of a completed run for one of its steps, by
    value: the five of lines 77-81, computed from the state in which the
    step starts (and the learning rate from the schedule after its step),
    followed by the three of the evaluation exactly when evaluation is
    enabled and the step saves. *)
Lemma run_step_records cfg w l w' :
  train_model cfg w = (Ok l, w') ->
  exists l0 w1 c,
    startup cfg w = (Ok l0, w1) /\ start_step l0 = start_step l /\
    training_loop cfg l0 = (c, Ok l) /\ trace w' = trace w ++ c /\
    forall s, start_step l <= s < max_steps cfg ->
      let st := state_at (train_state l0) (start_step l) s in
      exists fine lr evl,
        py_last (loss_of cfg st).2 = Ok fine /\
        py_last (get_last_lr (schedule_of (optimisation_step st))) = Ok lr /\
        events_at s (scalars_of c)
        = train_records s (loss_of cfg st).1 (py_init (loss_of cfg st).2) fine lr ++ evl /\
        if do_eval cfg && (s mod save_every cfg =? 0)
        then exists eco efi, evl = eval_records s eco efi
        else evl = [].
Proof.
  intros Hrun.
  apply completed_run in Hrun as (l0 & w1 & c & Hst & Hl & Henv & Htr & ->).
  exists l0, w1, c. pose proof Henv as (_ & _ & Hss & _).
  split_and!; [done|done|done|done|].
  intros s Hrange st. rewrite Hss in Hrange.
  destruct (loop_at_step _ _ _ _ _ Hl Hrange)
    as (c1 & l_s & c_s & l_s' & c2 & H1 & H2 & _ & ->).
  assert (Henv_s : same_env l0 l_s).
  { apply for_each_chunks in H1 as (? & ? & _ & _ & Hok). by destruct (Hok _ eq_refl). }
  apply for_each_state in H1 as [Hts _]. rewrite length_py_range in Hts.
  apply iteration_values in H2 as (fine & lr & evl & Hf & Hlr & -> & Hevl).
  subst st. unfold state_at. rewrite Hss, <- Hts.
  exists fine, lr, evl. split_and!; [done|done|done|].
  apply startup_ok in Hst as (_ & _ & _ & Hed & _).
  destruct Henv_s as (_ & _ & _ & _ & Hed_s).
  destruct (do_eval cfg) eqn:Hde; cbn [andb].
  - destruct (eval_data l_s) as [ed|] eqn:E.
    + destruct (s mod save_every cfg =? 0); [|done].
      destruct Hevl as (efine & _ & ->). eauto.
    + assert (eval_data l0 = None) as Hn by (by apply Hed_s). apply Hed in Hn. congruence.
  - destruct (eval_data l_s) as [ed|] eqn:E; [|done].
    assert (eval_data l0 = None) as Hn by (by apply Hed). apply Hed_s in Hn. congruence.
Qed.

Lemma logged_app t (a b : list ScalarEvent) :
  map value (filter (fun e : ScalarEvent => tag e = t) (a ++ b))
  = map value (filter (fun e => tag e = t) a) ++ map value (filter (fun e => tag e = t) b).
Proof. by rewrite filter_app, map_app. Qed.

(** What the records of a step hold under the training tags. *)
Lemma logged_train_records t s loss co fi lr evl :
  (evl = [] \/ exists eco efi, evl = eval_records s eco efi) ->
  map value (filter (fun e : ScalarEvent => tag e = t) (train_records s loss co fi lr ++ evl))
  = if decide (t = "train/loss") then [loss]
    else if decide (t = "train/coarse_psnr") then [np_mean co]
    else if decide (t = "train/fine_psnr") then [fi]
    else if decide (t = "train/avg_psnr") then [np_mean (co ++ [fi])]
    else if decide (t = "train/lr") then [lr]
    else map value (filter (fun e : ScalarEvent => tag e = t) evl).
Proof.
  intros Hevl. rewrite logged_app. unfold train_records.
  assert (Hev : forall t', String.prefix "train/" t' = true ->
            map value (filter (fun e : ScalarEvent => tag e = t') evl) = []).
  { intros t' Ht'. destruct Hevl as [->|(eco & efi & ->)]; [done|].
    unfold eval_records. rewrite !filter_cons, filter_nil. cbn [tag].
    repeat (rewrite decide_False; [|by intros <-]). done. }
  rewrite !filter_cons, filter_nil. cbn [tag].
  repeat case_decide; subst; try done; cbn [map app value]; rewrite ?Hev by done; done.
Qed.


(** C2. In a run that completes, take any step [s] in range and the
    array [psnr] of per-level PSNRs that the loss returned for the batch
    of that step (line 70, on the parameters before the update of step
    [s]).  The array has a last level [fine], so that it is the coarse
    levels [py_init psnr] followed by [fine], and for step [s] exactly one
    value is logged under each of the three tags: under
    "train/coarse_psnr" the mean of all levels but the last, under
    "train/fine_psnr" the last level, and under "train/avg_psnr" the mean
    of the whole array, that is of the coarse levels followed by the fine
    one, and not a mean of the two logged values. *)
Theorem psnr_aggregation cfg w l w' :
  train_model cfg w = (Ok l, w') ->
  exists l0 w1 c,
    startup cfg w = (Ok l0, w1) /\ trace w' = trace w ++ c /\
    forall s, start_step l <= s < max_steps cfg ->
      let psnr := (loss_of cfg (state_at (train_state l0) (start_step l) s)).2 in
      exists fine,
        py_last psnr = Ok fine /\
        psnr = py_init psnr ++ [fine] /\
        logged "train/coarse_psnr" s c = [np_mean (py_init psnr)] /\
        logged "train/fine_psnr" s c = [fine] /\
        logged "train/avg_psnr" s c = [np_mean psnr].
Proof.
  intros Hrun.
  apply run_step_records in Hrun as (l0 & w1 & c & Hst & _ & _ & Htr & Hrec).
  exists l0, w1, c. split_and!; [done|done|].
  intros s Hrange psnr.
  destruct (Hrec s Hrange) as (fine & lr & evl & Hf & _ & Hev & Hevl).
  fold psnr in Hf, Hev. exists fine.
  pose proof (py_last_Ok _ _ Hf) as Hp.
  assert (Hevl' : evl = [] \/ exists eco efi, evl = eval_records s eco efi).
  { destruct (_ && _); [by right|by left]. }
  unfold logged. rewrite Hev, !logged_train_records by done. cbn.
  rewrite <- Hp. by split_and!.
Qed.

(** C4. In a run that completes, every [add_scalar] call is made on the
    writer created at line 61 and is keyed by the step of the iteration
    that makes it.  For a step [s] in range the calls start with exactly
    five, in this order: the loss that the loss function returned for the
    batch of the step, the mean of its coarse PSNRs, its fine PSNR, the
    mean of all its PSNRs, and the last learning rate of the schedule
    after its step of this iteration.  What may follow are the three
    records of the evaluation, and only when evaluation is enabled and
    the step saves: with evaluation disabled the five are all there is
    for the step.  Steps out of range have no record. *)
Theorem five_scalars_per_step cfg w l w' :
  train_model cfg w = (Ok l, w') ->
  exists l0 w1 c,
    startup cfg w = (Ok l0, w1) /\ trace w' = trace w ++ c /\
    (forall i lg e, In (i, EvAddScalar lg e) c -> lg = logger l /\ global_step e = i) /\
    forall s,
      (start_step l <= s < max_steps cfg ->
       let st := state_at (train_state l0) (start_step l) s in
       exists fine lr,
         py_last (loss_of cfg st).2 = Ok fine /\
         py_last (get_last_lr (schedule_of (optimisation_step st))) = Ok lr /\
         take 5 (events_at s (scalars_of c))
         = [{| tag := "train/loss"; value := (loss_of cfg st).1; global_step := s |};
            {| tag := "train/coarse_psnr"; value := np_mean (py_init (loss_of cfg st).2);
               global_step := s |};
            {| tag := "train/fine_psnr"; value := fine; global_step := s |};
            {| tag := "train/avg_psnr"; value := np_mean (loss_of cfg st).2;
               global_step := s |};
            {| tag := "train/lr"; value := lr; global_step := s |}] /\
         map tag (drop 5 (events_at s (scalars_of c)))
         = (if do_eval cfg && (s mod save_every cfg =? 0)
            then ["eval/coarse_psnr"; "eval/fine_psnr"; "eval/avg_psnr"] else []) /\
         (do_eval cfg = false -> length (events_at s (scalars_of c)) = 5%nat)) /\
      (~ (start_step l <= s < max_steps cfg) -> events_at s (scalars_of c) = []).
Proof.
  intros Hrun.
  apply run_step_records in Hrun as (l0 & w1 & c & Hst & Hss & Hl & Htr & Hrec).
  exists l0, w1, c. split_and!; [done|done| |].
  - intros i lg e Hin.
    destruct (loop_call_inv _ _ _ _ _ _ Hl Hin) as (l_s & c_s & r_s & Henv & Hit & Hin_s & _).
    pose proof (loop_env _ _ _ _ Hl) as (Hlg & _).
    destruct Henv as (Hlg_s & _).
    assert (HF : Forall (fun sev : Z * Event =>
                   forall lg' e', sev.2 = EvAddScalar lg' e' ->
                     lg' = logger l_s /\ global_step e' = sev.1) c_s).
    { apply (iteration_Forall
               (fun i ev => forall lg' e', ev = EvAddScalar lg' e' ->
                              lg' = logger l_s /\ global_step e' = i) _ _ _ _ _ Hit).
      - intros. unfold step_calls. apply Forall_app. split.
        + repeat (apply List.Forall_cons; [done|]). apply List.Forall_nil.
        + apply Forall_take.
          repeat (apply List.Forall_cons; [by intros ? ? [= <- <-]|]). apply List.Forall_nil.
      - intros. unfold save_calls.
        repeat (apply List.Forall_cons; [done|]). apply List.Forall_nil.
      - intros. unfold eval_calls. apply Forall_app. split.
        + repeat (apply List.Forall_cons; [done|]). apply List.Forall_nil.
        + apply Forall_take.
          repeat (apply List.Forall_cons; [by intros ? ? [= <- <-]|]). apply List.Forall_nil.
      - intros m _. unfold render_calls. rewrite !Forall_app. split_and!.
        + repeat (apply List.Forall_cons; [done|]). apply List.Forall_nil.
        + apply Forall_map, Forall_forall. done.
        + apply Forall_image_calls. done.
        + apply List.Forall_cons; [done|apply List.Forall_nil]. }
    rewrite List.Forall_forall in HF. destruct (HF _ Hin_s lg e eq_refl) as [-> ?].
    split; [congruence|done].
  - intros s. split.
    + intros Hrange st.
      destruct (Hrec s Hrange) as (fine & lr & evl & Hf & Hlr & Hev & Hevl).
      fold st in Hf, Hlr, Hev. exists fine, lr.
      pose proof (py_last_Ok _ _ Hf) as Hp.
      rewrite Hev. split_and!; [done|done| | |].
      * rewrite take_app_length' by done. unfold train_records. by rewrite <- Hp.
      * rewrite drop_app_length' by done.
        destruct (_ && _); [by destruct Hevl as (eco & efi & ->)|by subst evl].
      * intros Hde. rewrite Hde in Hevl. cbn in Hevl. by subst evl.
    + intros Hout. rewrite <- Hss in Hout.
      by apply (proj2 (run_records _ _ _ _ Hl s)).
Qed.

(** C8. Two runs of [train_model] with the same configuration, in worlds
    that agree on the checkpoint to resume from (when resuming is asked
    for) and are otherwise arbitrary, end with the same result and make
    the same calls in the same order.  When they complete, both started
    the loop with the same local variables, and for every step in range
    the one value that each of them logs as loss, as coarse PSNR, as fine
    PSNR and as mean PSNR is the value computed from that common start by
    the optimisation steps made so far: the runs do log at every step,
    and they log the same. *)
Theorem deterministic_run cfg w1 w2 :
  (continue_training cfg = true -> fs w1 !! latest_path cfg = fs w2 !! latest_path cfg) ->
  (train_model cfg w1).1 = (train_model cfg w2).1 /\
  exists c,
    trace (train_model cfg w1).2 = trace w1 ++ c /\
    trace (train_model cfg w2).2 = trace w2 ++ c /\
    forall l, (train_model cfg w1).1 = Ok l ->
      exists l0 v1 v2,
        startup cfg w1 = (Ok l0, v1) /\ startup cfg w2 = (Ok l0, v2) /\
        forall s, start_step l0 <= s < max_steps cfg ->
          let st := state_at (train_state l0) (start_step l0) s in
          exists fine,
            py_last (loss_of cfg st).2 = Ok fine /\
            logged "train/loss" s c = [(loss_of cfg st).1] /\
            logged "train/coarse_psnr" s c = [np_mean (py_init (loss_of cfg st).2)] /\
            logged "train/fine_psnr" s c = [fine] /\
            logged "train/avg_psnr" s c = [np_mean (loss_of cfg st).2].
Proof.
  intros Hck. pose proof (startup_result cfg w1 w2 Hck) as Hst.
  destruct (train_model cfg w1) as [r1 u1] eqn:Hrun1.
  destruct (train_model cfg w2) as [r2 u2] eqn:Hrun2. cbn [fst snd].
  apply train_model_inv in Hrun2 as [(e & H2 & ->)|(l2 & v2 & c2 & H2 & Hl2 & ->)].
  - rewrite H2 in Hst. cbn [fst snd] in Hst.
    pose proof Hrun1 as Hrun1'.
    apply train_model_inv in Hrun1' as [(e' & H1 & ->)|(l1 & v1 & c1 & H1 & _)];
      [|by rewrite H1 in Hst].
    rewrite H1 in Hst. injection Hst as ->. split; [done|]. exists [].
    apply startup_raise in H1 as (_ & -> & _). apply startup_raise in H2 as (_ & -> & _).
    rewrite !app_nil_r. by split_and!.
  - rewrite H2 in Hst. cbn [fst snd] in Hst.
    destruct (startup cfg w1) as [r0 v1] eqn:H1. cbn [fst snd] in Hst. subst r0.
    pose proof Hrun1 as Hrun1'. unfold train_model in Hrun1'.
    rewrite M_bind_eq, H1 in Hrun1'. unfold run in Hrun1'. rewrite Hl2 in Hrun1'.
    injection Hrun1' as <- <-. split; [done|]. exists c2.
    rewrite !trace_perform.
    pose proof (startup_ok _ _ _ _ H1) as (_ & _ & _ & _ & _ & -> & _).
    pose proof (startup_ok _ _ _ _ H2) as (_ & _ & _ & _ & _ & -> & _).
    split_and!; [done|done|]. intros l ->.
    exists l2, v1, v2. split_and!; [done|done|].
    apply run_step_records in Hrun1 as (l0 & w0 & c & Hst0 & Hss & Hl & Htr & Hrec).
    rewrite H1 in Hst0. injection Hst0 as <- <-.
    rewrite Hl2 in Hl. injection Hl as <-.
    intros s Hrange. rewrite Hss in Hrange.
    destruct (Hrec s Hrange) as (fine & lr & evl & Hf & _ & Hev & Hevl).
    rewrite <- Hss in Hf, Hev. exists fine.
    pose proof (py_last_Ok _ _ Hf) as Hp.
    assert (Hevl' : evl = [] \/ exists eco efi, evl = eval_records s eco efi).
    { destruct (_ && _); [by right|by left]. }
    unfold logged. rewrite Hev, !logged_train_records by done. cbn.
    rewrite <- Hp. by split_and!.
Qed.

(** *** Previews *)


(** A video of frames that are 200 by 200 is 208 by 208. *)
Lemma video_of_200 frames fps q :
  frames <> [] -> Forall is_200x200 frames ->
  video_of frames fps q = Some (FVideo frames (208, 208) fps q).
Proof.
  destruct frames as [|img frames]; [done|]. intros _ Hf.
  apply Forall_cons in Hf as [Himg _]. unfold video_of. by rewrite Himg.
Qed.

Lemma frames_of_size m rd chk :
  renders_full_image ->
  Forall (fun img => img_shape img = (rl_h rd, rl_w rd)) (frames_of m rd chk).
Proof. intros Hr. unfold frames_of. apply Forall_map, Forall_forall. intros. apply Hr. Qed.

Lemma loop_previews cfg l c r :
  renders_full_image ->
  training_loop cfg l = (c, r) ->
  rl_h (render_data l) = 200 -> rl_w (render_data l) = 200 ->
  Forall (fun sev => preview_ok sev.2) c.
Proof.
  intros Hri Hl Hh Hw. apply (loop_Forall (fun _ => preview_ok) _ _ _ _ Hl).
  - intros. unfold step_calls. apply Forall_app. split; [by repeat constructor|].
    apply Forall_take. by repeat constructor.
  - intros. by repeat constructor.
  - intros. unfold eval_calls. apply Forall_app. split; [by repeat constructor|].
    apply Forall_take. by repeat constructor.
  - intros s m _.
    pose proof (frames_of_size m (render_data l) (chunks cfg) Hri) as Hf.
    rewrite Hh, Hw in Hf. fold is_200x200 in Hf.
    unfold render_calls. rewrite !Forall_app. split_and!.
    + by repeat constructor.
    + apply Forall_map, Forall_forall. done.
    + apply Forall_image_calls. intros k img Hin. cbn.
      rewrite List.Forall_forall in Hf. by apply Hf.
    + by repeat constructor.
Qed.

(** The rendering calls of a step of a completed loop on which rendering
    is due: they are those of the model in inference mode, with the
    parameters as updated by this step. *)
Lemma loop_render_calls cfg l c l' s :
  training_loop cfg l = (c, Ok l') ->
  start_step l <= s < max_steps cfg -> s mod render_every cfg = 0 ->
  exists p,
    forall ev, In ev (render_calls cfg s {| params := p; training := false |} (render_data l)) ->
               In (s, ev) c.
Proof.
  intros Hl Hrange Hm.
  destruct (loop_at_step _ _ _ _ _ Hl Hrange)
    as (c1 & l_s & c_s & l_s' & c2 & H1 & H2 & -> & _).
  assert (Henv_s : same_env l l_s).
  { apply for_each_chunks in H1 as (? & ? & _ & _ & Hok). by destruct (Hok _ eq_refl). }
  pose proof (iteration_shape _ _ _ _ _ H2)
    as (loss & co & fi & lr & n & sv & rn & -> & _ & Hrn & _ & _ & _ & _ & Hdue & _).
  apply Hdue in Hm as [m ->]. specialize (Hrn m eq_refl).
  exists (params m). intros ev Hin.
  rewrite !in_app_iff. right. left. apply in_at_step. split; [done|].
  rewrite !in_app_iff. right. right.
  destruct Henv_s as (_ & _ & _ & -> & _).
  destruct m as [p tr]. cbn in Hrn. by subst tr.
Qed.

(** Image and video files written by the loop keep what was written. *)
Lemma loop_previews_kept cfg l c r w :
  training_loop cfg l = (c, r) ->
  logger l = event_file (train_dir cfg) ->
  model_save_path l = latest_path cfg ->
  (forall s p img, In (s, EvImwrite p img) c ->
     fs (foldl perform w c) !! p = Some (FImage img)) /\
  (forall s p frames fps q v, In (s, EvMimwrite p frames fps q) c ->
     video_of frames fps q = Some v -> fs (foldl perform w c) !! p = Some v).
Proof.
  intros Hl Hlg Hp.
  pose proof (loop_writes_for_step _ _ _ _ Hl Hlg Hp) as Hw.
  assert (Hsplit : forall s ev, In (s, ev) c -> in_rendering ev = true ->
    exists c1 pre m c2,
      c = c1 ++ at_step s (pre ++ render_calls cfg s m (render_data l)) ++ c2 /\
      Forall (fun ev => in_rendering ev = false) pre /\
      In ev (render_calls cfg s m (render_data l)) /\
      Forall (fun sev => target sev.2 <> Some (video_path cfg s)) c2 /\
      forall i, Forall (fun sev => target sev.2 <> Some (image_path cfg s i)) c2).
  { intros s ev Hin Hev.
    destruct (loop_split _ _ _ _ _ _ Hl Hin)
      as (c1 & c_s & c2 & l_s & r_s & Hc & Hit & Henv & Hc1 & Hc2 & _).
    assert (Hin_s : In (s, ev) c_s).
    { rewrite Hc, !in_app_iff in Hin. rewrite List.Forall_forall in Hc1, Hc2.
      destruct Hin as [H|[H|H]]; [apply Hc1 in H; cbn in H; lia|done|
                                   apply Hc2 in H; cbn in H; lia]. }
    apply iteration_render_part in Hit as (pre & rn & -> & Hpre & Hrn).
    destruct Henv as (_ & _ & _ & Hrd & _). rewrite Hrd in Hrn.
    apply in_at_step in Hin_s as [_ Hin_s]. apply in_app_iff in Hin_s.
    assert (Hin_rn : In ev rn).
    { destruct Hin_s as [H|H]; [|done]. rewrite List.Forall_forall in Hpre.
      apply Hpre in H. congruence. }
    destruct Hrn as [->|[m ->]]; [done|].
    rewrite Hc in Hw. rewrite !Forall_app in Hw. destruct Hw as (_ & _ & Hw2).
    exists c1, pre, m, c2. split_and!; try done.
    - apply (later_steps_leave_previews cfg s); auto.
    - intros i. apply (later_steps_leave_previews cfg s); eauto. }
  split.
  - intros s p img Hin.
    destruct (Hsplit _ _ Hin eq_refl) as (c1 & pre & m & c2 & -> & Hpre & Hrn & _ & Hc2).
    unfold render_calls in Hrn |- *. rewrite !in_app_iff in Hrn.
    destruct Hrn as [H|[H|[H|H]]].
    + cbn in H. by destruct H as [|[|]].
    + apply in_map_iff in H as (? & [=] & _).
    + apply image_calls_In in H as (l1 & l2 & -> & [k ->] & Hl2).
      rewrite (fs_last_write _ _
                 (c1 ++ at_step s (pre ++ [EvSetMode false; EvPrint (render_message l)]
                           ++ map (fun _ => EvRenderImage (training m)
                                              (rl_h (render_data l)) (rl_w (render_data l))
                                              (chunks cfg))
                                (rl_batches (render_data l))
                           ++ l1))
                 (s, EvImwrite (image_path cfg s k) img)
                 _
                 (at_step s (l2 ++ [EvMimwrite (video_path cfg s)
                                      (frames_of m (render_data l) (chunks cfg)) 30 10])
                  ++ c2)).
      * cbn. by rewrite bool_decide_eq_true_2.
      * unfold render_message, video_path. list_norm.
      * rewrite !Forall_app. split; [|apply Hc2].
        apply (at_step_Forall (fun ev => target ev <> Some _)), Forall_app. split; [done|].
        repeat constructor. cbn. intros [= H]. symmetry in H.
        by apply image_path_not_video in H.
    + cbn in H. by destruct H as [|].
  - intros s p frames fps q v Hin Hv.
    destruct (Hsplit _ _ Hin eq_refl) as (c1 & pre & m & c2 & -> & Hpre & Hrn & Hc2 & _).
    unfold render_calls in Hrn |- *. rewrite !in_app_iff in Hrn.
    destruct Hrn as [H|[H|[H|H]]].
    + cbn in H. by destruct H as [|[|]].
    + apply in_map_iff in H as (? & [=] & _).
    + pose proof (image_calls_from cfg s 0 (frames_of m (render_data l) (chunks cfg))) as Hf.
      rewrite List.Forall_forall in Hf. by apply Hf in H as (? & ? & _ & [=]).
    + cbn in H. destruct H as [H|[]]. injection H as <- <- <- <-.
      rewrite (fs_last_write _ _
                 (c1 ++ at_step s (pre ++ [EvSetMode false; EvPrint (render_message l)]
                           ++ map (fun _ => EvRenderImage (training m)
                                              (rl_h (render_data l)) (rl_w (render_data l))
                                              (chunks cfg))
                                (rl_batches (render_data l))
                           ++ image_calls cfg s 0 (frames_of m (render_data l) (chunks cfg))))
                 (s, EvMimwrite (video_path cfg s)
                       (frames_of m (render_data l) (chunks cfg)) 30 10)
                 _ c2).
      * cbn. by rewrite bool_decide_eq_true_2, Hv.
      * unfold render_message, video_path. list_norm.
      * apply Hc2.
Qed.

(** C10, as the code has it.  Whatever the configuration, the render
    loader is constructed with [h=200, w=200] and the driver passes the
    loader's [.h] and [.w] to [render_image].  With a loader that keeps
    the size it is given and a [render_image] that returns an image of
    the size it is asked for: every [render_image] call asks for 200 by
    200; every image written by [imageio.imwrite] is 200 by 200 and its
    file still holds it when the run ends; every frame handed to
    [imageio.mimwrite] is 200 by 200, but the video written from them is
    208 by 208, since line 108 leaves [macro_block_size] at 16.  In a run
    that completes, every step in range that is a multiple of
    [render_every] renders one such frame per render batch, writes frame
    [i] to [<log_dir>/step_<s>/image_<i>.png] and all of them to
    [<log_dir>/step_<s>/video.mp4]. *)
Theorem preview_size cfg w r w' :
  loader_keeps_size -> renders_full_image ->
  train_model cfg w = (r, w') -> trace w = [] ->
  (forall s tr h wd chk, In (s, EvRenderImage tr h wd chk) (trace w') ->
     h = 200 /\ wd = 200) /\
  (forall s p img, In (s, EvImwrite p img) (trace w') ->
     is_200x200 img /\ fs w' !! p = Some (FImage img)) /\
  (forall s p frames fps q, In (s, EvMimwrite p frames fps q) (trace w') ->
     Forall is_200x200 frames /\
     (frames <> [] -> fs w' !! p = Some (FVideo frames (208, 208) fps q))) /\
  (forall l, r = Ok l ->
     forall s, start_step l <= s < max_steps cfg -> s mod render_every cfg = 0 ->
       exists p,
         let frames := map (fun rays => render_image p false rays 200 200 (chunks cfg))
                         (rl_batches (render_data l)) in
         (forall i img, frames !! i = Some img ->
            In (s, EvImwrite (image_path cfg s (Z.of_nat i)) img) (trace w')) /\
         In (s, EvMimwrite (video_path cfg s) frames 30 10) (trace w')).
Proof.
  intros Hld Hri Hrun Htr.
  apply train_model_inv in Hrun as [(e & Hst & ->)|(l0 & w1 & c & Hst & Hl & ->)].
  { apply startup_raise in Hst as (_ & -> & _). rewrite Htr. by split_and!. }
  rewrite trace_perform.
  apply startup_ok in Hst as (Hlg & Hp & Hrd & _ & _ & -> & _). rewrite Htr. cbn [app].
  assert (Hh : rl_h (render_data l0) = 200) by (rewrite Hrd; apply Hld).
  assert (Hw : rl_w (render_data l0) = 200) by (rewrite Hrd; apply Hld).
  pose proof (loop_previews _ _ _ _ Hri Hl Hh Hw) as Hpv. rewrite List.Forall_forall in Hpv.
  destruct (loop_previews_kept _ _ _ _ w1 Hl Hlg Hp) as [Himg Hvid].
  split_and!.
  - intros s tr h wd chk Hin. by apply Hpv in Hin.
  - intros s p img Hin. split; [by apply Hpv in Hin|by eapply Himg].
  - intros s p frames fps q Hin. pose proof (Hpv _ Hin) as Hf. cbn in Hf.
    split; [done|]. intros Hne. eapply Hvid; [done|]. by apply video_of_200.
  - intros l ->. intros s Hrange Hm.
    pose proof (loop_env _ _ _ _ Hl) as (_ & _ & Hss & Hrd' & _).
    rewrite Hss in Hrange.
    destruct (loop_render_calls _ _ _ _ _ Hl Hrange Hm) as (p & Hcalls).
    exists p. cbv zeta.
    set (frames := map (fun rays => render_image p false rays 200 200 (chunks cfg))
                     (rl_batches (render_data l))).
    assert (Hfr : frames = frames_of {| params := p; training := false |}
                             (render_data l0) (chunks cfg)).
    { subst frames. unfold frames_of. cbn. by rewrite Hh, Hw, Hrd'. }
    split.
    + intros i img Hi. apply Hcalls. unfold render_calls. rewrite !in_app_iff.
      right. right. left. rewrite <- Hfr.
      destruct (image_calls_lookup cfg s frames 0 i img Hi) as (l1 & l2 & -> & _).
      replace (0 + Z.of_nat i) with (Z.of_nat i) by lia.
      apply in_app_iff. right. by left.
    + apply Hcalls. unfold render_calls. rewrite !in_app_iff.
      right. right. right. rewrite <- Hfr. by left.
Qed.

(** *** Evaluation *)

(** X11. The evaluation logged at a saving step describes the snapshot
    saved at that step: in a completed run with [do_eval], for a saving
    step [s] the three evaluation records follow the five of training,
    and they are the PSNRs of the parameters held by
    [<log_dir>/model_<s>.pt], computed in inference mode on the held-out
    batch whose number is that of the evaluation (one batch per saving
    step so far). *)
Theorem evaluation_describes_the_snapshot cfg w l w' s :
  train_model cfg w = (Ok l, w') ->
  do_eval cfg = true ->
  start_step l <= s < max_steps cfg ->
  s mod save_every cfg = 0 ->
  exists ck c efine,
    fs w' !! stamped_path cfg s = Some (FCkpt ck) /\
    trace w' = trace w ++ c /\
    let ed := Nat.iter (length (saving_steps cfg (py_range (start_step l) s))) advance
                (get_dataloader cfg "test") in
    py_last (eval_psnr (ck_state_dict ck) ed) = Ok efine /\
    drop 5 (events_at s (scalars_of c))
    = eval_records s (py_init (eval_psnr (ck_state_dict ck) ed)) efine.
Proof.
  intros Hrun Hde Hrange Hm.
  apply completed_run in Hrun as (l0 & w1 & c & Hst & Hl & Henv & Htr & ->).
  pose proof (startup_data _ _ _ _ Hst) as [_ Hed0]. rewrite Hde in Hed0.
  apply startup_ok in Hst as (Hlg & Hp & _).
  destruct Henv as (Hlg' & _ & Hss & _). rewrite Hss in *.
  destruct (loop_at_step _ _ _ _ _ Hl Hrange)
    as (c1 & l_s & c_s & l_s' & c2 & H1 & H2 & Hc & Hev).
  pose proof (for_each_state _ _ _ _ _ H1) as [_ Heds].
  rewrite Hed0, iter_fmap in Heds.
  assert (Henv_s : same_env l0 l_s).
  { apply for_each_chunks in H1 as (? & ? & _ & _ & Hok). by destruct (Hok _ eq_refl). }
  set (ck := {| ck_state_dict := params (model l_s'); ck_optimizer := optimizer l_s';
                ck_step := s |}).
  assert (Hin : In (s, EvTorchSave (stamped_path cfg s) ck) c).
  { pose proof (iteration_checkpoint cfg _ _ _ _ H2 Hm) as Hin. fold ck in Hin.
    destruct Henv_s as (_ & Hp_s & _). rewrite Hp_s, Hp in Hin.
    assert (Hin_c : In (s, EvTorchSave (latest_path cfg) ck) c).
    { rewrite Hc, !in_app_iff. auto. }
    assert (Hran : saving_ran s c) by (by exists (EvTorchSave (latest_path cfg) ck)).
    destruct (run_saves _ _ _ _ _ Hl Hlg Hp Hran) as (ck' & _ & Hcalls & _).
    apply Hcalls in Hin_c as [-> _]. apply Hcalls. auto. }
  destruct (loop_snapshot _ _ _ _ _ _ Hl Hlg Hp Hin) as [_ Hfs].
  apply iteration_values in H2 as (fine & lr & evl & _ & _ & Hrec & Hevl).
  rewrite Heds, Hm in Hevl. cbn [Z.eqb] in Hevl. destruct Hevl as (efine & Hef & ->).
  exists ck, c, efine. split_and!; [apply Hfs|done|].
  intros ed. split; [done|].
  rewrite Hev, Hrec. by apply drop_app_length'.
Qed.

End MoreFacts.

Import Toy.

(** ** Concrete runs *)

Local Ltac run_toy :=
  match goal with
  | |- exists l w', ?run = (?R l, w') /\ _ =>
      let H := fresh "H" in
      assert (H : { lw : Locals * World | run = (R lw.1, lw.2) })
        by (eexists (_, _); vm_compute; reflexivity);
      destruct H as [[l w'] H]; exists l, w'; split; [exact H|]
  end.

Lemma cadence_witness :
  exists l w',
    train_model cfg_plain world0 = (Ok l, w') /\
    trace world0 = [] /\
    forall s,
      (saving_ran s (trace w') <->
         start_step l <= s < max_steps cfg_plain /\ s mod save_every cfg_plain = 0) /\
      (rendering_ran s (trace w') <->
         start_step l <= s < max_steps cfg_plain /\ s mod render_every cfg_plain = 0) /\
      (start_step l <= s < max_steps cfg_plain ->
       s mod save_every cfg_plain = 0 -> s mod render_every cfg_plain = 0 ->
       saving_ran s (trace w') /\ rendering_ran s (trace w')).
Proof.
  run_toy. split; [reflexivity|].
  apply (cadence cfg_plain world0 l w' H). reflexivity.
Defined.

Lemma psnr_aggregation_witness :
  exists l w',
    train_model cfg_eval world0 = (Ok l, w') /\
    exists l0 w1 c,
      startup cfg_eval world0 = (Ok l0, w1) /\ trace w' = trace world0 ++ c /\
      forall s, start_step l <= s < max_steps cfg_eval ->
        let psnr := (loss_of cfg_eval (state_at (train_state l0) (start_step l) s)).2 in
        exists fine,
          py_last psnr = Ok fine /\
          psnr = py_init psnr ++ [fine] /\
          logged "train/coarse_psnr" s c = [np_mean (py_init psnr)] /\
          logged "train/fine_psnr" s c = [fine] /\
          logged "train/avg_psnr" s c = [np_mean psnr].
Proof.
  run_toy. apply (psnr_aggregation cfg_eval world0 l w' H).
Defined.

Lemma checkpoint_roundtrip_witness :
  continue_training cfg_resume = true /\
  (forall p m0 o0,
     let w1 := (run (save_model trained_model trained_optimizer 2 p) world0).2 in
     fs w1 !! p = Some (FCkpt {| ck_state_dict :=
                                   model_state_dict trained_model;
                                 ck_optimizer := trained_optimizer; ck_step := 2 |}) /\
     exists m' w2,
       restore cfg_resume p m0 o0 w1 = (Ok (m', trained_optimizer, 2), w2) /\
       model_state_dict m' = model_state_dict trained_model /\
       fs w2 = fs w1) /\
  (let w1 := (run (save_model trained_model trained_optimizer 2
                     (latest_path cfg_resume)) world0).2 in
   exists l w2,
     startup cfg_resume w1 = (Ok l, w2) /\ start_step l = 2 /\
     model_state_dict (model l) = model_state_dict trained_model /\
     (scheduler l, optimizer l) = MipLRDecay cfg_resume trained_optimizer).
Proof.
  split; [reflexivity|].
  apply (checkpoint_roundtrip cfg_resume trained_model trained_optimizer 2 world0).
  reflexivity.
Defined.

Lemma five_scalars_per_step_witness :
  exists l w',
    train_model cfg_plain world0 = (Ok l, w') /\
    exists l0 w1 c,
      startup cfg_plain world0 = (Ok l0, w1) /\ trace w' = trace world0 ++ c /\
      (forall i lg e, In (i, EvAddScalar lg e) c -> lg = logger l /\ global_step e = i) /\
      forall s,
        (start_step l <= s < max_steps cfg_plain ->
         let st := state_at (train_state l0) (start_step l) s in
         exists fine lr,
           py_last (loss_of cfg_plain st).2 = Ok fine /\
           py_last (get_last_lr (schedule_of (optimisation_step st))) = Ok lr /\
           take 5 (events_at s (scalars_of c))
           = [{| tag := "train/loss"; value := (loss_of cfg_plain st).1; global_step := s |};
              {| tag := "train/coarse_psnr";
                 value := np_mean (py_init (loss_of cfg_plain st).2); global_step := s |};
              {| tag := "train/fine_psnr"; value := fine; global_step := s |};
              {| tag := "train/avg_psnr"; value := np_mean (loss_of cfg_plain st).2;
                 global_step := s |};
              {| tag := "train/lr"; value := lr; global_step := s |}] /\
           map tag (drop 5 (events_at s (scalars_of c)))
           = (if do_eval cfg_plain && (s mod save_every cfg_plain =? 0)
              then ["eval/coarse_psnr"; "eval/fine_psnr"; "eval/avg_psnr"] else []) /\
           (do_eval cfg_plain = false -> length (events_at s (scalars_of c)) = 5%nat)) /\
        (~ (start_step l <= s < max_steps cfg_plain) -> events_at s (scalars_of c) = []).
Proof.
  run_toy. apply (five_scalars_per_step cfg_plain world0 l w' H).
Defined.

Lemma modes_witness :
  exists l w',
    train_model cfg_plain world0 = (Ok l, w') /\
    trace world0 = [] /\
    (forall s tr, In (s, EvForward tr true) (trace w') -> tr = true) /\
    (forall s tr h wd chk, In (s, EvRenderImage tr h wd chk) (trace w') -> tr = false) /\
    training (model l) =
      negb (bool_decide (start_step l < max_steps cfg_plain)
            && ((max_steps cfg_plain - 1) mod render_every cfg_plain =? 0)).
Proof.
  run_toy. split; [reflexivity|].
  apply (modes cfg_plain world0 l w' H). reflexivity.
Defined.

(** The claim of C5 fails where the last iteration renders: the run of one
    step below completes, its only iteration renders, and the model is
    left in inference mode. *)
Lemma rendering_leaves_inference_mode :
  exists l w',
    train_model cfg_one world0 = (Ok l, w') /\
    rendering_ran 0 (trace w') /\
    training (model l) = false.
Proof.
  eexists _, _. split; [vm_compute; reflexivity|]. split; [|reflexivity].
  apply rendering_ran_check. vm_compute. reflexivity.
Qed.


Lemma missing_checkpoint_is_fatal_witness :
  continue_training cfg_resume = true /\
  fs world0 !! latest_path cfg_resume = None /\
  train_model cfg_resume world0
    = (Raise (FileNotFoundError (latest_path cfg_resume)), world0).
Proof.
  split; [reflexivity|]. split; [vm_compute; reflexivity|].
  apply (missing_checkpoint_is_fatal cfg_resume world0); [reflexivity|vm_compute; reflexivity].
Defined.

Lemma deterministic_run_witness :
  (continue_training cfg_resume = true ->
   fs world_with_checkpoint !! latest_path cfg_resume
   = fs world_with_history !! latest_path cfg_resume) /\
  (train_model cfg_resume world_with_checkpoint).1
    = (train_model cfg_resume world_with_history).1 /\
  exists c,
    trace (train_model cfg_resume world_with_checkpoint).2
      = trace world_with_checkpoint ++ c /\
    trace (train_model cfg_resume world_with_history).2
      = trace world_with_history ++ c /\
    forall l, (train_model cfg_resume world_with_checkpoint).1 = Ok l ->
      exists l0 v1 v2,
        startup cfg_resume world_with_checkpoint = (Ok l0, v1) /\
        startup cfg_resume world_with_history = (Ok l0, v2) /\
        forall s, start_step l0 <= s < max_steps cfg_resume ->
          let st := state_at (train_state l0) (start_step l0) s in
          exists fine,
            py_last (loss_of cfg_resume st).2 = Ok fine /\
            logged "train/loss" s c = [(loss_of cfg_resume st).1] /\
            logged "train/coarse_psnr" s c
              = [np_mean (py_init (loss_of cfg_resume st).2)] /\
            logged "train/fine_psnr" s c = [fine] /\
            logged "train/avg_psnr" s c = [np_mean (loss_of cfg_resume st).2].
Proof.
  assert (H : continue_training cfg_resume = true ->
              fs world_with_checkpoint !! latest_path cfg_resume
              = fs world_with_history !! latest_path cfg_resume)
    by (intros _; vm_compute; reflexivity).
  split; [exact H|].
  apply (deterministic_run cfg_resume world_with_checkpoint world_with_history H).
Defined.

(** The two runs above do complete, and what they log is there to see:
    resumed at step 1 with parameters 7, both log for step 1 the loss 7
    and the fine PSNR 12, for step 2 the loss 8 and the fine PSNR 13. *)
Example two_runs_log_the_same :
  is_ok (train_model cfg_resume world_with_checkpoint).1 = true /\
  (forall w, w = world_with_checkpoint \/ w = world_with_history ->
     logged "train/loss" 1 (trace (train_model cfg_resume w).2) = [7%Q] /\
     logged "train/fine_psnr" 1 (trace (train_model cfg_resume w).2) = [12%Q] /\
     logged "train/loss" 2 (trace (train_model cfg_resume w).2) = [8%Q] /\
     logged "train/fine_psnr" 2 (trace (train_model cfg_resume w).2) = [13%Q]).
Proof.
  split; [vm_compute; reflexivity|].
  intros w [->| ->]; split_and!; vm_compute; reflexivity.
Qed.

Lemma train_log_is_reset_witness :
  train_model cfg_resume world_with_history
    = ((train_model cfg_resume world_with_history).1,
       (train_model cfg_resume world_with_history).2) /\
  fs (train_model cfg_resume world_with_history).2 !! event_file (train_dir cfg_resume)
    = Some FEvents /\
  (forall p, Path.under (train_dir cfg_resume) p = true ->
             p <> event_file (train_dir cfg_resume) ->
             fs (train_model cfg_resume world_with_history).2 !! p = None) /\
  (forall s lg e,
     In (s, EvAddScalar lg e) (trace (train_model cfg_resume world_with_history).2) ->
     In (s, EvAddScalar lg e) (trace world_with_history) \/
     lg = event_file (train_dir cfg_resume)).
Proof.
  assert (Hrun : train_model cfg_resume world_with_history
                 = ((train_model cfg_resume world_with_history).1,
                    (train_model cfg_resume world_with_history).2))
    by apply surjective_pairing.
  split; [exact Hrun|].
  exact (train_log_is_reset cfg_resume world_with_history _ _ Hrun).
Defined.

(** The claim of C9 fails on a startup that is asked to resume and finds
    no checkpoint: [train_model] raises at line 49, and the event file
    that an earlier run left below [<log_dir>/train] is still there; no
    new one was created. *)
Lemma failed_resume_keeps_the_old_log :
  continue_training cfg_resume = true /\
  train_model cfg_resume world_with_old_log
    = (Raise (FileNotFoundError (latest_path cfg_resume)), world_with_old_log) /\
  Path.under (train_dir cfg_resume) "log/train/events.out.tfevents.old" = true /\
  fs world_with_old_log !! "log/train/events.out.tfevents.old" = Some FEvents /\
  fs world_with_old_log !! event_file (train_dir cfg_resume) = None.
Proof. split_and!; vm_compute; reflexivity. Qed.

Lemma preview_size_witness :
  loader_keeps_size /\ renders_full_image /\
  train_model cfg_two_poses world0
    = ((train_model cfg_two_poses world0).1, (train_model cfg_two_poses world0).2) /\
  trace world0 = [] /\
  (forall s tr h wd chk,
     In (s, EvRenderImage tr h wd chk) (trace (train_model cfg_two_poses world0).2) ->
     h = 200 /\ wd = 200) /\
  (forall s p img, In (s, EvImwrite p img) (trace (train_model cfg_two_poses world0).2) ->
     is_200x200 img /\ fs (train_model cfg_two_poses world0).2 !! p = Some (FImage img)) /\
  (forall s p frames fps q,
     In (s, EvMimwrite p frames fps q) (trace (train_model cfg_two_poses world0).2) ->
     Forall is_200x200 frames /\
     (frames <> [] ->
      fs (train_model cfg_two_poses world0).2 !! p = Some (FVideo frames (208, 208) fps q))) /\
  (forall l, (train_model cfg_two_poses world0).1 = Ok l ->
     forall s, start_step l <= s < max_steps cfg_two_poses ->
               s mod render_every cfg_two_poses = 0 ->
       exists p,
         let frames := map (fun rays => render_image p false rays 200 200
                                          (chunks cfg_two_poses))
                         (rl_batches (render_data l)) in
         (forall i img, frames !! i = Some img ->
            In (s, EvImwrite (image_path cfg_two_poses s (Z.of_nat i)) img)
               (trace (train_model cfg_two_poses world0).2)) /\
         In (s, EvMimwrite (video_path cfg_two_poses s) frames 30 10)
            (trace (train_model cfg_two_poses world0).2)).
Proof.
  assert (Hld : loader_keeps_size) by (intros ? ? ? ? ? ?; split; reflexivity).
  assert (Hri : renders_full_image) by (intros ? ? ? ? ? ?; reflexivity).
  assert (Hrun : train_model cfg_two_poses world0
                 = ((train_model cfg_two_poses world0).1,
                    (train_model cfg_two_poses world0).2))
    by apply surjective_pairing.
  split; [exact Hld|]. split; [exact Hri|]. split; [exact Hrun|]. split; [reflexivity|].
  apply (preview_size cfg_two_poses world0 _ _ Hld Hri Hrun eq_refl).
Defined.

(** The claim of C10 fails for the video: in the run of one step below,
    with a loader that keeps the size it is given and a [render_image]
    that returns what it is asked for, the frame rendered at step 0 is 200
    by 200 and is written as such to [image_0.png], but the video written
    from it is 208 by 208. *)
Lemma video_is_208_by_208 :
  loader_keeps_size /\ renders_full_image /\
  exists l w' img,
    train_model cfg_one world0 = (Ok l, w') /\
    fs w' !! "log/step_0/image_0.png" = Some (FImage img) /\
    img_shape img = (200, 200) /\
    fs w' !! "log/step_0/video.mp4" = Some (FVideo [img] (208, 208) 30 10).
Proof.
  split; [intros ? ? ? ? ? ?; split; reflexivity|].
  split; [intros ? ? ? ? ? ?; reflexivity|].
  eexists _, _, _. split; [vm_compute; reflexivity|].
  split_and!; vm_compute; reflexivity.
Qed.

(** The mean over the whole array is not the mean of the two logged
    values: at step 0 of the run below the levels are 0, 1 and 5; the
    coarse mean logged is 1/2, the fine value 5 and the mean logged is
    that of 0, 1 and 5, which is 2, while the mean of 1/2 and 5 is 11/4. *)
Example avg_psnr_is_over_all_levels :
  let c := trace (train_model cfg_one world0).2 in
  logged "train/coarse_psnr" 0 c = [(1 # 2)%Q] /\
  logged "train/fine_psnr" 0 c = [5%Q] /\
  logged "train/avg_psnr" 0 c = [mean [0%Q; 1%Q; 5%Q]] /\
  (mean [0%Q; 1%Q; 5%Q] == 2)%Q /\
  ~ (mean [0%Q; 1%Q; 5%Q] == mean [(1 # 2)%Q; 5%Q])%Q.
Proof.
  intros c. subst c. split_and!; try (vm_compute; reflexivity).
  intros H. vm_compute in H. discriminate.
Qed.

(** ** Concrete runs for the further properties *)

Lemma writes_stay_in_log_dir_witness :
  train_model cfg_plain world_with_neighbour
    = ((train_model cfg_plain world_with_neighbour).1,
       (train_model cfg_plain world_with_neighbour).2) /\
  String.prefix (Path.dir_prefix (log_dir cfg_plain)) "logs_old/model.pt" = false /\
  fs (train_model cfg_plain world_with_neighbour).2 !! "logs_old/model.pt"
    = fs world_with_neighbour !! "logs_old/model.pt".
Proof.
  assert (Hrun : train_model cfg_plain world_with_neighbour
                 = ((train_model cfg_plain world_with_neighbour).1,
                    (train_model cfg_plain world_with_neighbour).2))
    by apply surjective_pairing.
  split; [exact Hrun|]. split; [reflexivity|].
  apply (writes_stay_in_log_dir cfg_plain world_with_neighbour _ _ _ Hrun). reflexivity.
Defined.

Lemma snapshots_are_kept_witness :
  exists l w',
    train_model cfg_plain world0 = (Ok l, w') /\
    trace world0 = [] /\
    In (0, EvTorchSave (stamped_path cfg_plain 0)
             {| ck_state_dict := 1; ck_optimizer := 1; ck_step := 0 |}) (trace w') /\
    ck_step {| ck_state_dict := 1; ck_optimizer := 1; ck_step := 0 |} = 0 /\
    fs w' !! stamped_path cfg_plain 0
      = Some (FCkpt {| ck_state_dict := 1; ck_optimizer := 1; ck_step := 0 |}).
Proof.
  run_toy. split; [reflexivity|].
  assert (Hin : In (0, EvTorchSave (stamped_path cfg_plain 0)
                         {| ck_state_dict := 1; ck_optimizer := 1; ck_step := 0 |})
                   (trace w')).
  { assert (Hw : (train_model cfg_plain world0).2 = w') by (by rewrite H).
    vm_compute in Hw. subst w'. cbn [trace]. cbn. tauto. }
  split; [exact Hin|].
  apply (snapshots_are_kept cfg_plain world0 (Ok l) w' 0 _ H eq_refl Hin).
Defined.

Lemma side_tasks_leave_training_alone_witness :
  exists l w',
    train_model cfg_eval world0 = (Ok l, w') /\
    exists l0 w1,
      startup cfg_eval world0 = (Ok l0, w1) /\
      train_state l =
        Nat.iter (Z.to_nat (max_steps cfg_eval - start_step l0)) optimisation_step
          (train_state l0).
Proof.
  run_toy. apply (side_tasks_leave_training_alone cfg_eval world0 l w' H).
Defined.

Lemma batches_drawn_witness :
  exists l w',
    train_model cfg_eval world0 = (Ok l, w') /\
    data l = Nat.iter (Z.to_nat (max_steps cfg_eval - start_step l)) advance
               (get_dataloader cfg_eval "train") /\
    eval_data l =
      if do_eval cfg_eval
      then Some (Nat.iter
                   (length (saving_steps cfg_eval
                              (py_range (start_step l) (max_steps cfg_eval))))
                   advance (get_dataloader cfg_eval "test"))
      else None.
Proof.
  run_toy. apply (batches_drawn cfg_eval world0 l w' H).
Defined.

Lemma final_checkpoint_is_final_state_witness :
  exists l w',
    train_model cfg_eval world0 = (Ok l, w') /\
    start_step l < max_steps cfg_eval /\
    (max_steps cfg_eval - 1) mod save_every cfg_eval = 0 /\
    fs w' !! latest_path cfg_eval
      = Some (FCkpt {| ck_state_dict := model_state_dict (model l);
                       ck_optimizer := optimizer l;
                       ck_step := max_steps cfg_eval - 1 |}) /\
    forall cfg2, log_dir cfg2 = log_dir cfg_eval -> continue_training cfg2 = true ->
      exists l2 w2,
        startup cfg2 w' = (Ok l2, w2) /\
        start_step l2 = max_steps cfg_eval - 1 /\
        model_state_dict (model l2) = model_state_dict (model l) /\
        (scheduler l2, optimizer l2) = MipLRDecay cfg2 (optimizer l).
Proof.
  run_toy.
  assert (Hs : start_step l < max_steps cfg_eval).
  { assert (Hl : (train_model cfg_eval world0).1 = Ok l) by (by rewrite H).
    vm_compute in Hl. injection Hl as <-. reflexivity. }
  split; [exact Hs|]. split; [reflexivity|].
  apply (final_checkpoint_is_final_state cfg_eval world0 l w' H Hs). reflexivity.
Defined.

Lemma zero_cadence_is_fatal_witness :
  exists l w1,
    startup cfg_zero world0 = (Ok l, w1) /\
    start_step l < max_steps cfg_zero /\
    (save_every cfg_zero = 0 \/ render_every cfg_zero = 0) /\
    exists e c,
      train_model cfg_zero world0 = (Raise e, foldl perform w1 c) /\
      (e = ZeroDivisionError \/ e = IndexError) /\
      In (start_step l, EvUpdate) c /\
      Forall (stopped_early cfg_zero (start_step l)) c.
Proof.
  run_toy.
  assert (Hs : start_step l < max_steps cfg_zero).
  { assert (Hl : (startup cfg_zero world0).1 = Ok l) by (by rewrite H).
    vm_compute in Hl. injection Hl as <-. reflexivity. }
  split; [exact Hs|]. split; [left; reflexivity|].
  apply (zero_cadence_is_fatal cfg_zero world0 l w1 H Hs). left. reflexivity.
Defined.

Section NoLevels.

#[local] Existing Instance toy_no_levels | 0.

Lemma empty_psnr_is_fatal_witness :
  exists l w1,
    startup cfg_plain world0 = (Ok l, w1) /\
    start_step l < max_steps cfg_plain /\
    (loss_of cfg_plain (train_state l)).2 = [] /\
    exists w',
      train_model cfg_plain world0 = (Raise IndexError, w') /\
      trace w' = trace world0
                 ++ at_step (start_step l) (short_step_calls cfg_plain (start_step l) l).
Proof.
  run_toy.
  assert (Hl : (startup cfg_plain world0).1 = Ok l) by (by rewrite H).
  vm_compute in Hl. injection Hl as Hl.
  assert (Hs : start_step l < max_steps cfg_plain) by (by rewrite <- Hl).
  assert (He : (loss_of cfg_plain (train_state l)).2 = []) by (by rewrite <- Hl).
  split; [exact Hs|]. split; [exact He|].
  apply (empty_psnr_is_fatal cfg_plain world0 l w1 H Hs He).
Defined.

End NoLevels.

Lemma resuming_a_finished_run_witness :
  continue_training cfg_finished = true /\
  fs world_with_history !! latest_path cfg_finished = Some (FCkpt old_checkpoint) /\
  max_steps cfg_finished <= ck_step old_checkpoint /\
  exists l w',
    train_model cfg_finished world_with_history = (Ok l, w') /\
    start_step l = ck_step old_checkpoint /\
    model_state_dict (model l) = ck_state_dict old_checkpoint /\
    trace w' = trace world_with_history /\
    stdout w' = stdout world_with_history ++ [loaded_message] /\
    fs w' !! latest_path cfg_finished = Some (FCkpt old_checkpoint) /\
    fs w' !! event_file (train_dir cfg_finished) = Some FEvents /\
    forall p, Path.under (train_dir cfg_finished) p = true ->
              p <> event_file (train_dir cfg_finished) ->
              fs w' !! p = None.
Proof.
  assert (Hck : fs world_with_history !! latest_path cfg_finished
                = Some (FCkpt old_checkpoint)) by (vm_compute; reflexivity).
  assert (Hmax : max_steps cfg_finished <= ck_step old_checkpoint) by (vm_compute; discriminate).
  split; [reflexivity|]. split; [exact Hck|]. split; [exact Hmax|].
  apply (resuming_a_finished_run cfg_finished world_with_history old_checkpoint eq_refl
           Hck Hmax).
Defined.

Lemma messages_printed_witness :
  exists l w',
    train_model cfg_resume world_with_checkpoint = (Ok l, w') /\
    stdout w'
    = stdout world_with_checkpoint
      ++ (if continue_training cfg_resume then [loaded_message] else [])
      ++ map (fun _ => render_message l)
           (rendering_steps cfg_resume (py_range (start_step l) (max_steps cfg_resume))).
Proof.
  run_toy. apply (messages_printed cfg_resume world_with_checkpoint l w' H).
Defined.

Lemma evaluation_describes_the_snapshot_witness :
  exists l w',
    train_model cfg_eval world0 = (Ok l, w') /\
    do_eval cfg_eval = true /\
    start_step l <= 1 < max_steps cfg_eval /\
    1 mod save_every cfg_eval = 0 /\
    exists ck c efine,
      fs w' !! stamped_path cfg_eval 1 = Some (FCkpt ck) /\
      trace w' = trace world0 ++ c /\
      let ed := Nat.iter (length (saving_steps cfg_eval (py_range (start_step l) 1)))
                  advance (get_dataloader cfg_eval "test") in
      py_last (eval_psnr (ck_state_dict ck) ed) = Ok efine /\
      drop 5 (events_at 1 (scalars_of c))
      = eval_records 1 (py_init (eval_psnr (ck_state_dict ck) ed)) efine.
Proof.
  run_toy.
  assert (Hs : start_step l <= 1 < max_steps cfg_eval).
  { assert (Hl : (train_model cfg_eval world0).1 = Ok l) by (by rewrite H).
    vm_compute in Hl. injection Hl as <-. split; [discriminate|reflexivity]. }
  split; [reflexivity|]. split; [exact Hs|]. split; [reflexivity|].
  apply (evaluation_describes_the_snapshot cfg_eval world0 l w' 1 H eq_refl Hs eq_refl).
Defined.

(** In the run with a saving cadence of zero it is [step % 0] that stops
    the first iteration: the five training scalars of step 0 have been
    logged, and no checkpoint was written. *)
Example zero_cadence_run :
  (train_model cfg_zero world0).1 = Raise ZeroDivisionError /\
  map tag (scalars_of (trace (train_model cfg_zero world0).2))
    = ["train/loss"; "train/coarse_psnr"; "train/fine_psnr"; "train/avg_psnr"; "train/lr"] /\
  fs (train_model cfg_zero world0).2 !! "log/model.pt" = None.
Proof. split_and!; vm_compute; reflexivity. Qed.

(** In the run with two render poses, step 2 leaves two numbered images
    and a video of two frames, next to those of step 0. *)
Example two_poses_run :
  exists f0 f1,
    fs (train_model cfg_two_poses world0).2 !! "log/step_2/image_0.png" = Some (FImage f0) /\
    fs (train_model cfg_two_poses world0).2 !! "log/step_2/image_1.png" = Some (FImage f1) /\
    fs (train_model cfg_two_poses world0).2 !! "log/step_2/video.mp4"
      = Some (FVideo [f0; f1] (208, 208) 30 10) /\
    fs (train_model cfg_two_poses world0).2 !! "log/step_2/image_2.png" = None /\
    is_Some (fs (train_model cfg_two_poses world0).2 !! "log/step_0/video.mp4").
Proof.
  eexists _, _. split_and!; try (vm_compute; reflexivity).
  vm_compute. eauto.
Qed.
